(** * The mesh connection client ([src/adapters/service-mesh/node.js])

    A shallow embedding of [ServiceMeshClient]: its wire codec
    ([primitives], [encode], [decode]), its send queue ([send],
    [manageSendQueue], [saveSendQueue], [sendQueuedMsgs]), its heartbeat
    and the socket handlers registered by [connect], followed by the
    properties of the specification stated on these definitions. *)

From Stdlib Require Import ZArith List Bool Lia String Ascii.
Import ListNotations.
Local Open Scope Z_scope.

(** ** JavaScript strings

    A JavaScript string is a sequence of 16-bit code units. *)

Definition jsstring := list Z.

Definition is_unit (u : Z) : bool := (0 <=? u) && (u <? 65536).

Definition lit (s : string) : jsstring :=
  map (fun c => Z.of_N (N_of_ascii c)) (list_ascii_of_string s).

Definition jsstring_eqb (a b : jsstring) : bool :=
  if list_eq_dec Z.eq_dec a b then true else false.

Definition is_high (u : Z) : bool := (55296 <=? u) && (u <? 56320).
Definition is_low (u : Z) : bool := (56320 <=? u) && (u <? 57344).

(** ** Numbers

    A Number is an IEEE 754 double: a zero, or a finite value [m * 2^e]
    with [m] odd, of either sign, an infinity of either sign, or NaN. *)

Inductive double : Type :=
| Finite (negative : bool) (m e : Z)
| Infinity (negative : bool)
| NaN.

Module Double.

Definition eqb (x y : double) : bool :=
  match x, y with
  | Finite s m e, Finite s' m' e' => Bool.eqb s s' && (m =? m') && (e =? e')
  | Infinity s, Infinity s' => Bool.eqb s s'
  | NaN, NaN => true
  | _, _ => false
  end.

(** Unary minus. *)
Definition opp (x : double) : double :=
  match x with
  | Finite s m e => Finite (negb s) m e
  | Infinity s => Infinity (negb s)
  | NaN => NaN
  end.

(** The doubles: [m] has at most 53 bits, [e] is not below [-1074] and
    the value is below [2^1024]. *)
Definition is_double (x : double) : bool :=
  match x with
  | Finite _ m e =>
      if m =? 0 then e =? 0
      else Z.odd m && (0 <? m) && (m <? 9007199254740992)
           && (-1074 <=? e) && (Z.log2 m + e <? 1024)
  | _ => true
  end.

(** The odd part of a positive integer and the power of two taken out. *)
Fixpoint odd_part (p : positive) : positive * Z :=
  match p with
  | xO q => let (r, k) := odd_part q in (r, k + 1)
  | _ => (p, 0)
  end.

(** The double of value [m * 2^e], for [m] of at most 53 bits and [e]
    not below [-1074]: an infinity from [2^1024] on. *)
Definition make (m e : Z) : double :=
  match m with
  | Zpos p =>
      let (r, k) := odd_part p in
      if 1024 <=? Z.log2 (Zpos r) + (e + k) then Infinity false
      else Finite false (Zpos r) (e + k)
  | _ => Finite false 0 0
  end.

(** [a / b] rounded to the nearest integer, ties to even. *)
Definition half_even (a b : Z) : Z :=
  let q := a / b in
  match 2 * (a mod b) ?= b with
  | Lt => q
  | Gt => q + 1
  | Eq => if Z.even q then q else q + 1
  end.

(** The double nearest to [p / q], ties to even, for [0 <= p] and
    [0 < q].  The quotient is counted in units of [2^-1074], the least
    positive double, and keeps its 53 leading bits. *)
Definition nearest (p q : Z) : double :=
  let n := p * 2 ^ 1074 in
  let shift := Z.max 0 (Z.log2 (n / q) - 52) in
  make (half_even n (q * 2 ^ shift)) (shift - 1074).

(** The double nearest to [m * 10^e], for [0 <= m]. *)
Definition of_decimal (m e : Z) : double :=
  if 0 <=? e then nearest (m * 10 ^ e) 1 else nearest m (10 ^ (- e)).

(** The Number of an integer: the integer itself when it has at most 53
    bits. *)
Definition of_Z (n : Z) : double :=
  let x := if Z.abs n <? 9007199254740992 then make (Z.abs n) 0
           else nearest (Z.abs n) 1 in
  if n <? 0 then opp x else x.

(** The integer part, towards zero; [0] for what is not finite. *)
Definition truncate (x : double) : Z :=
  match x with
  | Finite s m e =>
      let a := if 0 <=? e then m * 2 ^ e else m / 2 ^ (- e) in
      if s then - a else a
  | _ => 0
  end.

(** [ToBoolean]: false for the zeros and NaN. *)
Definition to_boolean (x : double) : bool :=
  match x with
  | Finite _ m _ => negb (m =? 0)
  | Infinity _ => true
  | NaN => false
  end.

(** The numbers that a JSON text holds as they are: the finite doubles
    but the negative zero, which is written [0]. *)
Definition is_json (x : double) : bool :=
  match x with
  | Finite s m e => is_double x && negb (s && (m =? 0))
  | _ => false
  end.

(** *** [Number::toString]

    For a finite [x] that is not zero the text is made of the integers
    [n], [k] and [s] such that [k >= 1], [10^(k-1) <= s < 10^k], the
    Number value for [s * 10^(n-k)] is [x] and [k] is as small as
    possible; of several such [s] the one closest to [x], the even one
    of two. *)

(** Decimal digits of a non-negative integer, most significant first. *)
Fixpoint digits_aux (fuel : nat) (n : Z) (acc : list Z) : list Z :=
  match fuel with
  | O => acc
  | S f =>
      let acc' := (48 + n mod 10) :: acc in
      if n <? 10 then acc' else digits_aux f (n / 10) acc'
  end.

Definition digits (n : Z) : list Z :=
  digits_aux (S (Z.to_nat (Z.log2 n))) n [].

Definition num_digits (n : Z) : Z := Z.of_nat (List.length (digits n)).

(** The decimal expansion of [m * 2^e] is finite: the value is
    [d * 10^p] for the pair [(d, p)]. *)
Definition exact_decimal (m e : Z) : Z * Z :=
  if 0 <=? e then (m * 2 ^ e, 0) else (m * 5 ^ (- e), e).

(** The decimal [s * 10^(n - k)], for [s] of [k] digits, has the Number
    value [x]. *)
Definition reads_as (x : double) (s n : Z) : bool :=
  eqb (of_decimal s (n - num_digits s)) x.

(** The decimal of [k] digits for [x]: of the two that enclose the value
    [d * 10^(n - dl)], [d] of [dl] digits, one whose Number value is [x],
    and the closer one when both are, the even one at equal distance. *)
Definition candidate (x : double) (d dl n k : Z) : option (Z * Z) :=
  let u := 10 ^ (dl - k) in
  let lo := d / u in
  let up := if lo + 1 =? 10 ^ k then (10 ^ (k - 1), n + 1) else (lo + 1, n) in
  match reads_as x lo n, reads_as x (fst up) (snd up) with
  | true, true =>
      match 2 * (d mod u) ?= u with
      | Lt => Some (lo, n)
      | Gt => Some up
      | Eq => if Z.even lo then Some (lo, n) else Some up
      end
  | true, false => Some (lo, n)
  | false, true => Some up
  | false, false => None
  end.

(** The digits [s] and the exponent [n] of [Number::toString]: as few
    digits as possible, from [k] digits on, and all [dl] digits of the
    exact expansion if nothing shorter has the value [x]. *)
Fixpoint shortest_from (fuel : nat) (x : double) (d dl n k : Z) : Z * Z :=
  match fuel with
  | O => (d, n)
  | S f =>
      if dl <=? k then (d, n)
      else match candidate x d dl n k with
           | Some r => r
           | None => shortest_from f x d dl n (k + 1)
           end
  end.

Definition shortest (m e : Z) : Z * Z :=
  let (d, p) := exact_decimal m e in
  let dl := num_digits d in
  shortest_from (Z.to_nat dl) (Finite false m e) d dl (dl + p) 1.

Definition zeros (n : Z) : list Z := repeat 48 (Z.to_nat n).

(** The text for the digits [s] and the exponent [n], the value being
    [0.s * 10^n]. *)
Definition digits_to_string (s n : Z) : jsstring :=
  let ds := digits s in
  let k := Z.of_nat (List.length ds) in
  if (k <=? n) && (n <=? 21) then ds ++ zeros (n - k)
  else if (0 <? n) && (n <=? 21) then
    firstn (Z.to_nat n) ds ++ 46 :: skipn (Z.to_nat n) ds
  else if (-6 <? n) && (n <=? 0) then 48 :: 46 :: zeros (- n) ++ ds
  else
    let exponent :=
      101 :: (if n - 1 <? 0 then 45 else 43) :: digits (Z.abs (n - 1)) in
    match ds with
    | [] => []
    | [d] => d :: exponent
    | d :: r => d :: 46 :: r ++ exponent
    end.

Definition sign (negative : bool) : jsstring := if negative then [45] else [].

Definition toString (x : double) : jsstring :=
  match x with
  | NaN => lit "NaN"
  | Infinity s => sign s ++ lit "Infinity"
  | Finite s m e =>
      if m =? 0 then [48]
      else let (d, n) := shortest m e in sign s ++ digits_to_string d n
  end.

(** *** Number literals of JSON *)

Definition is_digit (c : Z) : bool := (48 <=? c) && (c <=? 57).

Fixpoint read_digits (a : Z) (s : list Z) : Z * list Z :=
  match s with
  | c :: r => if is_digit c then read_digits (a * 10 + (c - 48)) r else (a, s)
  | [] => (a, [])
  end.

(** The digits of a fraction: each one lowers the exponent by one. *)
Fixpoint read_fraction (a e : Z) (s : list Z) : Z * Z * list Z :=
  match s with
  | c :: r =>
      if is_digit c then read_fraction (a * 10 + (c - 48)) (e - 1) r
      else (a, e, s)
  | [] => (a, e, [])
  end.

(** A single [0], or a non-zero digit followed by digits. *)
Definition parse_integer (s : list Z) : option (Z * list Z) :=
  match s with
  | c :: r =>
      if c =? 48 then Some (0, r)
      else if is_digit c then Some (read_digits 0 s)
      else None
  | [] => None
  end.

(** A point followed by one digit at least, or nothing. *)
Definition parse_fraction (i : Z) (s : list Z) : option (Z * Z * list Z) :=
  match s with
  | c :: r =>
      if c =? 46 then
        match r with
        | d :: _ => if is_digit d then Some (read_fraction i 0 r) else None
        | [] => None
        end
      else Some (i, 0, s)
  | [] => Some (i, 0, s)
  end.

(** [e] or [E], an optional sign and one digit at least, or nothing. *)
Definition parse_exponent (s : list Z) : option (Z * list Z) :=
  match s with
  | c :: r =>
      if (c =? 101) || (c =? 69) then
        let (negative, r') :=
          match r with
          | d :: t =>
              if d =? 45 then (true, t)
              else if d =? 43 then (false, t) else (false, r)
          | [] => (false, r)
          end in
        match r' with
        | d :: _ =>
            if is_digit d then
              let (x, rest) := read_digits 0 r' in
              Some (if negative then - x else x, rest)
            else None
        | [] => None
        end
      else Some (0, s)
  | [] => Some (0, s)
  end.

(** The number literal at the head of [s], after its sign if it has
    one, and its Number value. *)
Definition parse (negative : bool) (s : list Z) : option (double * list Z) :=
  match parse_integer s with
  | Some (i, r1) =>
      match parse_fraction i r1 with
      | Some (m, e, r2) =>
          match parse_exponent r2 with
          | Some (x, r3) =>
              let v := of_decimal m (e + x) in
              Some (if negative then opp v else v, r3)
          | None => None
          end
      | None => None
      end
  | None => None
  end.

End Double.

Coercion Double.of_Z : Z >-> double.

(** ** JSON values and [JSON.stringify]

    An object is the list of its own properties as the engine
    enumerates them: [JSON.stringify] visits them in the order of the
    list, and [JSON.parse] creates them in the order of the text, which
    leaves the array indices first. *)

#[local] Unset Elimination Schemes.
Inductive json : Type :=
| JNull
| JBool (b : bool)
| JNum (x : double)
| JStr (s : jsstring)
| JArr (l : list json)
| JObj (m : list (jsstring * json)).
#[local] Set Elimination Schemes.

Module Json.
Import Double.

(** A number that is not finite is written [null]. *)
Definition number_to_string (x : double) : jsstring :=
  match x with
  | Finite _ _ _ => toString x
  | _ => [110; 117; 108; 108]
  end.

Definition hexd (d : Z) : Z := if d <? 10 then 48 + d else 87 + d.

(** [UnicodeEscape]: a backslash, [u] and four lower-case hex digits. *)
Definition unicode_escape (u : Z) : list Z :=
  [92; 117; hexd (u / 4096); hexd ((u / 256) mod 16);
   hexd ((u / 16) mod 16); hexd (u mod 16)].

Definition json_escape (u : Z) : list Z :=
  if u =? 8 then [92; 98]
  else if u =? 9 then [92; 116]
  else if u =? 10 then [92; 110]
  else if u =? 12 then [92; 102]
  else if u =? 13 then [92; 114]
  else if u =? 34 then [92; 34]
  else if u =? 92 then [92; 92]
  else if u <? 32 then unicode_escape u
  else [u].

(** The body of [QuoteJSONString]: a surrogate pair is copied, a lone
    surrogate is written as a unicode escape. *)
Fixpoint quote_units (s : jsstring) : list Z :=
  match s with
  | [] => []
  | u :: r =>
      if is_high u then
        match r with
        | l :: r' =>
            if is_low l then u :: l :: quote_units r'
            else unicode_escape u ++ quote_units r
        | [] => unicode_escape u
        end
      else if is_low u then unicode_escape u ++ quote_units r
      else json_escape u ++ quote_units r
  end.

Definition quote (s : jsstring) : list Z := 34 :: quote_units s ++ [34].

Fixpoint stringify (v : json) : list Z :=
  match v with
  | JNull => [110; 117; 108; 108]
  | JBool true => [116; 114; 117; 101]
  | JBool false => [102; 97; 108; 115; 101]
  | JNum x => number_to_string x
  | JStr s => quote s
  | JArr l =>
      91 :: (fix elems (l : list json) : list Z :=
               match l with
               | [] => [93]
               | x :: t =>
                   stringify x ++
                   match t with [] => [93] | _ :: _ => 44 :: elems t end
               end) l
  | JObj m =>
      123 :: (fix members (m : list (jsstring * json)) : list Z :=
                match m with
                | [] => [125]
                | (k, x) :: t =>
                    quote k ++ 58 :: stringify x ++
                    match t with [] => [125] | _ :: _ => 44 :: members t end
                end) m
  end.

(** ** [JSON.parse] *)

Definition is_ws (c : Z) : bool :=
  (c =? 32) || (c =? 9) || (c =? 10) || (c =? 13).

Fixpoint skip_ws (s : list Z) : list Z :=
  match s with
  | c :: r => if is_ws c then skip_ws r else s
  | [] => []
  end.

(** The numeral of an integer as [Number::toString] writes it: a single
    [0], or a non-zero digit followed by digits, and nothing of a
    fraction or an exponent after it. *)
Definition parse_int (s : list Z) : option (Z * list Z) :=
  match s with
  | c :: r =>
      if c =? 48 then
        match r with
        | d :: _ =>
            if is_digit d || (d =? 46) || (d =? 101) || (d =? 69)
            then None else Some (0, r)
        | [] => Some (0, r)
        end
      else if is_digit c then
        let (n, r') := read_digits 0 s in
        match r' with
        | d :: _ => if (d =? 46) || (d =? 101) || (d =? 69)
                    then None else Some (n, r')
        | [] => Some (n, r')
        end
      else None
  | [] => None
  end.

Definition hexval (c : Z) : option Z :=
  if (48 <=? c) && (c <=? 57) then Some (c - 48)
  else if (97 <=? c) && (c <=? 102) then Some (c - 87)
  else if (65 <=? c) && (c <=? 70) then Some (c - 55)
  else None.

Definition hex4 (a b c d : Z) : option Z :=
  match hexval a, hexval b, hexval c, hexval d with
  | Some x, Some y, Some z, Some w => Some (x * 4096 + y * 256 + z * 16 + w)
  | _, _, _, _ => None
  end.

Definition unescape (e : Z) : option Z :=
  if e =? 34 then Some 34
  else if e =? 92 then Some 92
  else if e =? 47 then Some 47
  else if e =? 98 then Some 8
  else if e =? 102 then Some 12
  else if e =? 110 then Some 10
  else if e =? 114 then Some 13
  else if e =? 116 then Some 9
  else None.

(** The characters of a string literal after its opening quote. *)
Fixpoint parse_chars (s : list Z) : option (jsstring * list Z) :=
  match s with
  | [] => None
  | c :: r =>
      if c =? 34 then Some ([], r)
      else if c =? 92 then
        match r with
        | e :: r1 =>
            if e =? 117 then
              match r1 with
              | h1 :: h2 :: h3 :: h4 :: r2 =>
                  match hex4 h1 h2 h3 h4, parse_chars r2 with
                  | Some u, Some (t, rest) => Some (u :: t, rest)
                  | _, _ => None
                  end
              | _ => None
              end
            else
              match unescape e, parse_chars r1 with
              | Some u, Some (t, rest) => Some (u :: t, rest)
              | _, _ => None
              end
        | [] => None
        end
      else if c <? 32 then None
      else
        match parse_chars r with
        | Some (t, rest) => Some (c :: t, rest)
        | None => None
        end
  end.

Fixpoint strip_prefix (p s : list Z) : option (list Z) :=
  match p, s with
  | [], _ => Some s
  | a :: p', b :: s' => if a =? b then strip_prefix p' s' else None
  | _ :: _, [] => None
  end.

(** [CreateDataProperty]: a repeated key keeps its place and takes the
    new value. *)
Fixpoint obj_set (k : jsstring) (v : json) (m : list (jsstring * json))
  : list (jsstring * json) :=
  match m with
  | [] => [(k, v)]
  | (k', v') :: t =>
      if jsstring_eqb k' k then (k', v) :: t else (k', v') :: obj_set k v t
  end.

(** The key is an array index: the numeral, without leading zero, of an
    integer below [2^32 - 1]. *)
Definition array_index (k : jsstring) : option Z :=
  match parse_int k with
  | Some (i, []) => if i <? 4294967295 then Some i else None
  | _ => None
  end.

Definition named (kv : jsstring * json) : bool :=
  match array_index (fst kv) with
  | Some _ => false
  | None => true
  end.

Fixpoint insert_index (i : Z) (kv : jsstring * json)
  (m : list (Z * (jsstring * json))) : list (Z * (jsstring * json)) :=
  match m with
  | [] => [(i, kv)]
  | (j, kv') :: t =>
      if i <? j then (i, kv) :: m else (j, kv') :: insert_index i kv t
  end.

(** [OrdinaryOwnPropertyKeys]: the properties whose key is an array
    index come first, in ascending order of the index, then the others
    in the order of their creation. *)
Definition own_properties (m : list (jsstring * json))
  : list (jsstring * json) :=
  map snd (fold_left (fun acc kv =>
                        match array_index (fst kv) with
                        | Some i => insert_index i kv acc
                        | None => acc
                        end) m [])
  ++ filter named m.

(** The object for the members of the text: created in the order of
    the text, enumerated as the engine does. *)
Definition obj_of_pairs (l : list (jsstring * json)) : list (jsstring * json) :=
  own_properties (fold_left (fun m kv => obj_set (fst kv) (snd kv) m) l []).

Fixpoint parse_value (fuel : nat) (s : list Z) {struct fuel}
  : option (json * list Z) :=
  match fuel with
  | O => None
  | S f =>
      match skip_ws s with
      | [] => None
      | c :: r =>
          if c =? 91 then
            match skip_ws r with
            | d :: r' =>
                if d =? 93 then Some (JArr [], r')
                else match parse_elements f (d :: r') with
                     | Some (l, rest) => Some (JArr l, rest)
                     | None => None
                     end
            | [] => None
            end
          else if c =? 123 then
            match skip_ws r with
            | d :: r' =>
                if d =? 125 then Some (JObj [], r')
                else match parse_members f (d :: r') with
                     | Some (l, rest) => Some (JObj (obj_of_pairs l), rest)
                     | None => None
                     end
            | [] => None
            end
          else if c =? 34 then
            match parse_chars r with
            | Some (t, rest) => Some (JStr t, rest)
            | None => None
            end
          else if c =? 45 then
            match Double.parse true r with
            | Some (x, rest) => Some (JNum x, rest)
            | None => None
            end
          else if is_digit c then
            match Double.parse false (c :: r) with
            | Some (x, rest) => Some (JNum x, rest)
            | None => None
            end
          else if c =? 110 then
            match strip_prefix [117; 108; 108] r with
            | Some rest => Some (JNull, rest)
            | None => None
            end
          else if c =? 116 then
            match strip_prefix [114; 117; 101] r with
            | Some rest => Some (JBool true, rest)
            | None => None
            end
          else if c =? 102 then
            match strip_prefix [97; 108; 115; 101] r with
            | Some rest => Some (JBool false, rest)
            | None => None
            end
          else None
      end
  end

with parse_elements (fuel : nat) (s : list Z) {struct fuel}
  : option (list json * list Z) :=
  match fuel with
  | O => None
  | S f =>
      match parse_value f s with
      | Some (v, r) =>
          match skip_ws r with
          | c :: r' =>
              if c =? 44 then
                match parse_elements f r' with
                | Some (l, rest) => Some (v :: l, rest)
                | None => None
                end
              else if c =? 93 then Some ([v], r')
              else None
          | [] => None
          end
      | None => None
      end
  end

with parse_members (fuel : nat) (s : list Z) {struct fuel}
  : option (list (jsstring * json) * list Z) :=
  match fuel with
  | O => None
  | S f =>
      match skip_ws s with
      | q :: r0 =>
          if q =? 34 then
            match parse_chars r0 with
            | Some (k, r1) =>
                match skip_ws r1 with
                | c :: r2 =>
                    if c =? 58 then
                      match parse_value f r2 with
                      | Some (v, r3) =>
                          match skip_ws r3 with
                          | d :: r4 =>
                              if d =? 44 then
                                match parse_members f r4 with
                                | Some (l, rest) => Some ((k, v) :: l, rest)
                                | None => None
                                end
                              else if d =? 125 then Some ([(k, v)], r4)
                              else None
                          | [] => None
                          end
                      | None => None
                      end
                    else None
                | [] => None
                end
            | None => None
            end
          else None
      | [] => None
      end
  end.

(** [JSON.parse]: one value surrounded by optional white space; [None] is
    the [SyntaxError]. *)
Definition parse (s : list Z) : option json :=
  match parse_value (S (List.length s)) s with
  | Some (v, rest) =>
      match skip_ws rest with
      | [] => Some v
      | _ :: _ => None
      end
  | None => None
  end.

(** *** JSON-representable values

    Finite numbers but the negative zero, strings of 16-bit code units,
    and objects whose keys are distinct and listed as the engine
    enumerates them: array indices first, in ascending order. *)

Fixpoint distinct (l : list jsstring) : bool :=
  match l with
  | [] => true
  | k :: t => negb (existsb (jsstring_eqb k) t) && distinct t
  end.

Fixpoint enumerated (last : Z) (named : bool) (ks : list jsstring) : bool :=
  match ks with
  | [] => true
  | k :: t =>
      match array_index k with
      | Some i => negb named && (last <? i) && enumerated i false t
      | None => enumerated last true t
      end
  end.

Fixpoint representable (v : json) : bool :=
  match v with
  | JNull | JBool _ => true
  | JNum x => is_json x
  | JStr s => forallb is_unit s
  | JArr l => forallb representable l
  | JObj m =>
      distinct (map fst m) && enumerated (-1) false (map fst m) &&
      forallb (fun kv : jsstring * json => let (k, x) := kv in
                         forallb is_unit k && representable x) m
  end.

End Json.

(** ** Buffers

    [Buffer.from(string)] encodes the code units as UTF-8 and
    [buffer.toString()] decodes UTF-8; bytes are integers below 256. *)

Module Buffer.

Definition replacement : list Z := [239; 191; 189].

Definition enc_cp (c : Z) : list Z :=
  if c <? 128 then [c]
  else if c <? 2048 then [192 + c / 64; 128 + c mod 64]
  else if c <? 65536 then
    [224 + c / 4096; 128 + (c / 64) mod 64; 128 + c mod 64]
  else
    [240 + c / 262144; 128 + (c / 4096) mod 64;
     128 + (c / 64) mod 64; 128 + c mod 64].

(** [Buffer.from(s)]: a surrogate pair is one code point, a lone surrogate
    becomes U+FFFD. *)
Fixpoint from (s : jsstring) : list Z :=
  match s with
  | [] => []
  | u :: r =>
      if is_high u then
        match r with
        | l :: r' =>
            if is_low l
            then enc_cp (65536 + (u - 55296) * 1024 + (l - 56320)) ++ from r'
            else replacement ++ from r
        | [] => replacement
        end
      else if is_low u then replacement ++ from r
      else enc_cp u ++ from r
  end.

Definition is_cont (b : Z) : bool := (128 <=? b) && (b <? 192).

(** The second byte that a lead byte admits, so that the sequence is
    neither overlong nor a surrogate nor above U+10FFFF. *)
Definition second (b0 b1 : Z) : bool :=
  if b0 =? 224 then (160 <=? b1) && (b1 <? 192)
  else if b0 =? 237 then (128 <=? b1) && (b1 <? 160)
  else if b0 =? 240 then (144 <=? b1) && (b1 <? 192)
  else if b0 =? 244 then (128 <=? b1) && (b1 <? 144)
  else is_cont b1.

(** [buffer.toString()]: the longest prefix of an ill-formed sequence
    that starts a well-formed one yields one U+FFFD, and decoding resumes
    at the byte after it. *)
Fixpoint toString (b : list Z) : jsstring :=
  match b with
  | [] => []
  | b0 :: r =>
      if b0 <? 128 then b0 :: toString r
      else if (194 <=? b0) && (b0 <? 224) then
        match r with
        | b1 :: r1 =>
            if is_cont b1
            then ((b0 - 192) * 64 + (b1 - 128)) :: toString r1
            else 65533 :: toString r
        | [] => [65533]
        end
      else if (224 <=? b0) && (b0 <? 240) then
        match r with
        | b1 :: r1 =>
            if second b0 b1 then
              match r1 with
              | b2 :: r2 =>
                  if is_cont b2
                  then ((b0 - 224) * 4096 + (b1 - 128) * 64 + (b2 - 128))
                       :: toString r2
                  else 65533 :: toString r1
              | [] => [65533]
              end
            else 65533 :: toString r
        | [] => [65533]
        end
      else if (240 <=? b0) && (b0 <? 245) then
        match r with
        | b1 :: r1 =>
            if second b0 b1 then
              match r1 with
              | b2 :: r2 =>
                  if is_cont b2 then
                    match r2 with
                    | b3 :: r3 =>
                        let c := (b0 - 240) * 262144 + (b1 - 128) * 4096
                                 + (b2 - 128) * 64 + (b3 - 128) in
                        if is_cont b3
                        then (55296 + (c - 65536) / 1024)
                             :: (56320 + (c - 65536) mod 1024) :: toString r3
                        else 65533 :: toString r2
                    | [] => [65533]
                    end
                  else 65533 :: toString r1
              | [] => [65533]
              end
            else 65533 :: toString r
        | [] => [65533]
        end
      else 65533 :: toString r
  end.

(** [readFileSync(file, 'binary')]: every byte is one code unit. *)
Definition latin1 (b : list Z) : jsstring := b.

(** No lone surrogate: the strings that UTF-8 carries unchanged. *)
Fixpoint well_formed (s : jsstring) : bool :=
  match s with
  | [] => true
  | u :: r =>
      if is_high u then
        match r with
        | l :: r' => is_low l && well_formed r'
        | [] => false
        end
      else is_unit u && negb (is_low u) && well_formed r
  end.

End Buffer.

(** ** Message values and the wire codec *)

Inductive error : Type := TypeError | SyntaxError | StateError.

Inductive result (A : Type) : Type :=
| Ok (a : A)
| Throw (e : error).
Arguments Ok {A} a.
Arguments Throw {A} e.

(** What a message can be: [undefined], a symbol, a function, a bigint, a
    JSON value ([null], boolean, number, string, array, plain object) or a
    [Buffer]. *)
Inductive value : Type :=
| VUndefined
| VSymbol
| VFunction
| VBigInt (n : Z)
| VJson (j : json)
| VBuffer (b : list Z).

Inductive jstype : Type :=
| TObject | TString | TNumber | TSymbol | TUndefined
| TBoolean | TFunction | TBigint.

Definition typeof (v : value) : jstype :=
  match v with
  | VUndefined => TUndefined
  | VSymbol => TSymbol
  | VFunction => TFunction
  | VBigInt _ => TBigint
  | VJson JNull | VJson (JArr _) | VJson (JObj _) => TObject
  | VJson (JBool _) => TBoolean
  | VJson (JNum _) => TNumber
  | VJson (JStr _) => TString
  | VBuffer _ => TObject
  end.

Module Codec.

(** [Buffer.prototype.toJSON]. *)
Definition buffer_json (b : list Z) : json :=
  JObj [(lit "type", JStr (lit "Buffer"));
        (lit "data", JArr (map (fun n : Z => JNum n) b))].

(** [JSON.stringify] of a message whose [typeof] is object, string or
    number. *)
Definition JSON_stringify (v : value) : result jsstring :=
  match v with
  | VJson j => Ok (Json.stringify j)
  | VBuffer b => Ok (Json.stringify (buffer_json b))
  | _ => Throw TypeError
  end.

Definition JSON_parse (s : jsstring) : result value :=
  match Json.parse s with
  | Some j => Ok (VJson j)
  | None => Throw SyntaxError
  end.

(** [Buffer.from(msg)] for a message whose [typeof] is object.  A Buffer
    is copied and an array gives one byte per element; [null] and plain
    objects are rejected.  Only numbers are coerced to bytes, any other
    element counts as [0]. *)
Definition Buffer_from_object (v : value) : result (list Z) :=
  match v with
  | VBuffer b => Ok b
  | VJson (JArr l) =>
      Ok (map (fun x => match x with
                        | JNum n => Double.truncate n mod 256
                        | _ => 0
                        end) l)
  | _ => Throw TypeError
  end.

Definition stringify_to_buffer (msg : value) : result value :=
  match JSON_stringify msg with
  | Ok s => Ok (VBuffer (Buffer.from s))
  | Throw e => Throw e
  end.

(** [primitives.encode]: the table is keyed by the [typeof] of the
    message.  This is what each entry returns: the symbol and undefined
    entries return what [console.log] returns; what they write is
    [encode_console]. *)
Definition primitives_encode (t : jstype) : option (value -> result value) :=
  match t with
  | TObject => Some stringify_to_buffer
  | TString => Some stringify_to_buffer
  | TNumber => Some stringify_to_buffer
  | TSymbol => Some (fun _ => Ok VUndefined)
  | TUndefined => Some (fun _ => Ok VUndefined)
  | _ => None
  end.

(** [primitives.decode]. *)
Definition primitives_decode (t : jstype) : option (value -> result value) :=
  match t with
  | TObject =>
      Some (fun msg =>
              match Buffer_from_object msg with
              | Ok b => JSON_parse (Buffer.toString b)
              | Throw e => Throw e
              end)
  | TString => Some (fun msg => Ok msg)
  | TNumber => Some (fun msg => Ok msg)
  | TSymbol => Some (fun msg => Ok msg)
  | TUndefined => Some (fun _ => Ok VUndefined)
  | _ => None
  end.

(** What the entry of [primitives.encode] for the kind of the message
    writes on the console before it returns ([console.log ('unsupported',
    msg)] and [console.log ('undefined', msg)], which are not under the
    [debug] flag), and the same for [primitives.decode]
    ([console.error ('undefined', msg)]). *)
Definition encode_console (msg : value) : list string :=
  match typeof msg with
  | TSymbol => ["unsupported"%string]
  | TUndefined => ["undefined"%string]
  | _ => []
  end.

Definition decode_console (msg : value) : list string :=
  match typeof msg with
  | TUndefined => ["undefined"%string]
  | _ => []
  end.

(** [encode (msg)]: calling a missing table entry is a [TypeError]. *)
Definition encode (msg : value) : result value :=
  match primitives_encode (typeof msg) with
  | Some f => f msg
  | None => Throw TypeError
  end.

Definition decode (msg : value) : result value :=
  match primitives_decode (typeof msg) with
  | Some f => f msg
  | None => Throw TypeError
  end.

(** The kinds of message that [encode] serializes. *)
Definition serialized (v : value) : bool :=
  match typeof v with
  | TObject | TString | TNumber => true
  | _ => false
  end.

(** [decode (encode (msg))]. *)
Definition decode_encode (msg : value) : result value :=
  match encode msg with
  | Ok frame => decode frame
  | Throw e => Throw e
  end.

End Codec.

(** ** The client and its runtime

    The state holds the fields of the [ServiceMeshClient] object (with the
    listeners of its [EventEmitter] base) and what the code reaches in
    its runtime: the pending timers, the queue file, the breaker session
    and the trace of the calls made so far.  Console output under the
    [debug] flag is left out.  The socket's own methods are represented
    by the calls they receive. *)

Definition TIMEOUTEVENT : jsstring := Eval cbv in lit "webswitchTimeout".
Definition CONNECTERROR : jsstring := Eval cbv in lit "webswitchConnect".
Definition WSOCKETERROR : jsstring := Eval cbv in lit "webswitchWsocket".
Definition SERVICENAME : jsstring := Eval cbv in lit "webswitch".
Definition MISSINGEVENTNAME : jsstring := Eval cbv in lit "missingEventName".
Definition WILDCARD : jsstring := Eval cbv in lit "*".
Definition EVENTNAME : jsstring := Eval cbv in lit "eventName".
Definition ERROR : jsstring := Eval cbv in lit "error".

(** [readyState] values of a socket. *)
Definition CONNECTING : Z := 0.
Definition OPEN : Z := 1.
Definition CLOSING : Z := 2.
Definition CLOSED : Z := 3.

Record socket : Type := {
  readyState : Z;
  bufferedAmount : Z
}.

Inductive callback : Type :=
| CbHeartbeat          (* () => this.heartbeat() *)
| CbConnect            (* () => this.connect() *)
| CbSendQueuedMsgs.    (* () => this.sendQueuedMsgs() *)

Record timer : Type := {
  timer_id : nat;
  timer_cb : callback;
  timer_delay : Z
}.

(** A listener is a subscriber's callback, which records the call and
    returns, or the error detector that the breaker registers, which
    counts a failure. *)
Inductive listener : Type :=
| Subscriber (id : nat)
| ErrorDetector.

(** The calls that leave the client: console lines, calls on the
    socket, timers, listeners and the file system. *)
Inductive effect : Type :=
| Console (line : string)
| NewWebSocket (url : jsstring)
| WsSend (data : value)
| WsPing
| WsRemoveAllListeners
| WsClose (code : Z) (reason : value)
| WsTerminate
| SetTimeout (id : nat) (cb : callback) (delay : Z)
| ClearTimeout (id : nat)
| Invoke (l : listener) (arg : value)
| Stat
| WriteFile (bytes : list Z).

(** What the module reads from its process and configuration. *)
Record environment : Type := {
  hostname : jsstring;
  pid : Z;
  usage : list (jsstring * json);
  config_heartbeat : option Z;
  threshold : nat
}.

(** [config.heartbeat || 10000]. *)
Definition heartbeatms (e : environment) : Z :=
  match config_heartbeat e with
  | Some h => if h =? 0 then 10000 else h
  | None => 10000
  end.

(** The fields of the object ([ws] to [serviceList]), the listeners of
    its emitter, and the runtime around it: the pending timers and the
    next timer handle, the contents of [public/senderQueue.json] if the
    file exists, the failures counted by the breaker session, the
    environment and the trace. *)
Record client : Type := {
  ws : option socket;
  pong : bool;
  timerId : nat;
  reconnecting : bool;
  sendQueue : list value;
  sendQueueLimit : Z;
  options : option (option json);
  serviceList : json;
  listeners : list (jsstring * listener);
  timers : list timer;
  nextTimer : nat;
  file : option (list Z);
  failures : nat;
  env : environment;
  trace : list effect
}.

Definition set_ws (c : client) (x : option socket) : client :=
  {| ws := x; pong := pong c; timerId := timerId c;
     reconnecting := reconnecting c; sendQueue := sendQueue c;
     sendQueueLimit := sendQueueLimit c; options := options c;
     serviceList := serviceList c; listeners := listeners c;
     timers := timers c; nextTimer := nextTimer c; file := file c;
     failures := failures c; env := env c; trace := trace c |}.

Definition set_pong (c : client) (x : bool) : client :=
  {| ws := ws c; pong := x; timerId := timerId c;
     reconnecting := reconnecting c; sendQueue := sendQueue c;
     sendQueueLimit := sendQueueLimit c; options := options c;
     serviceList := serviceList c; listeners := listeners c;
     timers := timers c; nextTimer := nextTimer c; file := file c;
     failures := failures c; env := env c; trace := trace c |}.

Definition set_timerId (c : client) (x : nat) : client :=
  {| ws := ws c; pong := pong c; timerId := x;
     reconnecting := reconnecting c; sendQueue := sendQueue c;
     sendQueueLimit := sendQueueLimit c; options := options c;
     serviceList := serviceList c; listeners := listeners c;
     timers := timers c; nextTimer := nextTimer c; file := file c;
     failures := failures c; env := env c; trace := trace c |}.

Definition set_reconnecting (c : client) (x : bool) : client :=
  {| ws := ws c; pong := pong c; timerId := timerId c; reconnecting := x;
     sendQueue := sendQueue c; sendQueueLimit := sendQueueLimit c;
     options := options c; serviceList := serviceList c;
     listeners := listeners c; timers := timers c; nextTimer := nextTimer c;
     file := file c; failures := failures c; env := env c; trace := trace c |}.

Definition set_sendQueue (c : client) (x : list value) : client :=
  {| ws := ws c; pong := pong c; timerId := timerId c;
     reconnecting := reconnecting c; sendQueue := x;
     sendQueueLimit := sendQueueLimit c; options := options c;
     serviceList := serviceList c; listeners := listeners c;
     timers := timers c; nextTimer := nextTimer c; file := file c;
     failures := failures c; env := env c; trace := trace c |}.

Definition set_sendQueueLimit (c : client) (x : Z) : client :=
  {| ws := ws c; pong := pong c; timerId := timerId c;
     reconnecting := reconnecting c; sendQueue := sendQueue c;
     sendQueueLimit := x; options := options c;
     serviceList := serviceList c; listeners := listeners c;
     timers := timers c; nextTimer := nextTimer c; file := file c;
     failures := failures c; env := env c; trace := trace c |}.

Definition set_options (c : client) (x : option (option json)) : client :=
  {| ws := ws c; pong := pong c; timerId := timerId c;
     reconnecting := reconnecting c; sendQueue := sendQueue c;
     sendQueueLimit := sendQueueLimit c; options := x;
     serviceList := serviceList c; listeners := listeners c;
     timers := timers c; nextTimer := nextTimer c; file := file c;
     failures := failures c; env := env c; trace := trace c |}.

Definition set_serviceList (c : client) (x : json) : client :=
  {| ws := ws c; pong := pong c; timerId := timerId c;
     reconnecting := reconnecting c; sendQueue := sendQueue c;
     sendQueueLimit := sendQueueLimit c; options := options c;
     serviceList := x; listeners := listeners c; timers := timers c;
     nextTimer := nextTimer c; file := file c; failures := failures c;
     env := env c; trace := trace c |}.

Definition set_listeners (c : client) (x : list (jsstring * listener)) : client :=
  {| ws := ws c; pong := pong c; timerId := timerId c;
     reconnecting := reconnecting c; sendQueue := sendQueue c;
     sendQueueLimit := sendQueueLimit c; options := options c;
     serviceList := serviceList c; listeners := x; timers := timers c;
     nextTimer := nextTimer c; file := file c; failures := failures c;
     env := env c; trace := trace c |}.

Definition set_timers (c : client) (x : list timer) : client :=
  {| ws := ws c; pong := pong c; timerId := timerId c;
     reconnecting := reconnecting c; sendQueue := sendQueue c;
     sendQueueLimit := sendQueueLimit c; options := options c;
     serviceList := serviceList c; listeners := listeners c; timers := x;
     nextTimer := nextTimer c; file := file c; failures := failures c;
     env := env c; trace := trace c |}.

Definition set_nextTimer (c : client) (x : nat) : client :=
  {| ws := ws c; pong := pong c; timerId := timerId c;
     reconnecting := reconnecting c; sendQueue := sendQueue c;
     sendQueueLimit := sendQueueLimit c; options := options c;
     serviceList := serviceList c; listeners := listeners c;
     timers := timers c; nextTimer := x; file := file c;
     failures := failures c; env := env c; trace := trace c |}.

Definition set_file (c : client) (x : option (list Z)) : client :=
  {| ws := ws c; pong := pong c; timerId := timerId c;
     reconnecting := reconnecting c; sendQueue := sendQueue c;
     sendQueueLimit := sendQueueLimit c; options := options c;
     serviceList := serviceList c; listeners := listeners c;
     timers := timers c; nextTimer := nextTimer c; file := x;
     failures := failures c; env := env c; trace := trace c |}.

Definition set_failures (c : client) (x : nat) : client :=
  {| ws := ws c; pong := pong c; timerId := timerId c;
     reconnecting := reconnecting c; sendQueue := sendQueue c;
     sendQueueLimit := sendQueueLimit c; options := options c;
     serviceList := serviceList c; listeners := listeners c;
     timers := timers c; nextTimer := nextTimer c; file := file c;
     failures := x; env := env c; trace := trace c |}.

Definition set_trace (c : client) (x : list effect) : client :=
  {| ws := ws c; pong := pong c; timerId := timerId c;
     reconnecting := reconnecting c; sendQueue := sendQueue c;
     sendQueueLimit := sendQueueLimit c; options := options c;
     serviceList := serviceList c; listeners := listeners c;
     timers := timers c; nextTimer := nextTimer c; file := file c;
     failures := failures c; env := env c; trace := x |}.

(** How a method call ends: it returns, or it throws. *)
Inductive completion (A : Type) : Type :=
| Return (a : A) (c : client)
| Raise (e : error) (c : client).
Arguments Return {A} a c.
Arguments Raise {A} e c.

Definition bind {A B : Type} (m : completion A)
  (k : A -> client -> completion B) : completion B :=
  match m with
  | Return a c => k a c
  | Raise e c => Raise e c
  end.

Notation "' x <- m ;; k" := (bind m (fun x => k))
  (at level 61, x pattern, m at next level, right associativity).

Module Client.

(** [new ServiceMeshClient()]. *)
Definition constructor (e : environment) (stored : option (list Z)) : client :=
  {| ws := None; pong := true; timerId := O; reconnecting := false;
     sendQueue := []; sendQueueLimit := 20; options := None;
     serviceList := JArr []; listeners := [];
     timers := []; nextTimer := 1%nat; file := stored;
     failures := O; env := e; trace := [] |}.

Definition perform (x : effect) (c : client) : client :=
  set_trace c (trace c ++ [x]).

Definition console (line : string) (c : client) : client :=
  perform (Console line) c.

(** Console lines written one after the other. *)
Definition consoles (lines : list string) (c : client) : client :=
  set_trace c (trace c ++ map Console lines).

(** [setTimeout] returns the handle of the new timer. *)
Definition setTimeout (cb : callback) (delay : Z) (c : client) : nat * client :=
  let id := nextTimer c in
  let t := {| timer_id := id; timer_cb := cb; timer_delay := delay |} in
  (id, perform (SetTimeout id cb delay)
         (set_nextTimer (set_timers c (timers c ++ [t])) (S id))).

Definition clearTimeout (id : nat) (c : client) : client :=
  perform (ClearTimeout id)
    (set_timers c (filter (fun t => negb (Nat.eqb (timer_id t) id)) (timers c))).

(** *** The emitter *)

Definition registered (name : jsstring) (c : client) : list listener :=
  map snd (filter (fun p => jsstring_eqb (fst p) name) (listeners c)).

Definition invoke_listener (arg : value) (c : client) (l : listener) : client :=
  let c := perform (Invoke l arg) c in
  match l with
  | Subscriber _ => c
  | ErrorDetector => set_failures c (S (failures c))
  end.

Definition invoke_all (ls : list listener) (arg : value) (c : client) : client :=
  fold_left (invoke_listener arg) ls c.

(** [this.emit(name, arg)]: the listeners of [name] run in registration
    order; an [error] event without listener throws. *)
Definition emit (name : jsstring) (arg : value) (c : client) : completion bool :=
  match registered name c with
  | [] => if jsstring_eqb name ERROR then Raise StateError c else Return false c
  | ls => Return true (invoke_all ls arg c)
  end.

(** [subscribe(eventName, callback)]. *)
Definition subscribe (eventName : jsstring) (cb : listener) (c : client) : client :=
  set_listeners c (listeners c ++ [(eventName, cb)]).

(** *** Telemetry *)

Definition services (c : client) : completion json :=
  match options c with
  | None => Raise TypeError c
  | Some (Some l) => Return l (set_serviceList c l)
  | Some None => Return (serviceList c) c
  end.

(** [this.ws?.readyState || 'undefined']. *)
Definition state_field (c : client) : json :=
  match ws c with
  | Some s => if readyState s =? 0 then JStr (lit "undefined")
              else JNum (readyState s)
  | None => JStr (lit "undefined")
  end.

Definition telemetry (c : client) : completion value :=
  ' l <- services c ;;
  fun c =>
    Return (VJson (JObj [(EVENTNAME, JStr (lit "telemetry"));
                         (lit "proto", JStr SERVICENAME);
                         (lit "hostname", JStr (hostname (env c)));
                         (lit "role", JStr (lit "node"));
                         (lit "pid", JNum (pid (env c)));
                         (lit "telemetry", JObj (usage (env c)));
                         (lit "services", l);
                         (lit "state", state_field c)])) c.

(** *** [close] and [heartbeat] *)

Definition close (code : Z) (reason : value) (c : client) : completion unit :=
  let c := console "closing socket" c in
  match ws c with
  | None => Raise TypeError c
  | Some _ =>
      let c := perform WsRemoveAllListeners c in
      let c := perform (WsClose code reason) c in
      let c := perform WsTerminate c in
      Return tt (set_ws c None)
  end.

Definition heartbeat (c : client) : completion unit :=
  if pong c then
    let c := set_pong c false in
    match ws c with
    | None => Raise TypeError c
    | Some _ =>
        let c := perform WsPing c in
        let (id, c) := setTimeout CbHeartbeat (heartbeatms (env c)) c in
        Return tt (set_timerId c id)
    end
  else if reconnecting c then Return tt c
  else
    let c := set_reconnecting c true in
    let c := console "timeout" c in
    ' _ <- close 4877 (VJson (JStr (lit "timeout"))) c ;;
    fun c =>
      let (_, c) := setTimeout CbConnect 5000 c in
      ' t <- telemetry c ;;
      fun c => ' _ <- emit TIMEOUTEVENT t c ;; fun c => Return tt c.

(** *** The breaker *)

(** Modelled from the spec: [domain/circuit-breaker.js] is not among the
    sources.  The spec describes the breaker as a failure-counting
    wrapper around outbound sends that can suspend sending after
    repeated observed failures; its session counts the failures and the
    breaker is closed while the count is below [threshold]. *)
Definition breaker_closed (c : client) : bool :=
  Nat.ltb (failures c) (threshold (env c)).

(** Modelled from the spec: [detectErrors(eventNames, emitterSource)] of
    the missing [domain/circuit-breaker.js].  The session tracks failures
    observed via event names raised by the connection manager: the error
    detector is registered on the client under each name. *)
Definition detectErrors (names : list jsstring) (c : client) : client :=
  fold_left (fun c name => subscribe name ErrorDetector c) names c.

(** Modelled from the spec: [invoke(send_fn)] of the missing
    [domain/circuit-breaker.js].  A closed breaker runs the protected
    call and counts a failure when it throws; an open breaker suspends
    the send. *)
Definition invoke (protected : value -> client -> completion unit)
  (msg : value) (c : client) : client :=
  if breaker_closed c then
    match protected msg c with
    | Return _ c' => c'
    | Raise _ c' => set_failures c' (S (failures c'))
    end
  else c.

(** *** The send queue *)

(** [this.ws.send(this.encode(msg))], the call the breaker protects:
    [encode] runs, console line included, before [ws.send]. *)
Definition transmit (msg : value) (c : client) : completion unit :=
  match Codec.encode msg with
  | Ok data =>
      Return tt (perform (WsSend data) (consoles (Codec.encode_console msg) c))
  | Throw e => Raise e c
  end.

(** The socket exists, is open and has nothing buffered.  The transport
    takes the bytes of a frame at once: [ws.send] leaves
    [bufferedAmount] as it is. *)
Definition ready (c : client) : bool :=
  match ws c with
  | Some s => (readyState s =? OPEN) && (bufferedAmount s <? 1)
  | None => false
  end.

Definition push (msg : value) (c : client) : client :=
  set_sendQueue c (sendQueue c ++ [msg]).

(** [Array.prototype.pop]: the last entry and the entries before it. *)
Definition pop (q : list value) : option (value * list value) :=
  match rev q with
  | [] => None
  | x :: r => Some (x, rev r)
  end.

(** A call that may not return: [None] is a run that needs more steps
    than the fuel given. *)
Definition sending : Type := value -> client -> option (bool * client).

(** [sendQueuedMsgs ()], over the [send] it calls.  Nothing that
    [send] calls throws: the [catch] block is entered only when the
    engine runs out of stack, in a run that nests calls without end,
    which is a run that no fuel completes. *)
Fixpoint sendQueuedMsgs_loop (send : sending) (fuel : nat) (c : client)
  : option client :=
  match fuel with
  | O => None
  | S f =>
      match pop (sendQueue c) with
      | None => Some c
      | Some (msg, rest) =>
          match send msg (set_sendQueue c rest) with
          | Some (_, c') => sendQueuedMsgs_loop send f c'
          | None => None
          end
      end
  end.

(** The callback of [saveSendQueue]: it is given a queue and resolves to
    the entries left unsent. *)
Definition resend : Type := list value -> client -> option (completion (list value)).

(** [saveSendQueue (sender)] up to its first suspension: below one and a
    half times the limit the sender runs on the queue in memory;
    otherwise [stat] is started and the function awaits its callback. *)
Definition saveSendQueue (sender : resend) (c : client) : option client :=
  if 2 * Z.of_nat (List.length (sendQueue c)) <? 3 * sendQueueLimit c then
    match sender (sendQueue c) c with
    | Some (Return _ c') => Some c'
    | Some (Raise _ c') => Some (console "saveSendQueue error" c')
    | None => None
    end
  else Some (perform Stat c).

(** [manageSendQueue (msg)], over the [send] that its sender reaches. *)
Definition manageSendQueue_with (send : sending) (fuel : nat) (msg : value)
  (c : client) : option client :=
  saveSendQueue
    (fun queue c =>
       match sendQueuedMsgs_loop send fuel c with
       | Some c' => Some (Return queue c')
       | None => None
       end)
    (push msg c).

(** [send (msg)]. *)
Fixpoint send (fuel : nat) (msg : value) (c : client) {struct fuel}
  : option (bool * client) :=
  match fuel with
  | O => None
  | S f =>
      if ready c then
        let c := detectErrors [TIMEOUTEVENT; CONNECTERROR; WSOCKETERROR] c in
        Some (true, invoke transmit msg c)
      else if Z.of_nat (List.length (sendQueue c)) <? sendQueueLimit c then
        Some (false, push msg c)
      else
        match manageSendQueue_with (send f) f msg c with
        | Some c' => Some (false, c')
        | None => None
        end
  end.

Definition sendQueuedMsgs (fuel : nat) (c : client) : option client :=
  sendQueuedMsgs_loop (send fuel) fuel c.

Definition manageSendQueue (fuel : nat) (msg : value) (c : client)
  : option client :=
  manageSendQueue_with (send fuel) fuel msg c.

(** The sender that [manageSendQueue] passes to [saveSendQueue]. *)
Definition resend_queue (fuel : nat) : resend :=
  fun queue c =>
    match sendQueuedMsgs fuel c with
    | Some c' => Some (Return queue c')
    | None => None
    end.

(** *** The spill to disk *)

(** What [JSON.stringify] writes for an entry of an array. *)
Definition entry_json (v : value) : result json :=
  match v with
  | VJson j => Ok j
  | VBuffer b => Ok (Codec.buffer_json b)
  | VUndefined | VSymbol | VFunction => Ok JNull
  | VBigInt _ => Throw TypeError
  end.

Fixpoint entries_json (q : list value) : result (list json) :=
  match q with
  | [] => Ok []
  | v :: t =>
      match entry_json v, entries_json t with
      | Ok j, Ok l => Ok (j :: l)
      | Throw e, _ => Throw e
      | _, Throw e => Throw e
      end
  end.

(** [Buffer.from(JSON.stringify(unsentQueue))]. *)
Definition queue_bytes (q : list value) : result (list Z) :=
  match entries_json q with
  | Ok l => Ok (Buffer.from (Json.stringify (JArr l)))
  | Throw e => Throw e
  end.

(** [JSON.parse(Buffer.from(readFileSync(file, 'binary')).toString())]. *)
Definition read_stored (bytes : list Z) : result value :=
  Codec.JSON_parse (Buffer.toString (Buffer.from (Buffer.latin1 bytes))).

Definition writeFileSync (bytes : list Z) (c : client) : client :=
  perform (WriteFile bytes) (set_file c (Some bytes)).

(** [saveSendQueue (sender)] from the callback of [stat] on.  Without a
    file [stats] is undefined and the callback throws outside the [try]
    block.  Inside it every exception is caught and logged.  A stored
    value that is not an array has no usable [concat]; it is treated as
    the [TypeError] case. *)
Definition saveSendQueue_stat (sender : resend) (c : client)
  : option (completion unit) :=
  match file c with
  | None => Some (Raise TypeError c)
  | Some bytes =>
      if Z.of_nat (List.length bytes) >? 99999999 then
        Some (Return tt (console "queue backing store too large" c))
      else
        match read_stored bytes with
        | Ok (VJson (JArr storedQueue)) =>
            let concatQueue := map VJson storedQueue ++ sendQueue c in
            match sender concatQueue c with
            | Some (Return unsentQueue c') =>
                match queue_bytes unsentQueue with
                | Ok bytes' => Some (Return tt (writeFileSync bytes' c'))
                | Throw _ => Some (Return tt (console "saveSendQueue error" c'))
                end
            | Some (Raise _ c') =>
                Some (Return tt (console "saveSendQueue error" c'))
            | None => None
            end
        | _ => Some (Return tt (console "saveSendQueue error" c))
        end
  end.

(** *** [connect] and the socket handlers *)

(** [connect (options)]; [url] is what [resolveUrl] resolves to.  A
    timer calls [connect] without options. *)
Definition connect (opts : option json) (url : jsstring) (c : client) : client :=
  match ws c with
  | Some _ => console "conn already open" c
  | None =>
      let c := set_options c (Some opts) in
      perform (NewWebSocket url)
        (set_ws c (Some {| readyState := CONNECTING; bufferedAmount := 0 |}))
  end.

(** [publish (msg)]. *)
Definition publish (fuel : nat) (url : jsstring) (msg : value) (c : client)
  : option (bool * client) :=
  send fuel msg (connect None url c).

(** [ws.on('close', ...)], from the console line on: [reason.toString()]
    has returned, which is [close_handler]'s to check. *)
Definition on_close (code : Z) (reason : value) (c : client) : completion unit :=
  let c := console "received close frame" c in
  ' _ <- emit CONNECTERROR reason c ;;
  fun c =>
    if (code =? 1006) || (code =? 4040) then
      if reconnecting c then Return tt c
      else
        let c := set_reconnecting c true in
        let c := clearTimeout (timerId c) c in
        ' _ <- close code reason c ;;
        fun c => let (_, c) := setTimeout CbConnect 8000 c in Return tt c
    else Return tt c.

(** The listener of the close event as [connect] registers it.  The
    arguments of [console.log] are evaluated first: [reason.toString()]
    throws a [TypeError] for a reason that is [undefined] or [null],
    before anything is written, emitted or scheduled.  The socket passes
    a Buffer or a string. *)
Definition close_handler (code : Z) (reason : value) (c : client)
  : completion unit :=
  match reason with
  | VUndefined | VJson JNull => Raise TypeError c
  | _ => on_close code reason c
  end.

(** [ws.on('open', ...)]. *)
Definition on_open (fuel : nat) (c : client) : option (completion unit) :=
  let c := console "connection open" c in
  let c := set_reconnecting c false in
  match telemetry c with
  | Raise e c => Some (Raise e c)
  | Return t c =>
      match send fuel t c with
      | Some (_, c) =>
          Some (' _ <- heartbeat c ;;
                fun c =>
                  let (_, c) := setTimeout CbSendQueuedMsgs 1000 c in
                  Return tt c)
      | None => None
      end
  end.

(** [event.eventName]: reading a property of [null] or [undefined]
    throws; a value without the property gives [undefined]. *)
Definition get_eventName (event : value) : result (option json) :=
  match event with
  | VUndefined | VJson JNull => Throw TypeError
  | VJson (JObj m) =>
      Ok (option_map snd (find (fun p => jsstring_eqb (fst p) EVENTNAME) m))
  | _ => Ok None
  end.

(** [!x]. *)
Definition falsy (x : option json) : bool :=
  match x with
  | None | Some JNull | Some (JBool false) => true
  | Some (JNum x) => negb (Double.to_boolean x)
  | Some (JStr s) => match s with [] => true | _ :: _ => false end
  | Some _ => false
  end.

(** The property key that an event name is converted to. *)
Fixpoint to_key (x : json) : jsstring :=
  match x with
  | JNull => lit "null"
  | JBool true => lit "true"
  | JBool false => lit "false"
  | JNum x => Double.toString x
  | JStr s => s
  | JObj _ => lit "[object Object]"
  | JArr l =>
      (fix join (l : list json) : jsstring :=
         match l with
         | [] => []
         | x :: t =>
             match x with JNull => [] | _ => to_key x end ++
             match t with [] => [] | _ :: _ => 44 :: join t end
         end) l
  end.

(** [ws.on('message', ...)]: whatever is thrown inside is logged. *)
Definition on_message (message : value) (c : client) : client :=
  let c := consoles (Codec.decode_console message) c in
  match Codec.decode message with
  | Throw _ => console "connect error" c
  | Ok event =>
      match get_eventName event with
      | Throw _ => console "connect error" c
      | Ok name =>
          if falsy name then
            match emit MISSINGEVENTNAME event c with
            | Return _ c' => c'
            | Raise _ c' => console "connect error" c'
            end
          else
            match emit (match name with Some x => to_key x | None => [] end)
                       event c with
            | Return _ c' => invoke_all (registered WILDCARD c') event c'
            | Raise _ c' => console "connect error" c'
            end
      end
  end.

(** [ws.on('error', ...)]. *)
Definition on_error (err : value) (c : client) : completion unit :=
  ' _ <- emit WSOCKETERROR err c ;;
  fun c => Return tt (console "connect error" c).

(** [ws.on('pong', ...)]. *)
Definition on_pong (c : client) : client := set_pong c true.

(** *** Events of the runtime *)

Inductive socket_event : Type :=
| OnOpen
| OnClose (code : Z) (reason : value)
| OnMessage (message : value)
| OnError (err : value)
| OnPong.

Definition set_readyState (c : client) (r : Z) : client :=
  match ws c with
  | Some s => set_ws c (Some {| readyState := r; bufferedAmount := bufferedAmount s |})
  | None => c
  end.

(** The socket emits an event.  The handlers are on the socket that
    [this.ws] holds; a socket that has just opened has nothing buffered. *)
Definition deliver (fuel : nat) (ev : socket_event) (c : client)
  : option (completion unit) :=
  match ws c with
  | None => Some (Return tt c)
  | Some _ =>
      match ev with
      | OnOpen =>
          on_open fuel
            (set_ws c (Some {| readyState := OPEN; bufferedAmount := 0 |}))
      | OnClose code reason =>
          Some (close_handler code reason (set_readyState c CLOSED))
      | OnMessage message => Some (Return tt (on_message message c))
      | OnError err => Some (on_error err c)
      | OnPong => Some (Return tt (on_pong c))
      end
  end.

(** A pending timer fires. *)
Definition fire (fuel : nat) (id : nat) (url : jsstring) (c : client)
  : option (completion unit) :=
  match find (fun t => Nat.eqb (timer_id t) id) (timers c) with
  | None => Some (Return tt c)
  | Some t =>
      let c := set_timers c
                 (filter (fun t => negb (Nat.eqb (timer_id t) id)) (timers c)) in
      match timer_cb t with
      | CbHeartbeat => Some (heartbeat c)
      | CbConnect => Some (Return tt (connect None url c))
      | CbSendQueuedMsgs =>
          match sendQueuedMsgs fuel c with
          | Some c' => Some (Return tt c')
          | None => None
          end
      end
  end.

End Client.

(** ** The switch address ([isPrimary] to [constructUrl])

    What the module computes when it is loaded, from the environment
    variables and from the host configuration.  An environment variable
    is a string or is not set; a configuration value is a JSON value or
    is missing.  The configuration objects themselves are taken to
    exist. *)

Module Config.

Record settings : Type := {
  SWITCH : option jsstring;
  SSL_ENABLED : option jsstring;
  PORT : option jsstring;
  SSL_PORT : option jsstring;
  DOMAIN : option jsstring;
  config_isSwitch : option json;
  config_protocol : option json;
  config_port : option json;
  config_host : option json;
  cert_domain : option json;
  general_fqdn : option json
}.

(** The code unit is the letter [lower], in either case. *)
Definition letter (lower u : Z) : bool := (u =? lower) || (u =? lower - 32).

(** [/true/i.test(s)] on a string. *)
Fixpoint matches_true (s : jsstring) : bool :=
  match s with
  | [] => false
  | a :: r =>
      match r with
      | b :: c :: d :: _ =>
          letter 116 a && letter 114 b && letter 117 c && letter 101 d
      | _ => false
      end || matches_true r
  end.

(** [/true/i.test(x)] on an environment variable: one that is not set
    is tested as the string [undefined]. *)
Definition test_true (x : option jsstring) : bool :=
  match x with
  | Some s => matches_true s
  | None => false
  end.

(** [a || b]. *)
Definition or_else (a b : option json) : option json :=
  if Client.falsy a then b else a.

(** Whether [isPrimary] is truthy. *)
Definition isPrimary (s : settings) : bool :=
  test_true (SWITCH s) ||
  match SWITCH s with
  | None => negb (Client.falsy (config_isSwitch s))
  | Some _ => false
  end.

Definition sslEnabled (s : settings) : bool := test_true (SSL_ENABLED s).

Definition clearPort (s : settings) : option json :=
  or_else (option_map JStr (PORT s)) (Some (JNum 80)).

Definition cipherPort (s : settings) : option json :=
  or_else (option_map JStr (SSL_PORT s)) (Some (JNum 443)).

Definition activePort (s : settings) : option json :=
  if sslEnabled s then cipherPort s else clearPort s.

Definition activeProto (s : settings) : option json :=
  Some (JStr (if sslEnabled s then lit "wss" else lit "ws")).

Definition activeHost (s : settings) : option json :=
  or_else (option_map JStr (DOMAIN s)) (or_else (cert_domain s) (general_fqdn s)).

Definition protocol (s : settings) : option json :=
  if isPrimary s then activeProto s else config_protocol s.

Definition port (s : settings) : option json :=
  if isPrimary s then activePort s else config_port s.

Definition host (s : settings) : option json :=
  if isPrimary s then activeHost s else config_host s.

(** The text that a template literal gives for a value. *)
Definition text (x : option json) : jsstring :=
  match x with
  | Some j => Client.to_key j
  | None => lit "undefined"
  end.

(** [constructUrl ()]; [None] is [null]. *)
Definition constructUrl (s : settings) : option jsstring :=
  if negb (Client.falsy (protocol s)) && negb (Client.falsy (host s))
     && negb (Client.falsy (port s))
  then Some (text (protocol s) ++ lit "://" ++ text (host s)
             ++ lit ":" ++ text (port s))
  else None.

End Config.

(** ** Reading the trace *)

Module Trace.

(** What has been added to the trace between two states. *)
Definition since (c c' : client) : list effect :=
  skipn (List.length (trace c)) (trace c').

(** The timers that a stretch of the trace sets. *)
Definition scheduled (tr : list effect) : list (callback * Z) :=
  flat_map (fun x => match x with
                     | SetTimeout _ cb delay => [(cb, delay)]
                     | _ => []
                     end) tr.

(** The frames that a stretch of the trace transmits. *)
Definition sent (tr : list effect) : list value :=
  flat_map (fun x => match x with WsSend data => [data] | _ => [] end) tr.

(** The listeners that a stretch of the trace calls. *)
Definition invoked (tr : list effect) : list listener :=
  flat_map (fun x => match x with Invoke l _ => [l] | _ => [] end) tr.

Definition stats (tr : list effect) : nat :=
  List.length (filter (fun x => match x with Stat => true | _ => false end) tr).

Definition is_ping (x : effect) : bool :=
  match x with WsPing => true | _ => false end.

Definition is_close (code : Z) (x : effect) : bool :=
  match x with WsClose k _ => k =? code | _ => false end.

End Trace.

(** * Properties *)

(** Projections of updated states. *)
Ltac fields :=
  cbn [ws pong timerId reconnecting sendQueue sendQueueLimit options
       serviceList listeners timers nextTimer file failures env trace
       set_ws set_pong set_timerId set_reconnecting set_sendQueue
       set_sendQueueLimit set_options set_serviceList set_listeners set_timers set_nextTimer
       set_file set_failures set_trace
       Client.perform Client.console Client.consoles Client.push
       Client.writeFileSync] in *.

(** ** Round trip of the JSON text *)

Module DoubleFacts.
Import Double.

Lemma eqb_eq (x y : double) : eqb x y = true <-> x = y.
Proof.
  split.
  - destruct x as [s m e|s|], y as [s' m' e'|s'|]; cbn [eqb]; try discriminate.
    + intros H. apply andb_true_iff in H as [H He].
      apply andb_true_iff in H as [Hs Hm].
      apply Bool.eqb_prop in Hs. apply Z.eqb_eq in Hm, He. congruence.
    + intros H. apply Bool.eqb_prop in H. congruence.
    + reflexivity.
  - intros <-. destruct x as [s m e|s|]; cbn [eqb]; try reflexivity.
    + now rewrite Bool.eqb_reflx, !Z.eqb_refl.
    + apply Bool.eqb_reflx.
Qed.

(** *** Rounding *)

Lemma make_twice (m e : Z) : 0 < m -> make (2 * m) (e - 1) = make m e.
Proof.
  destruct m as [|p|p]; try lia. intros _.
  change (2 * Z.pos p) with (Z.pos p~0). unfold make. cbn [odd_part].
  destruct (odd_part p) as [r k].
  replace (e - 1 + (k + 1)) with (e + k) by lia. reflexivity.
Qed.

Lemma make_shift (m e j : Z) :
  0 < m -> 0 <= j -> make (m * 2 ^ j) (e - j) = make m e.
Proof.
  intros Hm Hj. revert e. pattern j. apply natlike_ind; [| |exact Hj].
  - intros e. now rewrite Z.pow_0_r, Z.mul_1_r, Z.sub_0_r.
  - intros x Hx IH e. rewrite Z.pow_succ_r by exact Hx.
    replace (m * (2 * 2 ^ x)) with (2 * (m * 2 ^ x)) by ring.
    replace (e - Z.succ x) with (e - x - 1) by lia.
    rewrite make_twice
      by (apply Z.mul_pos_pos; [exact Hm | apply Z.pow_pos_nonneg; lia]).
    apply IH.
Qed.

Lemma odd_part_odd (p : positive) :
  Z.odd (Z.pos p) = true -> odd_part p = (p, 0).
Proof. destruct p; [reflexivity | discriminate | reflexivity]. Qed.

Lemma make_odd (m e : Z) :
  0 < m -> Z.odd m = true -> Z.log2 m + e < 1024 ->
  make m e = Finite false m e.
Proof.
  destruct m as [|p|p]; try lia. intros _ Ho Hl.
  apply odd_part_odd in Ho. unfold make. rewrite Ho, Z.add_0_r.
  destruct (1024 <=? Z.log2 (Z.pos p) + e) eqn:C; [|reflexivity].
  apply Z.leb_le in C. lia.
Qed.

Lemma make_nonpos (m e : Z) : m <= 0 -> make m e = Finite false 0 0.
Proof. destruct m; try reflexivity. lia. Qed.

Lemma half_even_exact (q b : Z) : 0 < b -> half_even (q * b) b = q.
Proof.
  intros Hb. unfold half_even. rewrite Z.mod_mul, Z.div_mul by lia.
  cbn [Z.mul]. destruct (0 ?= b) eqn:C; try reflexivity.
  - apply Z.compare_eq in C. lia.
  - apply Z.compare_gt_iff in C. lia.
Qed.

Lemma half_even_nonpos (a b : Z) : a <= 0 -> 0 < b -> half_even a b <= 0.
Proof.
  intros Ha Hb. unfold half_even.
  pose proof (Z.div_mod a b ltac:(lia)) as E.
  pose proof (Z.mod_pos_bound a b Hb) as M.
  assert (Q : a / b <= 0) by (apply Z.div_le_upper_bound; lia).
  destruct (Z.eq_dec (a / b) 0) as [Z0|NZ].
  - rewrite Z0 in *. assert (a mod b = 0) by lia.
    replace (a mod b) with 0. cbn [Z.mul].
    destruct (0 ?= b) eqn:C;
      [cbn; lia | lia | apply Z.compare_gt_iff in C; lia].
  - clear E M. generalize dependent (a / b). intros q Q NZ.
    destruct (2 * (a mod b) ?= b); [destruct (Z.even q)| |]; lia.
Qed.

(** Rounding is exact on the value of a double. *)
Lemma nearest_exact (s : bool) (m e p q : Z) :
  is_double (Finite s m e) = true -> m <> 0 -> 0 < q ->
  p * 2 ^ 1074 = m * 2 ^ (e + 1074) * q ->
  nearest p q = Finite false m e.
Proof.
  intros Hd Hm Hq Hp. cbn [is_double] in Hd.
  apply Z.eqb_neq in Hm. rewrite Hm in Hd.
  apply andb_true_iff in Hd as [Hd Hlog]. apply andb_true_iff in Hd as [Hd He].
  apply andb_true_iff in Hd as [Hd Hlt]. apply andb_true_iff in Hd as [Hodd Hpos].
  apply Z.ltb_lt in Hlog, Hlt, Hpos. apply Z.leb_le in He.
  unfold nearest. rewrite Hp, Z.div_mul by lia. clear Hp.
  rewrite Z.log2_mul_pow2 by lia.
  assert (L : Z.log2 m <= 52).
  { assert (Z.log2 m < 53); [|lia]. apply Z.log2_lt_pow2; [lia|]. exact Hlt. }
  set (shift := Z.max 0 (e + 1074 + Z.log2 m - 52)).
  assert (Hs : 0 <= shift <= e + 1074) by (unfold shift; lia).
  replace (m * 2 ^ (e + 1074) * q)
    with (m * 2 ^ (e + 1074 - shift) * (q * 2 ^ shift)).
  2:{ replace (e + 1074) with ((e + 1074 - shift) + shift) at 2 by lia.
      rewrite Z.pow_add_r by lia. ring. }
  rewrite half_even_exact
    by (apply Z.mul_pos_pos; [exact Hq | apply Z.pow_pos_nonneg; lia]).
  replace (shift - 1074) with (e - (e + 1074 - shift)) by lia.
  rewrite make_shift by lia. apply make_odd; [lia | exact Hodd | lia].
Qed.

Lemma nearest_nonpos (p q : Z) :
  p <= 0 -> 0 < q -> nearest p q = Finite false 0 0.
Proof.
  intros Hp Hq. unfold nearest. apply make_nonpos.
  apply half_even_nonpos.
  - assert (0 < 2 ^ 1074) by (apply Z.pow_pos_nonneg; lia). nia.
  - apply Z.mul_pos_pos; [exact Hq|]. apply Z.pow_pos_nonneg; lia.
Qed.

Lemma of_decimal_nonpos (m e : Z) : m <= 0 -> of_decimal m e = Finite false 0 0.
Proof.
  intros Hm. unfold of_decimal. destruct (0 <=? e) eqn:E.
  - apply Z.leb_le in E. apply nearest_nonpos; [|lia].
    assert (0 < 10 ^ e) by (apply Z.pow_pos_nonneg; lia). nia.
  - apply Z.leb_gt in E. apply nearest_nonpos; [exact Hm|].
    apply Z.pow_pos_nonneg; lia.
Qed.

(** The exact expansion of a double has the double as its value. *)
Lemma of_exact_decimal (s : bool) (m e : Z) :
  is_double (Finite s m e) = true -> m <> 0 ->
  of_decimal (fst (exact_decimal m e)) (snd (exact_decimal m e))
  = Finite false m e.
Proof.
  intros Hd Hm. unfold exact_decimal, of_decimal.
  destruct (0 <=? e) eqn:E; cbn [fst snd].
  - apply Z.leb_le in E. cbn [Z.leb Z.compare]. cbv iota.
    apply (nearest_exact s); [exact Hd | exact Hm | lia |].
    rewrite Z.pow_0_r, Z.pow_add_r by lia. ring.
  - rewrite E. apply Z.leb_gt in E.
    apply (nearest_exact s); [exact Hd | exact Hm | apply Z.pow_pos_nonneg; lia |].
    replace 1074 with (- e + (e + 1074)) at 1 by lia.
    rewrite Z.pow_add_r.
    + replace 10 with (2 * 5) by reflexivity. rewrite Z.pow_mul_l. ring.
    + lia.
    + cbn [is_double] in Hd. apply Z.eqb_neq in Hm. rewrite Hm in Hd.
      apply andb_true_iff in Hd as [Hd _]. apply andb_true_iff in Hd as [_ He].
      apply Z.leb_le in He. lia.
Qed.

(** *** The digits of [Number::toString] *)

Lemma candidate_reads (x : double) (d dl n k s n' : Z) :
  candidate x d dl n k = Some (s, n') -> reads_as x s n' = true.
Proof.
  unfold candidate.
  set (lo := d / 10 ^ (dl - k)).
  set (up := if lo + 1 =? 10 ^ k then (10 ^ (k - 1), n + 1) else (lo + 1, n)).
  clearbody lo up. destruct up as [su nu]. cbn [fst snd].
  destruct (reads_as x lo n) eqn:L, (reads_as x su nu) eqn:U;
    try discriminate;
    [destruct (2 * (d mod 10 ^ (dl - k)) ?= 10 ^ (dl - k));
       [destruct (Z.even lo)| |] | |];
    intros H; inversion H; subst; assumption.
Qed.

Lemma shortest_from_reads (fuel : nat) (x : double) (d dl n : Z) :
  reads_as x d n = true ->
  forall k, reads_as x (fst (shortest_from fuel x d dl n k))
                       (snd (shortest_from fuel x d dl n k)) = true.
Proof.
  intros Hd. induction fuel as [|f IH]; intros k; cbn [shortest_from].
  - exact Hd.
  - destruct (dl <=? k); [exact Hd|].
    destruct (candidate x d dl n k) as [[s n']|] eqn:C.
    + exact (candidate_reads _ _ _ _ _ _ _ C).
    + apply IH.
Qed.

(** The digits chosen for a double have the double as their value. *)
Lemma shortest_reads (s : bool) (m e : Z) :
  is_double (Finite s m e) = true -> m <> 0 ->
  of_decimal (fst (shortest m e))
             (snd (shortest m e) - num_digits (fst (shortest m e)))
  = Finite false m e
  /\ 0 < fst (shortest m e).
Proof.
  intros Hd Hm. unfold shortest.
  pose proof (of_exact_decimal s m e Hd Hm) as X.
  destruct (exact_decimal m e) as [d p]. cbn [fst snd] in X.
  assert (R : reads_as (Finite false m e) d (num_digits d + p) = true).
  { unfold reads_as. apply eqb_eq.
    replace (num_digits d + p - num_digits d) with p by lia. exact X. }
  pose proof (shortest_from_reads (Z.to_nat (num_digits d)) _ d (num_digits d)
                (num_digits d + p) R 1) as S.
  destruct (shortest_from _ _ _ _ _ _) as [sd n]. cbn [fst snd] in *.
  unfold reads_as in S. apply eqb_eq in S. split; [exact S|].
  destruct (Z_lt_le_dec 0 sd) as [P|P]; [exact P|].
  rewrite of_decimal_nonpos in S by exact P. congruence.
Qed.

(** *** Reading digits *)

Definition value_of (a : Z) (ds : list Z) : Z :=
  fold_left (fun a c => a * 10 + (c - 48)) ds a.

Definition all_digits (ds : list Z) : Prop :=
  Forall (fun c => is_digit c = true) ds.

(** What follows is not a digit. *)
Definition stop (rest : list Z) : bool :=
  match rest with
  | [] => true
  | d :: _ => negb (is_digit d)
  end.

(** What may follow a number for it to be read back whole. *)
Definition number_end (rest : list Z) : bool :=
  match rest with
  | [] => true
  | d :: _ => negb (is_digit d || (d =? 46) || (d =? 101) || (d =? 69))
  end.

Lemma number_end_stop (rest : list Z) :
  number_end rest = true -> stop rest = true.
Proof.
  destruct rest as [|d r]; [reflexivity|]. cbn [number_end stop].
  destruct (is_digit d); [discriminate | reflexivity].
Qed.

Lemma stop_point (c : Z) (r : list Z) :
  c = 46 \/ c = 101 -> stop (c :: r) = true.
Proof. intros [-> | ->]; reflexivity. Qed.

Lemma read_digits_app (ds : list Z) : forall a rest,
  all_digits ds -> stop rest = true ->
  read_digits a (ds ++ rest) = (value_of a ds, rest).
Proof.
  induction ds as [|c ds IH]; intros a rest Hd Hr.
  - cbn [app value_of fold_left]. destruct rest as [|d r]; [reflexivity|].
    cbn [stop] in Hr. apply negb_true_iff in Hr. cbn [read_digits].
    now rewrite Hr.
  - inversion Hd as [|? ? Hc Hds]; subst. cbn [app read_digits].
    rewrite Hc. now apply IH.
Qed.

Lemma read_fraction_app (ds : list Z) : forall a e rest,
  all_digits ds -> stop rest = true ->
  read_fraction a e (ds ++ rest)
  = (value_of a ds, e - Z.of_nat (List.length ds), rest).
Proof.
  induction ds as [|c ds IH]; intros a e rest Hd Hr.
  - cbn [app value_of fold_left List.length Z.of_nat]. rewrite Z.sub_0_r.
    destruct rest as [|d r]; [reflexivity|].
    cbn [stop] in Hr. apply negb_true_iff in Hr. cbn [read_fraction].
    now rewrite Hr.
  - inversion Hd as [|? ? Hc Hds]; subst. cbn [app read_fraction].
    rewrite Hc, IH by assumption. cbn [value_of fold_left List.length].
    rewrite Nat2Z.inj_succ. do 2 f_equal. lia.
Qed.

Lemma value_of_app (a : Z) (x y : list Z) :
  value_of a (x ++ y) = value_of (value_of a x) y.
Proof. apply fold_left_app. Qed.

Lemma digits_aux_app (f : nat) : forall n acc rest,
  digits_aux f n acc ++ rest = digits_aux f n (acc ++ rest).
Proof.
  induction f as [|f IH]; intros n acc rest; simpl; [reflexivity|].
  destruct (n <? 10); [reflexivity|]. now rewrite IH.
Qed.

Lemma is_digit_mod10 (n : Z) : is_digit (48 + n mod 10) = true.
Proof.
  unfold is_digit. pose proof (Z.mod_pos_bound n 10 ltac:(lia)).
  apply andb_true_iff; split; apply Z.leb_le; lia.
Qed.

Lemma read_digits_aux (f : nat) : forall n acc,
  0 <= n < 2 ^ Z.of_nat f ->
  read_digits 0 (digits_aux f n acc) = read_digits n acc.
Proof.
  induction f as [|f IH]; intros n acc Hn.
  - simpl in *. replace n with 0 by lia. reflexivity.
  - cbn [digits_aux]. destruct (n <? 10) eqn:E.
    + apply Z.ltb_lt in E. cbn [read_digits]. rewrite is_digit_mod10.
      rewrite Z.mod_small by lia. f_equal. lia.
    + apply Z.ltb_ge in E. rewrite IH.
      * cbn [read_digits]. rewrite is_digit_mod10. f_equal.
        pose proof (Z.div_mod n 10 ltac:(lia)). lia.
      * rewrite Nat2Z.inj_succ, Z.pow_succ_r in Hn by lia.
        split; [apply Z.div_pos; lia|].
        apply Z.div_lt_upper_bound; lia.
Qed.

Lemma digits_fuel (n : Z) :
  0 <= n -> 0 <= n < 2 ^ Z.of_nat (S (Z.to_nat (Z.log2 n))).
Proof.
  intros Hn. split; [assumption|].
  rewrite Nat2Z.inj_succ, Z2Nat.id by apply Z.log2_nonneg.
  destruct (Z.eq_dec n 0) as [->|Hz]; [reflexivity|].
  apply Z.log2_spec. lia.
Qed.

Lemma digits_aux_head (f : nat) : forall n acc,
  0 < n < 2 ^ Z.of_nat f ->
  exists c r, digits_aux f n acc = c :: r /\ 49 <= c <= 57.
Proof.
  induction f as [|f IH]; intros n acc Hn.
  - simpl in Hn. lia.
  - cbn [digits_aux]. destruct (n <? 10) eqn:E.
    + apply Z.ltb_lt in E. eexists _, _. split; [reflexivity|].
      rewrite Z.mod_small by lia. lia.
    + apply Z.ltb_ge in E. apply IH.
      rewrite Nat2Z.inj_succ, Z.pow_succ_r in Hn by lia.
      split; [apply Z.div_str_pos; lia|].
      apply Z.div_lt_upper_bound; lia.
Qed.

Lemma digits_nonzero_head (n : Z) :
  0 < n -> exists c r, digits n = c :: r /\ 49 <= c <= 57.
Proof.
  intros Hn. apply digits_aux_head.
  pose proof (digits_fuel n ltac:(lia)). lia.
Qed.

Definition digit_head (s : list Z) : Prop :=
  exists c r, s = c :: r /\ 48 <= c <= 57.

Lemma digits_aux_digit_head (f : nat) : forall n acc,
  digit_head acc -> digit_head (digits_aux f n acc).
Proof.
  induction f as [|f IH]; intros n acc H; cbn [digits_aux]; [assumption|].
  assert (D : digit_head ((48 + n mod 10) :: acc)).
  { eexists _, _. split; [reflexivity|].
    pose proof (Z.mod_pos_bound n 10 ltac:(lia)). lia. }
  destruct (n <? 10); [assumption|]. now apply IH.
Qed.

Lemma digits_head (n : Z) : digit_head (digits n).
Proof.
  unfold digits. cbn [digits_aux].
  assert (D : digit_head [48 + n mod 10]).
  { eexists _, _. split; [reflexivity|].
    pose proof (Z.mod_pos_bound n 10 ltac:(lia)). lia. }
  destruct (n <? 10); [assumption|]. now apply digits_aux_digit_head.
Qed.

Lemma is_digit_range (c : Z) : 48 <= c <= 57 -> is_digit c = true.
Proof. intros H. unfold is_digit. apply andb_true_iff; split; apply Z.leb_le; lia. Qed.

Lemma all_digits_aux (f : nat) : forall n acc,
  all_digits acc -> all_digits (digits_aux f n acc).
Proof.
  induction f as [|f IH]; intros n acc H; cbn [digits_aux]; [assumption|].
  assert (D : all_digits ((48 + n mod 10) :: acc))
    by (constructor; [apply is_digit_mod10 | assumption]).
  destruct (n <? 10); [assumption|]. now apply IH.
Qed.

Lemma all_digits_digits (n : Z) : all_digits (digits n).
Proof. apply all_digits_aux. constructor. Qed.

Lemma value_of_digits (n : Z) : 0 <= n -> value_of 0 (digits n) = n.
Proof.
  intros Hn.
  pose proof (read_digits_aux _ n [] (digits_fuel n Hn)) as R.
  fold (digits n) in R. cbn [read_digits] in R.
  pose proof (read_digits_app (digits n) 0 [] (all_digits_digits n) eq_refl) as A.
  rewrite app_nil_r in A. congruence.
Qed.

Lemma all_digits_zeros (j : Z) : all_digits (zeros j).
Proof.
  apply Forall_forall. intros x Hx. apply repeat_spec in Hx. now subst.
Qed.

Lemma value_of_repeat (n : nat) : forall a,
  value_of a (repeat 48 n) = a * 10 ^ Z.of_nat n.
Proof.
  induction n as [|n IH]; intros a.
  - cbn. lia.
  - cbn [repeat value_of fold_left]. fold (value_of (a * 10 + (48 - 48)) (repeat 48 n)).
    rewrite IH, Nat2Z.inj_succ, Z.pow_succ_r by lia. ring.
Qed.

Lemma value_of_zeros (a j : Z) : 0 <= j -> value_of a (zeros j) = a * 10 ^ j.
Proof. intros Hj. unfold zeros. now rewrite value_of_repeat, Z2Nat.id. Qed.

Lemma length_zeros (j : Z) : 0 <= j -> Z.of_nat (List.length (zeros j)) = j.
Proof. intros Hj. unfold zeros. now rewrite repeat_length, Z2Nat.id. Qed.

(** *** Reading back the text of a number *)

Lemma parse_fraction_end (i : Z) (rest : list Z) :
  number_end rest = true -> parse_fraction i rest = Some (i, 0, rest).
Proof.
  destruct rest as [|d r]; [reflexivity|]. cbn [number_end parse_fraction].
  intros H. apply negb_true_iff in H.
  apply orb_false_iff in H as [H _]. apply orb_false_iff in H as [H _].
  apply orb_false_iff in H as [_ H]. now rewrite H.
Qed.

Lemma parse_exponent_end (rest : list Z) :
  number_end rest = true -> parse_exponent rest = Some (0, rest).
Proof.
  destruct rest as [|d r]; [reflexivity|]. cbn [number_end parse_exponent].
  intros H. apply negb_true_iff in H.
  apply orb_false_iff in H as [H H3]. apply orb_false_iff in H as [_ H2].
  now rewrite H2, H3.
Qed.

Lemma parse_exponent_digits (x : Z) (rest : list Z) :
  number_end rest = true ->
  parse_exponent (101 :: (if x <? 0 then 45 else 43) :: digits (Z.abs x) ++ rest)
  = Some (x, rest).
Proof.
  intros Hr. cbn [parse_exponent]. change (101 =? 101) with true. cbn [orb].
  pose proof (read_digits_app (digits (Z.abs x)) 0 rest
                (all_digits_digits _) (number_end_stop _ Hr)) as R.
  rewrite value_of_digits in R by lia.
  destruct (digits_head (Z.abs x)) as (c & r & E & Hc).
  destruct (x <? 0) eqn:S.
  - apply Z.ltb_lt in S. change (45 =? 45) with true. cbv iota.
    rewrite E in *. cbn [app] in *. rewrite is_digit_range by exact Hc.
    rewrite R. do 2 f_equal. lia.
  - apply Z.ltb_ge in S. change (43 =? 45) with false.
    change (43 =? 43) with true. cbv iota.
    rewrite E in *. cbn [app] in *. rewrite is_digit_range by exact Hc.
    rewrite R. do 2 f_equal. lia.
Qed.

Lemma parse_integer_digits (c : Z) (r rest : list Z) :
  49 <= c <= 57 -> all_digits (c :: r) -> stop rest = true ->
  parse_integer ((c :: r) ++ rest) = Some (value_of 0 (c :: r), rest).
Proof.
  intros Hc Hd Hr. cbn [app parse_integer].
  replace (c =? 48) with false by (symmetry; apply Z.eqb_neq; lia).
  rewrite is_digit_range by lia.
  change (c :: r ++ rest) with ((c :: r) ++ rest).
  now rewrite read_digits_app.
Qed.

Lemma parse_parts (negative : bool) (s r1 r2 r3 : list Z) (i m e x M E : Z) :
  parse_integer s = Some (i, r1) ->
  parse_fraction i r1 = Some (m, e, r2) ->
  parse_exponent r2 = Some (x, r3) ->
  M = m -> E = e + x ->
  parse negative s
  = Some (if negative then opp (of_decimal M E) else of_decimal M E, r3).
Proof. intros H1 H2 H3 -> ->. unfold parse. now rewrite H1, H2, H3. Qed.

Lemma of_decimal_scale (m j : Z) :
  0 <= j -> of_decimal (m * 10 ^ j) 0 = of_decimal m j.
Proof.
  intros Hj. unfold of_decimal. cbn [Z.leb Z.compare].
  replace (0 <=? j) with true by (symmetry; apply Z.leb_le; lia).
  now rewrite Z.pow_0_r, Z.mul_1_r.
Qed.

(** The text for the digits [s] and the exponent [n] is read back as the
    decimal [s * 10^(n - k)], [k] being the number of digits of [s]. *)
Lemma parse_digits_to_string (negative : bool) (s n : Z) (rest : list Z) :
  0 < s -> number_end rest = true ->
  parse negative (digits_to_string s n ++ rest)
  = Some (if negative then opp (of_decimal s (n - num_digits s))
          else of_decimal s (n - num_digits s), rest).
Proof.
  intros Hs Hr. unfold digits_to_string, num_digits.
  pose proof (all_digits_digits s) as Hd.
  pose proof (value_of_digits s ltac:(lia)) as Hv.
  destruct (digits_nonzero_head s Hs) as (c & r & E & Hc).
  set (k := Z.of_nat (List.length (digits s))).
  assert (Hk : k = Z.of_nat (S (List.length r)))
    by (unfold k; now rewrite E).
  pose proof (number_end_stop _ Hr) as Hstop.
  destruct ((k <=? n) && (n <=? 21)) eqn:C1.
  { (* the digits followed by zeros *)
    apply andb_true_iff in C1 as [C1 _]. apply Z.leb_le in C1.
    rewrite <- (of_decimal_scale s (n - k)) by lia.
    assert (A : all_digits (c :: r ++ zeros (n - k))).
    { change (c :: r ++ zeros (n - k)) with ((c :: r) ++ zeros (n - k)).
      rewrite <- E. apply Forall_app. split; [exact Hd | apply all_digits_zeros]. }
    apply (parse_parts negative _ rest rest rest
             (value_of 0 (c :: r ++ zeros (n - k)))
             (value_of 0 (c :: r ++ zeros (n - k))) 0 0).
    - rewrite E. cbn [app].
      change (c :: (r ++ zeros (n - k)) ++ rest)
        with ((c :: r ++ zeros (n - k)) ++ rest).
      now apply parse_integer_digits.
    - now apply parse_fraction_end.
    - now apply parse_exponent_end.
    - change (c :: r ++ zeros (n - k)) with ((c :: r) ++ zeros (n - k)).
      rewrite <- E. now rewrite value_of_app, Hv, value_of_zeros by lia.
    - reflexivity. }
  destruct ((0 <? n) && (n <=? 21)) eqn:C2.
  { (* a point inside the digits *)
    apply andb_true_iff in C2 as [C2 C2']. apply Z.ltb_lt in C2.
    apply Z.leb_le in C2'.
    assert (Hn : n < k).
    { apply andb_false_iff in C1 as [C1|C1];
        [apply Z.leb_gt in C1; lia | apply Z.leb_gt in C1; lia]. }
    pose proof (firstn_skipn (Z.to_nat n) (digits s)) as FS.
    assert (Hda : all_digits (firstn (Z.to_nat n) (digits s))
                  /\ all_digits (skipn (Z.to_nat n) (digits s))).
    { apply Forall_app. now rewrite FS. }
    destruct Hda as [Hd1 Hd2].
    assert (L1 : List.length (firstn (Z.to_nat n) (digits s)) = Z.to_nat n).
    { apply firstn_length_le. unfold k in Hn. lia. }
    assert (L2 : Z.of_nat (List.length (skipn (Z.to_nat n) (digits s))) = k - n).
    { rewrite length_skipn. unfold k in *. lia. }
    destruct (firstn (Z.to_nat n) (digits s)) as [|c1 r1] eqn:F1.
    { cbn [List.length] in L1. lia. }
    assert (c1 = c).
    { rewrite E in F1. destruct (Z.to_nat n) eqn:N; [lia|].
      cbn [firstn] in F1. congruence. }
    subst c1.
    destruct (skipn (Z.to_nat n) (digits s)) as [|c2 r2] eqn:F2.
    { cbn [List.length Z.of_nat] in L2. lia. }
    rewrite <- app_assoc.
    apply (parse_parts negative _ (46 :: (c2 :: r2) ++ rest) rest rest
             (value_of 0 (c :: r1)) (value_of 0 (digits s))
             (0 - Z.of_nat (List.length (c2 :: r2))) 0).
    - apply parse_integer_digits; [exact Hc | exact Hd1 | reflexivity].
    - cbn [parse_fraction app]. change (46 =? 46) with true. cbv iota.
      pose proof (Forall_inv Hd2) as Hc2. cbv beta in Hc2. rewrite Hc2.
      change (c2 :: r2 ++ rest) with ((c2 :: r2) ++ rest).
      rewrite read_fraction_app by assumption.
      now rewrite <- value_of_app, FS.
    - now apply parse_exponent_end.
    - now rewrite Hv.
    - lia. }
  destruct ((-6 <? n) && (n <=? 0)) eqn:C3.
  { (* a zero, a point, zeros and the digits *)
    apply andb_true_iff in C3 as [_ C3]. apply Z.leb_le in C3.
    cbn [app].
    apply (parse_parts negative _ (46 :: (zeros (- n) ++ digits s) ++ rest)
             rest rest 0 (value_of 0 (zeros (- n) ++ digits s))
             (0 - Z.of_nat (List.length (zeros (- n) ++ digits s))) 0).
    - reflexivity.
    - assert (A : all_digits (zeros (- n) ++ digits s))
        by (apply Forall_app; split; [apply all_digits_zeros | exact Hd]).
      cbn [parse_fraction]. change (46 =? 46) with true. cbv iota.
      destruct (zeros (- n) ++ digits s) as [|c0 r0] eqn:Z0.
      { apply app_eq_nil in Z0 as [_ Z0]. congruence. }
      pose proof (Forall_inv A) as Hc0. cbv beta in Hc0. cbn [app]. rewrite Hc0.
      change (c0 :: r0 ++ rest) with ((c0 :: r0) ++ rest).
      now rewrite read_fraction_app by assumption.
    - now apply parse_exponent_end.
    - rewrite value_of_app, value_of_zeros by lia. now rewrite Z.mul_0_l, Hv.
    - rewrite length_app, Nat2Z.inj_add, length_zeros by lia. unfold k. lia. }
  (* one digit, the others after a point, and the exponent *)
  rewrite E in *. destruct r as [|c' r'].
  - cbn [app].
    apply (parse_parts negative _
             (101 :: (if n - 1 <? 0 then 45 else 43)
                  :: digits (Z.abs (n - 1)) ++ rest)
             (101 :: (if n - 1 <? 0 then 45 else 43)
                  :: digits (Z.abs (n - 1)) ++ rest)
             rest (value_of 0 [c]) (value_of 0 [c]) 0 (n - 1)).
    + change (c :: 101 :: (if n - 1 <? 0 then 45 else 43)
                :: digits (Z.abs (n - 1)) ++ rest)
        with ([c] ++ 101 :: (if n - 1 <? 0 then 45 else 43)
                :: digits (Z.abs (n - 1)) ++ rest).
      apply parse_integer_digits; [exact Hc | exact Hd | reflexivity].
    + reflexivity.
    + now apply parse_exponent_digits.
    + now rewrite Hv.
    + cbn [List.length] in Hk. lia.
  - cbn [app]. rewrite <- app_assoc. cbn [app].
    pose proof (Forall_inv Hd) as Hc0. pose proof (Forall_inv_tail Hd) as Hd'.
    cbv beta in Hc0.
    apply (parse_parts negative _
             (46 :: (c' :: r') ++ 101 :: (if n - 1 <? 0 then 45 else 43)
                  :: digits (Z.abs (n - 1)) ++ rest)
             (101 :: (if n - 1 <? 0 then 45 else 43)
                  :: digits (Z.abs (n - 1)) ++ rest)
             rest (value_of 0 [c]) (value_of 0 ([c] ++ c' :: r'))
             (0 - Z.of_nat (List.length (c' :: r'))) (n - 1)).
    + change (c :: 46 :: c' :: r' ++ 101 :: (if n - 1 <? 0 then 45 else 43)
                :: digits (Z.abs (n - 1)) ++ rest)
        with ([c] ++ 46 :: (c' :: r') ++ 101 :: (if n - 1 <? 0 then 45 else 43)
                :: digits (Z.abs (n - 1)) ++ rest).
      apply parse_integer_digits; [exact Hc | | reflexivity].
      constructor; [exact Hc0 | constructor].
    + cbn [parse_fraction app]. change (46 =? 46) with true. cbv iota.
      pose proof (Forall_inv Hd') as Hc'. cbv beta in Hc'. rewrite Hc'.
      change (c' :: r' ++ 101 :: (if n - 1 <? 0 then 45 else 43)
                :: digits (Z.abs (n - 1)) ++ rest)
        with ((c' :: r') ++ 101 :: (if n - 1 <? 0 then 45 else 43)
                :: digits (Z.abs (n - 1)) ++ rest).
      rewrite read_fraction_app; [|exact Hd' | reflexivity].
      now rewrite <- value_of_app.
    + now apply parse_exponent_digits.
    + cbn [app]. now rewrite Hv.
    + cbn [List.length] in *. lia.
Qed.

Lemma digits_to_string_head (s n : Z) : digit_head (digits_to_string s n).
Proof.
  unfold digits_to_string.
  destruct (digits_head s) as (c & r & E & Hc). rewrite E.
  set (k := Z.of_nat (List.length (c :: r))).
  destruct ((k <=? n) && (n <=? 21)).
  { exists c, (r ++ zeros (n - k)). split; [reflexivity | lia]. }
  destruct ((0 <? n) && (n <=? 21)) eqn:C2.
  { apply andb_true_iff in C2 as [C2 _]. apply Z.ltb_lt in C2.
    destruct (Z.to_nat n) eqn:N; [lia|]. cbn [firstn app].
    eexists _, _. split; [reflexivity | lia]. }
  destruct ((-6 <? n) && (n <=? 0)).
  { eexists _, _. split; [reflexivity | lia]. }
  destruct r; eexists _, _; (split; [reflexivity | lia]).
Qed.

(** The characters of the text of a number. *)
Definition number_char (c : Z) : Prop := 43 <= c <= 121.

Lemma number_char_digits (ds : list Z) :
  all_digits ds -> Forall number_char ds.
Proof.
  apply Forall_impl. intros c H. unfold is_digit in H.
  apply andb_true_iff in H as [H1 H2]. apply Z.leb_le in H1, H2.
  unfold number_char. lia.
Qed.

Lemma digits_to_string_chars (s n : Z) :
  Forall number_char (digits_to_string s n).
Proof.
  unfold digits_to_string.
  pose proof (number_char_digits _ (all_digits_digits s)) as Hd.
  pose proof (number_char_digits _ (all_digits_digits (Z.abs (n - 1)))) as Hx.
  assert (He : Forall number_char
                 (101 :: (if n - 1 <? 0 then 45 else 43)
                      :: digits (Z.abs (n - 1)))).
  { constructor; [unfold number_char; lia|].
    constructor; [destruct (n - 1 <? 0); unfold number_char; lia | exact Hx]. }
  set (k := Z.of_nat (List.length (digits s))).
  destruct ((k <=? n) && (n <=? 21)).
  { apply Forall_app. split; [exact Hd|].
    apply number_char_digits, all_digits_zeros. }
  destruct ((0 <? n) && (n <=? 21)).
  { rewrite <- (firstn_skipn (Z.to_nat n) (digits s)) in Hd.
    apply Forall_app in Hd as [H1 H2].
    apply Forall_app. split; [exact H1|].
    constructor; [unfold number_char; lia | exact H2]. }
  destruct ((-6 <? n) && (n <=? 0)).
  { constructor; [unfold number_char; lia|].
    constructor; [unfold number_char; lia|].
    apply Forall_app. split; [|exact Hd].
    apply number_char_digits, all_digits_zeros. }
  destruct (digits s) as [|d [|d' r]].
  - constructor.
  - constructor; [exact (Forall_inv Hd) | exact He].
  - constructor; [exact (Forall_inv Hd)|].
    constructor; [unfold number_char; lia|].
    apply Forall_app. split; [exact (Forall_inv_tail Hd) | exact He].
Qed.

Lemma toString_chars (x : double) : Forall number_char (toString x).
Proof.
  destruct x as [s m e|s|]; cbn [toString].
  - destruct (m =? 0); [repeat constructor; unfold number_char; lia|].
    destruct (shortest m e) as [d n]. apply Forall_app. split.
    + destruct s; repeat constructor; unfold number_char; lia.
    + apply digits_to_string_chars.
  - apply Forall_app. split.
    + destruct s; repeat constructor; unfold number_char; lia.
    + repeat constructor; unfold number_char; cbn; lia.
  - repeat constructor; unfold number_char; cbn; lia.
Qed.

Lemma toString_zero (s : bool) (e : Z) : toString (Finite s 0 e) = [48].
Proof. reflexivity. Qed.

Lemma parse_zero (rest : list Z) :
  number_end rest = true -> parse false (48 :: rest) = Some (Finite false 0 0, rest).
Proof.
  intros Hr.
  rewrite (parse_parts false (48 :: rest) rest rest rest 0 0 0 0 0 0);
    try reflexivity.
  - now apply parse_fraction_end.
  - now apply parse_exponent_end.
Qed.

(** The text of a finite double that is not zero is read back as that
    double: the text after the sign, with the sign given. *)
Lemma parse_toString (s : bool) (m e : Z) (rest : list Z) :
  is_double (Finite s m e) = true -> m <> 0 -> number_end rest = true ->
  exists body,
    toString (Finite s m e) = sign s ++ body
    /\ digit_head body
    /\ parse s (body ++ rest) = Some (Finite s m e, rest).
Proof.
  intros Hd Hm Hr. cbn [toString].
  replace (m =? 0) with false by (symmetry; now apply Z.eqb_neq).
  destruct (shortest_reads s m e Hd Hm) as [R P].
  destruct (shortest m e) as [d n]. cbn [fst snd] in *.
  exists (digits_to_string d n). split; [reflexivity|].
  split; [apply digits_to_string_head|].
  rewrite parse_digits_to_string by assumption. rewrite R.
  destruct s; reflexivity.
Qed.

(** *** Integers *)

Lemma odd_part_spec (p : positive) :
  Z.pos p = Z.pos (fst (odd_part p)) * 2 ^ snd (odd_part p)
  /\ Z.odd (Z.pos (fst (odd_part p))) = true
  /\ 0 <= snd (odd_part p).
Proof.
  induction p as [q IH|q IH|]; cbn [odd_part].
  - cbn [fst snd]. rewrite Z.pow_0_r. repeat split; lia.
  - destruct (odd_part q) as [r k]. cbn [fst snd] in *.
    destruct IH as (E & O & K). repeat split; [|exact O|lia].
    rewrite Z.pow_add_r, Z.pow_1_r by lia.
    change (Z.pos q~0) with (2 * Z.pos q). rewrite E. ring.
  - cbn. repeat split; lia.
Qed.

Lemma make_is_double (m : Z) :
  0 <= m < 9007199254740992 ->
  exists r k, make m 0 = Finite false r k
              /\ is_double (Finite false r k) = true
              /\ m = r * 2 ^ k /\ 0 <= k.
Proof.
  intros Hm. destruct m as [|p|p]; try lia.
  - exists 0, 0. repeat split; lia.
  - unfold make. destruct (odd_part_spec p) as (E & O & K).
    destruct (odd_part p) as [r k]. cbn [fst snd] in *.
    assert (P2 : 0 < 2 ^ k) by (apply Z.pow_pos_nonneg; lia).
    assert (L : Z.log2 (Z.pos r) + k < 53).
    { rewrite Z.add_comm, <- Z.log2_mul_pow2, <- E by lia.
      apply Z.log2_lt_pow2; lia. }
    rewrite Z.add_0_l.
    replace (1024 <=? Z.log2 (Z.pos r) + k) with false
      by (symmetry; apply Z.leb_gt; lia).
    exists (Z.pos r), k. repeat split; try lia.
    cbn [is_double]. change (Z.pos r =? 0) with false. cbv iota.
    rewrite O. cbn [andb].
    repeat (apply andb_true_iff; split);
      try (apply Z.ltb_lt); try (apply Z.leb_le); try nia; lia.
Qed.

(** An integer of at most 53 bits is a Number that JSON holds. *)
Lemma is_json_of_Z (n : Z) :
  Z.abs n < 9007199254740992 -> is_json (of_Z n) = true.
Proof.
  intros Hn. unfold of_Z.
  replace (Z.abs n <? 9007199254740992) with true
    by (symmetry; apply Z.ltb_lt; lia).
  destruct (make_is_double (Z.abs n) ltac:(lia)) as (r & k & E & D & V & K).
  rewrite E. destruct (n <? 0) eqn:S.
  - apply Z.ltb_lt in S. cbn [opp negb is_json]. cbn [is_double] in *.
    assert (r <> 0) by (intros ->; lia).
    replace (r =? 0) with false in * by (symmetry; now apply Z.eqb_neq).
    now rewrite D.
  - cbn [is_json]. rewrite D. reflexivity.
Qed.

Lemma truncate_of_Z (n : Z) :
  Z.abs n < 9007199254740992 -> truncate (of_Z n) = n.
Proof.
  intros Hn. unfold of_Z.
  replace (Z.abs n <? 9007199254740992) with true
    by (symmetry; apply Z.ltb_lt; lia).
  destruct (make_is_double (Z.abs n) ltac:(lia)) as (r & k & E & D & V & K).
  rewrite E. destruct (n <? 0) eqn:S.
  - apply Z.ltb_lt in S. cbn [opp negb truncate].
    replace (0 <=? k) with true by (symmetry; apply Z.leb_le; lia). lia.
  - apply Z.ltb_ge in S. cbn [truncate].
    replace (0 <=? k) with true by (symmetry; apply Z.leb_le; lia). lia.
Qed.

End DoubleFacts.

Module JsonFacts.
Import Json Double DoubleFacts.

Ltac zbool :=
  repeat match goal with
  | H : (_ && _)%bool = true |- _ => apply andb_true_iff in H; destruct H
  | H : (_ || _)%bool = false |- _ => apply orb_false_iff in H; destruct H
  | H : (_ =? _) = true |- _ => apply Z.eqb_eq in H
  | H : (_ =? _) = false |- _ => apply Z.eqb_neq in H
  | H : (_ <? _) = true |- _ => apply Z.ltb_lt in H
  | H : (_ <? _) = false |- _ => apply Z.ltb_ge in H
  | H : (_ <=? _) = true |- _ => apply Z.leb_le in H
  | H : (_ <=? _) = false |- _ => apply Z.leb_gt in H
  end.

Ltac zdec :=
  repeat match goal with
  | |- context [?a =? ?b] =>
      first [ replace (a =? b) with true by (symmetry; apply Z.eqb_eq; lia)
            | replace (a =? b) with false by (symmetry; apply Z.eqb_neq; lia) ]
  | |- context [?a <? ?b] =>
      first [ replace (a <? b) with true by (symmetry; apply Z.ltb_lt; lia)
            | replace (a <? b) with false by (symmetry; apply Z.ltb_ge; lia) ]
  | |- context [?a <=? ?b] =>
      first [ replace (a <=? b) with true by (symmetry; apply Z.leb_le; lia)
            | replace (a <=? b) with false by (symmetry; apply Z.leb_gt; lia) ]
  end.

(** *** Strings *)

Lemma hexval_hexd (d : Z) : 0 <= d < 16 -> hexval (hexd d) = Some d.
Proof.
  intros H. unfold hexd, hexval. destruct (d <? 10) eqn:E; zbool.
  - zdec. cbn [andb]. f_equal. lia.
  - zdec. cbn [andb]. f_equal. lia.
Qed.

Lemma hex4_escape (u : Z) :
  is_unit u = true ->
  hex4 (hexd (u / 4096)) (hexd ((u / 256) mod 16))
       (hexd ((u / 16) mod 16)) (hexd (u mod 16)) = Some u.
Proof.
  intros H. unfold is_unit in H. zbool. unfold hex4.
  rewrite !hexval_hexd.
  - f_equal.
    replace (u / 4096) with (u / 16 / 16 / 16)
      by (rewrite !Z.div_div by lia; reflexivity).
    replace (u / 256) with (u / 16 / 16)
      by (rewrite !Z.div_div by lia; reflexivity).
    Z.div_mod_to_equations. lia.
  - apply Z.mod_pos_bound. lia.
  - apply Z.mod_pos_bound. lia.
  - apply Z.mod_pos_bound. lia.
  - split; [apply Z.div_pos; lia | apply Z.div_lt_upper_bound; lia].
Qed.

Definition cons_char (u : Z) (p : option (jsstring * list Z))
  : option (jsstring * list Z) :=
  match p with
  | Some (t, rest) => Some (u :: t, rest)
  | None => None
  end.

Lemma parse_chars_unicode_escape (u : Z) (t : list Z) :
  is_unit u = true ->
  parse_chars (unicode_escape u ++ t) = cons_char u (parse_chars t).
Proof.
  intros H. unfold unicode_escape. cbn [app parse_chars].
  change (92 =? 34) with false. change (92 =? 92) with true.
  change (117 =? 117) with true. cbv iota.
  rewrite (hex4_escape u H). reflexivity.
Qed.

Lemma parse_chars_literal (u : Z) (t : list Z) :
  32 <= u -> u <> 34 -> u <> 92 ->
  parse_chars (u :: t) = cons_char u (parse_chars t).
Proof.
  intros H1 H2 H3. cbn [parse_chars]. zdec. reflexivity.
Qed.

Lemma parse_chars_json_escape (u : Z) (t : list Z) :
  is_unit u = true ->
  parse_chars (json_escape u ++ t) = cons_char u (parse_chars t).
Proof.
  intros H. unfold json_escape.
  destruct (u =? 8) eqn:E1; [zbool; subst; reflexivity|].
  destruct (u =? 9) eqn:E2; [zbool; subst; reflexivity|].
  destruct (u =? 10) eqn:E3; [zbool; subst; reflexivity|].
  destruct (u =? 12) eqn:E4; [zbool; subst; reflexivity|].
  destruct (u =? 13) eqn:E5; [zbool; subst; reflexivity|].
  destruct (u =? 34) eqn:E6; [zbool; subst; reflexivity|].
  destruct (u =? 92) eqn:E7; [zbool; subst; reflexivity|].
  destruct (u <? 32) eqn:E8.
  - now apply parse_chars_unicode_escape.
  - zbool. apply parse_chars_literal; lia.
Qed.

Lemma parse_chars_quote_len (n : nat) : forall s rest,
  (List.length s <= n)%nat ->
  forallb is_unit s = true ->
  parse_chars (quote_units s ++ 34 :: rest) = Some (s, rest).
Proof.
  induction n as [|n IH]; intros s rest Hl Hu.
  - destruct s; [reflexivity | simpl in Hl; lia].
  - destruct s as [|u r]; [reflexivity|].
    simpl in Hl. cbn [forallb] in Hu. apply andb_true_iff in Hu as [Hu Hr].
    cbn [quote_units]. destruct (is_high u) eqn:Hh.
    + destruct r as [|l r'].
      * rewrite parse_chars_unicode_escape by assumption. reflexivity.
      * destruct (is_low l) eqn:Hlow.
        -- cbn [forallb] in Hr. apply andb_true_iff in Hr as [Hl' Hr'].
           unfold is_high in Hh. unfold is_low in Hlow. zbool.
           cbn [app]. rewrite parse_chars_literal by lia.
           rewrite parse_chars_literal by lia.
           rewrite IH by (assumption || (simpl in Hl; lia)). reflexivity.
        -- rewrite <- app_assoc.
           rewrite parse_chars_unicode_escape by assumption.
           rewrite IH by (assumption || lia). reflexivity.
    + destruct (is_low u) eqn:Hlow; rewrite <- app_assoc.
      * rewrite parse_chars_unicode_escape by assumption.
        rewrite IH by (assumption || lia). reflexivity.
      * rewrite parse_chars_json_escape by assumption.
        rewrite IH by (assumption || lia). reflexivity.
Qed.

Lemma parse_chars_quote (s : jsstring) (rest : list Z) :
  forallb is_unit s = true ->
  parse_chars (quote_units s ++ 34 :: rest) = Some (s, rest).
Proof. apply (parse_chars_quote_len (List.length s)). lia. Qed.

(** *** Values *)

Section JsonInd.

Variable P : json -> Prop.
Hypothesis Hnull : P JNull.
Hypothesis Hbool : forall b, P (JBool b).
Hypothesis Hnum : forall n, P (JNum n).
Hypothesis Hstr : forall s, P (JStr s).
Hypothesis Harr : forall l, Forall P l -> P (JArr l).
Hypothesis Hobj : forall m, Forall (fun kv => P (snd kv)) m -> P (JObj m).

Fixpoint json_ind (v : json) : P v :=
    match v with
    | JNull => Hnull
    | JBool b => Hbool b
    | JNum n => Hnum n
    | JStr s => Hstr s
    | JArr l =>
        Harr l ((fix go (l : list json) : Forall P l :=
                   match l with
                   | [] => Forall_nil P
                   | x :: t => Forall_cons x (json_ind x) (go t)
                   end) l)
    | JObj m =>
        Hobj m ((fix go (m : list (jsstring * json))
                   : Forall (fun kv => P (snd kv)) m :=
                   match m with
                   | [] => Forall_nil _
                   | kv :: t =>
                       Forall_cons kv
                         (match kv return P (snd kv) with
                          | (_, x) => json_ind x
                          end) (go t)
                   end) m)
    end.

End JsonInd.

Fixpoint elems (l : list json) : list Z :=
  match l with
  | [] => [93]
  | x :: t => stringify x ++ match t with [] => [93] | _ :: _ => 44 :: elems t end
  end.

Fixpoint members (m : list (jsstring * json)) : list Z :=
  match m with
  | [] => [125]
  | (k, x) :: t =>
      quote k ++ 58 :: stringify x ++
      match t with [] => [125] | _ :: _ => 44 :: members t end
  end.

Lemma stringify_arr (l : list json) : stringify (JArr l) = 91 :: elems l.
Proof. reflexivity. Qed.

Lemma stringify_obj (m : list (jsstring * json)) :
  stringify (JObj m) = 123 :: members m.
Proof. reflexivity. Qed.

(** The fuel [parse_value] needs to read a printed value back. *)
Fixpoint size (v : json) : nat :=
  match v with
  | JArr l => S (fold_right (fun x n => S (size x + n)) O l)
  | JObj m => S (fold_right (fun (kv : jsstring * json) n =>
                         let (_, x) := kv in S (size x + n)) O m)
  | _ => 1%nat
  end.

(** A printed value starts with a character that is neither white space
    nor a closing bracket. *)
Definition opener (c : Z) : Prop :=
  is_ws c = false /\ c <> 93 /\ c <> 125.

Lemma number_opener (x : double) :
  exists c r, stringify (JNum x) = c :: r
              /\ (c = 45 \/ 48 <= c <= 57 \/ c = 110).
Proof.
  cbn [stringify]. destruct x as [s m e|s|]; cbn [number_to_string];
    try (eexists _, _; split; [reflexivity | now right; right]).
  cbn [toString]. destruct (m =? 0).
  { eexists _, _. split; [reflexivity | right; left; lia]. }
  destruct (shortest m e) as [d n].
  destruct s; cbn [sign app].
  - eexists _, _. split; [reflexivity | now left].
  - destruct (digits_to_string_head d n) as (c & r & E & Hc).
    exists c, r. split; [exact E | right; left; exact Hc].
Qed.

Lemma stringify_opener (v : json) :
  exists c r, stringify v = c :: r /\ opener c.
Proof.
  destruct v as [| [|] | n | s | l | m].
  - eexists _, _. split; [reflexivity|]. repeat split; discriminate.
  - eexists _, _. split; [reflexivity|]. repeat split; discriminate.
  - eexists _, _. split; [reflexivity|]. repeat split; discriminate.
  - destruct (number_opener n) as (c & r & E & Hc). exists c, r.
    split; [exact E|]. unfold opener, is_ws.
    destruct Hc as [-> | [Hc | ->]]; [repeat split; discriminate| |repeat split; discriminate].
    zdec. repeat split; lia.
  - eexists _, _. split; [reflexivity|]. repeat split; discriminate.
  - rewrite stringify_arr. eexists _, _. split; [reflexivity|].
    repeat split; discriminate.
  - rewrite stringify_obj. eexists _, _. split; [reflexivity|].
    repeat split; discriminate.
Qed.

Lemma skip_ws_opener (c : Z) (r : list Z) :
  opener c -> skip_ws (c :: r) = c :: r.
Proof. intros [H _]. cbn [skip_ws]. now rewrite H. Qed.

Definition wrap {A : Type} (c : A -> json) (p : option (A * list Z))
  : option (json * list Z) :=
  match p with
  | Some (x, rest) => Some (c x, rest)
  | None => None
  end.

Lemma parse_value_arr (f : nat) (c : Z) (r : list Z) :
  opener c ->
  parse_value (S f) (91 :: c :: r) = wrap JArr (parse_elements f (c :: r)).
Proof.
  intros Hop. cbn [parse_value]. change (skip_ws (91 :: c :: r)) with (91 :: c :: r).
  change (91 =? 91) with true. cbv iota. rewrite (skip_ws_opener c r Hop).
  destruct Hop as (_ & H & _).
  replace (c =? 93) with false by (symmetry; apply Z.eqb_neq; lia).
  reflexivity.
Qed.

Lemma parse_value_obj (f : nat) (r : list Z) :
  parse_value (S f) (123 :: 34 :: r) =
  wrap (fun l => JObj (obj_of_pairs l)) (parse_members f (34 :: r)).
Proof. reflexivity. Qed.

Lemma parse_elements_step (f : nat) (s : list Z) :
  parse_elements (S f) s =
  match parse_value f s with
  | Some (v, r) =>
      match skip_ws r with
      | c :: r' =>
          if c =? 44 then
            match parse_elements f r' with
            | Some (l, rest) => Some (v :: l, rest)
            | None => None
            end
          else if c =? 93 then Some ([v], r')
          else None
      | [] => None
      end
  | None => None
  end.
Proof. reflexivity. Qed.

Lemma parse_members_step (f : nat) (k : jsstring) (r r1 : list Z) :
  parse_chars r = Some (k, 58 :: r1) ->
  parse_members (S f) (34 :: r) =
  match parse_value f r1 with
  | Some (v, r3) =>
      match skip_ws r3 with
      | d :: r4 =>
          if d =? 44 then
            match parse_members f r4 with
            | Some (l, rest) => Some ((k, v) :: l, rest)
            | None => None
            end
          else if d =? 125 then Some ([(k, v)], r4)
          else None
      | [] => None
      end
  | None => None
  end.
Proof. intros H. cbn [parse_members]. cbn [skip_ws is_ws]. simpl. rewrite H. reflexivity. Qed.

Lemma parse_value_digit (f : nat) (c : Z) (r : list Z) :
  48 <= c <= 57 ->
  parse_value (S f) (c :: r) = wrap JNum (Double.parse false (c :: r)).
Proof.
  intros Hc. cbn [parse_value skip_ws]. unfold is_ws. zdec. cbn [orb].
  cbv iota. zdec. cbv iota. rewrite (is_digit_range c Hc). reflexivity.
Qed.

Lemma parse_value_minus (f : nat) (r : list Z) :
  parse_value (S f) (45 :: r) = wrap JNum (Double.parse true r).
Proof. reflexivity. Qed.

(** The text of a number that JSON holds is read back as that number. *)
Lemma parse_value_number (x : double) (f : nat) (rest : list Z) :
  representable (JNum x) = true -> number_end rest = true ->
  parse_value (S f) (stringify (JNum x) ++ rest) = Some (JNum x, rest).
Proof.
  intros Hr Hend. cbn [representable] in Hr. cbn [stringify].
  destruct x as [s m e|s|]; try discriminate. cbn [is_json] in Hr.
  apply andb_true_iff in Hr as [Hd Hz]. cbn [number_to_string].
  destruct (Z.eq_dec m 0) as [->|Hm].
  - destruct s; [discriminate|]. cbn [is_double] in Hd.
    change (0 =? 0) with true in Hd. cbv iota in Hd. apply Z.eqb_eq in Hd.
    subst e. rewrite toString_zero. cbn [app].
    rewrite parse_value_digit by lia. now rewrite parse_zero.
  - destruct (parse_toString s m e rest Hd Hm Hend) as (body & T & H & P).
    rewrite T. destruct s; cbn [sign app].
    + now rewrite parse_value_minus, P.
    + destruct H as (c & r & E & Hc). rewrite E in *. cbn [app] in *.
      rewrite parse_value_digit by exact Hc. now rewrite P.
Qed.

Definition reads_back (v : json) : Prop :=
  representable v = true ->
  forall f rest, (size v <= f)%nat -> number_end rest = true ->
  parse_value f (stringify v ++ rest) = Some (v, rest).

Definition size_elems (l : list json) : nat :=
  fold_right (fun x n => S (size x + n)) O l.

Definition size_members (m : list (jsstring * json)) : nat :=
  fold_right (fun (kv : jsstring * json) n => let (_, x) := kv in S (size x + n)) O m.

Lemma number_end_tail (b : bool) (t rest : list Z) (c : Z) :
  c = 93 \/ c = 125 ->
  number_end ((if b then [c] else 44 :: t) ++ rest) = true.
Proof. intros [-> | ->]; destruct b; reflexivity. Qed.

Lemma parse_elements_elems (l : list json) :
  Forall reads_back l -> forallb representable l = true -> l <> [] ->
  forall g rest, (size_elems l <= g)%nat ->
  parse_elements g (elems l ++ rest) = Some (l, rest).
Proof.
  induction 1 as [|x t Hx Ht IH]; intros Hr Hne g rest Hg; [congruence|].
  cbn [forallb] in Hr. apply andb_true_iff in Hr as [Hrx Hrt].
  unfold size_elems in Hg. cbn [fold_right] in Hg. fold (size_elems t) in Hg.
  destruct g as [|g]; [lia|]. rewrite parse_elements_step.
  cbn [elems]. rewrite <- app_assoc.
  rewrite (Hx Hrx) by (try lia; destruct t; reflexivity).
  destruct t as [|y t'].
  - reflexivity.
  - cbn [app skip_ws is_ws]. simpl.
    rewrite IH by (assumption || discriminate || lia). reflexivity.
Qed.

Lemma parse_members_members (m : list (jsstring * json)) :
  Forall (fun kv => reads_back (snd kv)) m ->
  forallb (fun kv : jsstring * json =>
             let (k, x) := kv in forallb is_unit k && representable x) m = true ->
  m <> [] ->
  forall g rest, (size_members m <= g)%nat ->
  parse_members g (members m ++ rest) = Some (m, rest).
Proof.
  induction 1 as [|[k x] t Hx Ht IH]; intros Hr Hne g rest Hg; [congruence|].
  cbn [forallb] in Hr. apply andb_true_iff in Hr as [Hrx Hrt].
  apply andb_true_iff in Hrx as [Hk Hrx].
  unfold size_members in Hg. cbn [fold_right] in Hg. fold (size_members t) in Hg.
  destruct g as [|g]; [lia|]. cbn [members snd] in *.
  unfold quote. repeat (cbn [app]; rewrite <- ?app_assoc).
  erewrite parse_members_step by (apply parse_chars_quote; assumption).
  rewrite (Hx Hrx) by (try lia; destruct t; reflexivity).
  destruct t as [|y t'].
  - reflexivity.
  - cbn [app skip_ws is_ws]. simpl.
    rewrite IH by (assumption || discriminate || lia). reflexivity.
Qed.

Lemma jsstring_eqb_sym (a b : jsstring) : jsstring_eqb a b = jsstring_eqb b a.
Proof.
  unfold jsstring_eqb.
  destruct (list_eq_dec Z.eq_dec a b), (list_eq_dec Z.eq_dec b a); congruence.
Qed.

Lemma obj_set_fresh (k : jsstring) (v : json) (m : list (jsstring * json)) :
  existsb (jsstring_eqb k) (map fst m) = false ->
  obj_set k v m = m ++ [(k, v)].
Proof.
  induction m as [|[k' v'] t IH]; intros H; [reflexivity|].
  cbn [map fst existsb] in H. apply orb_false_iff in H as [H1 H2].
  cbn [obj_set app]. rewrite jsstring_eqb_sym, H1. now rewrite IH.
Qed.

Lemma distinct_app_cons (a : list jsstring) (k : jsstring) (t : list jsstring) :
  distinct (a ++ k :: t) = true ->
  existsb (jsstring_eqb k) a = false /\ distinct ((a ++ [k]) ++ t) = true.
Proof.
  intros H. split.
  - induction a as [|x a IH]; [reflexivity|].
    cbn [app distinct] in H. apply andb_true_iff in H as [H1 H2].
    cbn [existsb]. rewrite (IH H2), orb_false_r.
    apply negb_true_iff in H1. rewrite existsb_app in H1.
    apply orb_false_iff in H1 as [_ H1]. cbn [existsb] in H1.
    apply orb_false_iff in H1 as [H1 _]. now rewrite jsstring_eqb_sym.
  - now rewrite <- app_assoc.
Qed.

Lemma obj_of_pairs_distinct (l acc : list (jsstring * json)) :
  distinct (map fst (acc ++ l)) = true ->
  fold_left (fun m kv => obj_set (fst kv) (snd kv) m) l acc = acc ++ l.
Proof.
  revert acc. induction l as [|[k v] t IH]; intros acc H.
  - now rewrite app_nil_r.
  - cbn [fold_left fst snd]. rewrite map_app in H. cbn [map fst] in H.
    apply distinct_app_cons in H as [H1 H2].
    rewrite obj_set_fresh by assumption.
    rewrite IH; [now rewrite <- app_assoc|].
    rewrite !map_app. exact H2.
Qed.

Lemma insert_index_last (i : Z) (kv : jsstring * json)
  (acc : list (Z * (jsstring * json))) :
  Forall (fun p => fst p < i) acc -> insert_index i kv acc = acc ++ [(i, kv)].
Proof.
  induction 1 as [|[j kv'] t Hj Ht IH]; [reflexivity|].
  cbn [fst] in Hj. cbn [insert_index app].
  replace (i <? j) with false by (symmetry; apply Z.ltb_ge; lia).
  now rewrite IH.
Qed.

Definition index_step (acc : list (Z * (jsstring * json)))
  (kv : jsstring * json) : list (Z * (jsstring * json)) :=
  match array_index (fst kv) with
  | Some i => insert_index i kv acc
  | None => acc
  end.

Lemma own_properties_named (m : list (jsstring * json)) : forall last acc,
  enumerated last true (map fst m) = true ->
  fold_left index_step m acc = acc /\ filter named m = m.
Proof.
  induction m as [|kv t IH]; intros last acc H; [now split|].
  cbn [map enumerated] in H. cbn [fold_left filter]. unfold index_step at 2, named.
  destruct (array_index (fst kv)) as [i|]; [discriminate|].
  destruct (IH last acc H) as [F N]. fold named. now rewrite F, N.
Qed.

Lemma own_properties_indexed (m : list (jsstring * json)) : forall last acc,
  enumerated last false (map fst m) = true ->
  Forall (fun p => fst p <= last) acc ->
  map snd (fold_left index_step m acc) ++ filter named m = map snd acc ++ m.
Proof.
  induction m as [|kv t IH]; intros last acc H Hacc.
  - cbn [fold_left filter]. reflexivity.
  - cbn [map enumerated] in H. cbn [fold_left filter].
    unfold index_step at 2, named. fold named.
    destruct (array_index (fst kv)) as [i|] eqn:A.
    + cbn [negb andb] in H. apply andb_true_iff in H as [Hl He].
      apply Z.ltb_lt in Hl.
      rewrite insert_index_last
        by (eapply Forall_impl; [|exact Hacc]; cbv beta; intros; lia).
      rewrite (IH i).
      * rewrite map_app, <- app_assoc. reflexivity.
      * exact He.
      * apply Forall_app. split.
        -- eapply Forall_impl; [|exact Hacc]. cbv beta. intros. lia.
        -- constructor; [cbn [fst]; lia | constructor].
    + destruct (own_properties_named t last acc H) as [F N].
      now rewrite F, N.
Qed.

(** Properties listed as the engine enumerates them stay as they are. *)
Lemma own_properties_enumerated (m : list (jsstring * json)) :
  enumerated (-1) false (map fst m) = true -> own_properties m = m.
Proof.
  intros H. unfold own_properties.
  exact (own_properties_indexed m (-1) [] H (Forall_nil _)).
Qed.

Theorem parse_value_stringify (v : json) : reads_back v.
Proof.
  induction v as [| b | n | s | l IH | m IH] using json_ind;
    intros Hr f rest Hf Hend; cbn [size] in Hf;
    (destruct f as [|f]; [lia|]).
  - reflexivity.
  - destruct b; reflexivity.
  - now apply parse_value_number.
  - cbn [stringify representable] in *. unfold quote.
    repeat (cbn [app]; rewrite <- ?app_assoc).
    cbn [parse_value skip_ws is_ws]. simpl.
    now rewrite parse_chars_quote.
  - rewrite stringify_arr. cbn [representable] in Hr. destruct l as [|x t].
    + reflexivity.
    + destruct (stringify_opener x) as (c & r & E & Hop).
      pose proof (parse_elements_elems (x :: t) IH Hr ltac:(discriminate)
                    f rest ltac:(unfold size_elems; lia)) as P.
      cbn [elems] in *. rewrite E in *. cbn [app] in *.
      rewrite parse_value_arr by assumption. now rewrite P.
  - rewrite stringify_obj. cbn [representable] in Hr.
    apply andb_true_iff in Hr as [Hd Hr]. apply andb_true_iff in Hd as [Hd He].
    destruct m as [|[k x] t].
    + reflexivity.
    + pose proof (parse_members_members ((k, x) :: t) IH Hr ltac:(discriminate)
                    f rest ltac:(unfold size_members; lia)) as P.
      cbn [members] in *. unfold quote in *. cbn [app] in *.
      rewrite parse_value_obj. rewrite P. cbn [wrap]. unfold obj_of_pairs.
      rewrite obj_of_pairs_distinct by exact Hd.
      now rewrite own_properties_enumerated.
Qed.

Lemma size_elems_length (l : list json) :
  Forall (fun v => (size v <= List.length (stringify v))%nat) l ->
  (size_elems l <= List.length (elems l))%nat.
Proof.
  induction 1 as [|x t Hx Ht IH]; [simpl; lia|].
  unfold size_elems in *. cbn [fold_right elems]. rewrite length_app.
  destruct t; cbn [List.length] in *; simpl fold_right in *; lia.
Qed.

Lemma size_members_length (m : list (jsstring * json)) :
  Forall (fun kv => (size (snd kv) <= List.length (stringify (snd kv)))%nat) m ->
  (size_members m <= List.length (members m))%nat.
Proof.
  induction 1 as [|[k x] t Hx Ht IH]; [simpl; lia|].
  unfold size_members in *. cbn [fold_right members snd] in *.
  rewrite length_app. cbn [List.length]. rewrite length_app.
  destruct t; cbn [List.length] in *; simpl fold_right in *; lia.
Qed.

Lemma size_le_length (v : json) : (size v <= List.length (stringify v))%nat.
Proof.
  induction v as [| b | n | s | l IH | m IH] using json_ind.
  - simpl. lia.
  - destruct b; simpl; lia.
  - destruct (stringify_opener (JNum n)) as (c & r & E & _). rewrite E.
    simpl. lia.
  - simpl. lia.
  - rewrite stringify_arr. pose proof (size_elems_length l IH).
    unfold size_elems in *. cbn [size List.length]. lia.
  - rewrite stringify_obj. pose proof (size_members_length m IH).
    unfold size_members in *. cbn [size List.length]. lia.
Qed.

(** An object comes back with its array indices first, whatever the
    order of the text. *)
Lemma parse_enumerates_indices_first :
  Json.parse (stringify (JObj [(lit "b", JNum 1); (lit "1", JNum 2);
                               (lit "0", JNum 3)]))
  = Some (JObj [(lit "0", JNum 3); (lit "1", JNum 2); (lit "b", JNum 1)]).
Proof. vm_compute. reflexivity. Qed.

(** [JSON.parse (JSON.stringify v)] is [v] for every representable [v]. *)
Theorem parse_stringify (v : json) :
  representable v = true -> Json.parse (stringify v) = Some v.
Proof.
  intros Hr. unfold Json.parse.
  pose proof (parse_value_stringify v Hr (S (List.length (stringify v))) []
                ltac:(pose proof (size_le_length v); lia) eq_refl) as P.
  rewrite app_nil_r in P. now rewrite P.
Qed.

End JsonFacts.

(** ** Round trip of the UTF-8 transcoding *)

Module BufferFacts.
Import Buffer JsonFacts.

Lemma toString_enc_cp (c : Z) (rest : list Z) :
  is_unit c = true -> is_high c = false -> is_low c = false ->
  toString (enc_cp c ++ rest) = c :: toString rest.
Proof.
  unfold is_unit, is_high, is_low, enc_cp. intros Hu Hh Hl.
  apply andb_true_iff in Hu as [Hu1 Hu2]. zbool.
  destruct (c <? 128) eqn:E1; zbool.
  { cbn [app toString]. zdec. reflexivity. }
  destruct (c <? 2048) eqn:E2; zbool.
  { cbn [app toString]. unfold is_cont.
    assert (0 <= c mod 64 < 64) by (apply Z.mod_pos_bound; lia).
    assert (2 <= c / 64 < 32) by (Z.div_mod_to_equations; lia).
    zdec. cbn [andb]. f_equal. Z.div_mod_to_equations. lia. }
  destruct (c <? 65536) eqn:E3; zbool; [|lia].
  assert (S : c < 55296 \/ 57344 <= c).
  { apply andb_false_iff in Hh, Hl. destruct Hh, Hl; zbool; lia. }
  cbn [app toString].
  assert (0 <= c mod 64 < 64) by (apply Z.mod_pos_bound; lia).
  assert (0 <= (c / 64) mod 64 < 64) by (apply Z.mod_pos_bound; lia).
  assert (0 <= c / 4096 < 16) by (Z.div_mod_to_equations; lia).
  assert (E : (224 + c / 4096 - 224) * 4096 + (128 + (c / 64) mod 64 - 128) * 64
              + (128 + c mod 64 - 128) = c).
  { replace (c / 4096) with (c / 64 / 64) by (rewrite Z.div_div by lia; reflexivity).
    Z.div_mod_to_equations. lia. }
  assert (B : second (224 + c / 4096) (128 + (c / 64) mod 64) = true).
  { unfold second, is_cont.
    replace (c / 4096) with (c / 64 / 64) in *
      by (rewrite Z.div_div by lia; reflexivity).
    destruct (224 + c / 64 / 64 =? 224) eqn:B0; zbool.
    { apply andb_true_iff; split; [apply Z.leb_le | apply Z.ltb_lt];
        Z.div_mod_to_equations; lia. }
    destruct (224 + c / 64 / 64 =? 237) eqn:B1; zbool.
    { apply andb_true_iff; split; [apply Z.leb_le | apply Z.ltb_lt];
        Z.div_mod_to_equations; lia. }
    zdec. reflexivity. }
  rewrite B, E. unfold is_cont. zdec. reflexivity.
Qed.

Lemma toString_pair (u l : Z) (rest : list Z) :
  is_high u = true -> is_low l = true ->
  toString (enc_cp (65536 + (u - 55296) * 1024 + (l - 56320)) ++ rest)
  = u :: l :: toString rest.
Proof.
  unfold is_high, is_low, enc_cp. intros Hh Hl. zbool.
  set (c := 65536 + (u - 55296) * 1024 + (l - 56320)).
  assert (Hc : 65536 <= c < 1114112) by (unfold c; lia).
  zdec. cbn [app toString]. cbv zeta.
  assert (0 <= c mod 64 < 64) by (apply Z.mod_pos_bound; lia).
  assert (0 <= (c / 64) mod 64 < 64) by (apply Z.mod_pos_bound; lia).
  assert (0 <= (c / 4096) mod 64 < 64) by (apply Z.mod_pos_bound; lia).
  assert (0 <= c / 262144 < 5) by (Z.div_mod_to_equations; lia).
  assert (E : (240 + c / 262144 - 240) * 262144
              + (128 + (c / 4096) mod 64 - 128) * 4096
              + (128 + (c / 64) mod 64 - 128) * 64
              + (128 + c mod 64 - 128) = c).
  { replace (c / 262144) with (c / 64 / 64 / 64)
      by (rewrite !Z.div_div by lia; reflexivity).
    replace (c / 4096) with (c / 64 / 64)
      by (rewrite !Z.div_div by lia; reflexivity).
    Z.div_mod_to_equations. lia. }
  assert (B : second (240 + c / 262144) (128 + (c / 4096) mod 64) = true).
  { unfold second, is_cont.
    replace (c / 262144) with (c / 4096 / 64) in *
      by (rewrite Z.div_div by lia; reflexivity).
    replace (240 + c / 4096 / 64 =? 224) with false
      by (symmetry; apply Z.eqb_neq; lia).
    replace (240 + c / 4096 / 64 =? 237) with false
      by (symmetry; apply Z.eqb_neq; lia).
    destruct (240 + c / 4096 / 64 =? 240) eqn:B0; zbool.
    { apply andb_true_iff; split; [apply Z.leb_le | apply Z.ltb_lt];
        Z.div_mod_to_equations; lia. }
    destruct (240 + c / 4096 / 64 =? 244) eqn:B1; zbool.
    { apply andb_true_iff; split; [apply Z.leb_le | apply Z.ltb_lt];
        Z.div_mod_to_equations; lia. }
    apply andb_true_iff; split; [apply Z.leb_le | apply Z.ltb_lt]; lia. }
  rewrite B, E. unfold is_cont. zdec. cbn [andb].
  f_equal; [|f_equal]; unfold c; Z.div_mod_to_equations; lia.
Qed.

Lemma toString_from_len (n : nat) : forall s,
  (List.length s <= n)%nat -> well_formed s = true -> toString (from s) = s.
Proof.
  induction n as [|n IH]; intros s Hl Hw.
  - destruct s; [reflexivity | simpl in Hl; lia].
  - destruct s as [|u r]; [reflexivity|]. simpl in Hl.
    cbn [well_formed from] in *. destruct (is_high u) eqn:Hh.
    + destruct r as [|l r']; [discriminate|].
      apply andb_true_iff in Hw as [Hlow Hw]. rewrite Hlow.
      rewrite toString_pair by assumption.
      rewrite IH by (assumption || (simpl in Hl; lia)). reflexivity.
    + apply andb_true_iff in Hw as [Hw1 Hw]. apply andb_true_iff in Hw1 as [Hu Hlow].
      apply negb_true_iff in Hlow. rewrite Hlow.
      rewrite toString_enc_cp by assumption.
      rewrite IH by (assumption || lia). reflexivity.
Qed.

(** Ill-formed input: a sequence cut short yields one U+FFFD, the bytes
    of an encoded surrogate one each. *)
Lemma toString_ill_formed :
  toString [226; 130; 65] = [65533; 65]
  /\ toString [240; 159; 146] = [65533]
  /\ toString [237; 160; 128] = [65533; 65533; 65533]
  /\ toString [192; 128] = [65533; 65533].
Proof. repeat split; reflexivity. Qed.

(** [Buffer.from(s).toString()] is [s] when [s] has no lone surrogate. *)
Theorem toString_from (s : jsstring) :
  well_formed s = true -> toString (from s) = s.
Proof. apply (toString_from_len (List.length s)). lia. Qed.

(** *** The text printed by [JSON.stringify] has no lone surrogate *)

Definition plain (c : Z) : Prop := 0 <= c < 55296.

Lemma well_formed_plain (c : Z) (r : list Z) :
  plain c -> well_formed (c :: r) = well_formed r.
Proof.
  unfold plain. intros H. cbn [well_formed]. unfold is_high, is_low, is_unit.
  zdec. reflexivity.
Qed.

Lemma well_formed_app_len (n : nat) : forall a b,
  (List.length a <= n)%nat ->
  well_formed a = true -> well_formed b = true -> well_formed (a ++ b) = true.
Proof.
  induction n as [|n IH]; intros a b Hl Ha Hb.
  - destruct a; [assumption | simpl in Hl; lia].
  - destruct a as [|u r]; [assumption|]. simpl in Hl.
    cbn [app well_formed] in *. destruct (is_high u).
    + destruct r as [|l r']; [discriminate|].
      apply andb_true_iff in Ha as [Hlow Ha]. cbn [app]. rewrite Hlow.
      apply IH; (assumption || (simpl in Hl; lia)).
    + apply andb_true_iff in Ha as [H1 Ha]. rewrite H1.
      apply IH; (assumption || lia).
Qed.

Lemma well_formed_app (a b : list Z) :
  well_formed a = true -> well_formed b = true -> well_formed (a ++ b) = true.
Proof. apply (well_formed_app_len (List.length a)). lia. Qed.

Lemma well_formed_all_plain (a : list Z) :
  Forall plain a -> well_formed a = true.
Proof.
  induction 1 as [|c r Hc Hr IH]; [reflexivity|].
  now rewrite well_formed_plain.
Qed.

Lemma plain_number (x : double) : Forall plain (Json.number_to_string x).
Proof.
  destruct x as [s m e|s|]; cbn [Json.number_to_string];
    try (repeat constructor; unfold plain; lia).
  eapply Forall_impl; [|apply DoubleFacts.toString_chars].
  unfold DoubleFacts.number_char, plain. intros c H. lia.
Qed.

Lemma plain_hexd (d : Z) : 0 <= d < 16 -> plain (Json.hexd d).
Proof. unfold Json.hexd, plain. destruct (d <? 10); lia. Qed.

Lemma plain_unicode_escape (u : Z) :
  is_unit u = true -> Forall plain (Json.unicode_escape u).
Proof.
  unfold is_unit. intros H. zbool. unfold Json.unicode_escape.
  assert (0 <= u / 4096 < 16)
    by (split; [apply Z.div_pos; lia | apply Z.div_lt_upper_bound; lia]).
  repeat apply Forall_cons; try apply Forall_nil;
    try (unfold plain; lia); apply plain_hexd;
    try assumption; apply Z.mod_pos_bound; lia.
Qed.

Lemma plain_json_escape (u : Z) :
  is_unit u = true -> is_high u = false -> is_low u = false ->
  Forall plain (Json.json_escape u) \/ Json.json_escape u = [u].
Proof.
  intros Hu Hh Hl. unfold Json.json_escape.
  repeat match goal with
  | |- context [if ?c then _ else _] =>
      destruct c; [left; try (repeat constructor; unfold plain; lia)|]
  end.
  - now apply plain_unicode_escape.
  - now right.
Qed.

Lemma well_formed_quote_len (n : nat) : forall s,
  (List.length s <= n)%nat -> forallb is_unit s = true ->
  well_formed (Json.quote_units s) = true.
Proof.
  induction n as [|n IH]; intros s Hl Hu.
  - destruct s; [reflexivity | simpl in Hl; lia].
  - destruct s as [|u r]; [reflexivity|]. simpl in Hl.
    cbn [forallb] in Hu. apply andb_true_iff in Hu as [Hu Hr].
    cbn [Json.quote_units]. destruct (is_high u) eqn:Hh.
    + destruct r as [|l r'].
      * apply well_formed_all_plain. now apply plain_unicode_escape.
      * destruct (is_low l) eqn:Hlow.
        -- cbn [well_formed]. rewrite Hh, Hlow. cbn [andb].
           cbn [forallb] in Hr. apply andb_true_iff in Hr as [_ Hr].
           apply IH; [simpl in Hl; lia | assumption].
        -- apply well_formed_app;
             [apply well_formed_all_plain; now apply plain_unicode_escape|].
           apply IH; [lia | assumption].
    + destruct (is_low u) eqn:Hlow.
      * apply well_formed_app;
          [apply well_formed_all_plain; now apply plain_unicode_escape|].
        apply IH; [lia | assumption].
      * destruct (plain_json_escape u Hu Hh Hlow) as [P | ->].
        -- apply well_formed_app; [now apply well_formed_all_plain|].
           apply IH; [lia | assumption].
        -- cbn [app well_formed]. rewrite Hh, Hu, Hlow. cbn [andb negb].
           apply IH; [lia | assumption].
Qed.

Lemma well_formed_quote (s : jsstring) :
  forallb is_unit s = true -> well_formed (Json.quote s) = true.
Proof.
  intros H. unfold Json.quote. rewrite well_formed_plain by (unfold plain; lia).
  apply well_formed_app; [|reflexivity].
  now apply (well_formed_quote_len (List.length s)).
Qed.

Lemma well_formed_elems (l : list json) :
  Forall (fun v => Json.representable v = true ->
                   well_formed (Json.stringify v) = true) l ->
  forallb Json.representable l = true ->
  well_formed (elems l) = true.
Proof.
  induction 1 as [|x t Hx Ht IH]; intros Hr; [reflexivity|].
  cbn [forallb] in Hr. apply andb_true_iff in Hr as [Hrx Hrt].
  cbn [elems]. apply well_formed_app; [now apply Hx|].
  destruct t; [reflexivity|].
  rewrite well_formed_plain by (unfold plain; lia). now apply IH.
Qed.

Lemma well_formed_members (m : list (jsstring * json)) :
  Forall (fun kv => Json.representable (snd kv) = true ->
                    well_formed (Json.stringify (snd kv)) = true) m ->
  forallb (fun kv : jsstring * json =>
             let (k, x) := kv in forallb is_unit k && Json.representable x) m
  = true ->
  well_formed (members m) = true.
Proof.
  induction 1 as [|[k x] t Hx Ht IH]; intros Hr; [reflexivity|].
  cbn [forallb] in Hr. apply andb_true_iff in Hr as [Hrx Hrt].
  apply andb_true_iff in Hrx as [Hk Hrx].
  cbn [members snd] in *. apply well_formed_app; [now apply well_formed_quote|].
  rewrite well_formed_plain by (unfold plain; lia).
  apply well_formed_app; [now apply Hx|].
  destruct t; [reflexivity|].
  rewrite well_formed_plain by (unfold plain; lia). now apply IH.
Qed.

Theorem well_formed_stringify (v : json) :
  Json.representable v = true -> well_formed (Json.stringify v) = true.
Proof.
  induction v as [| b | n | s | l IH | m IH] using json_ind; intros Hr.
  - reflexivity.
  - destruct b; reflexivity.
  - apply well_formed_all_plain, plain_number.
  - now apply well_formed_quote.
  - rewrite stringify_arr. rewrite well_formed_plain by (unfold plain; lia).
    now apply well_formed_elems.
  - rewrite stringify_obj. rewrite well_formed_plain by (unfold plain; lia).
    cbn [Json.representable] in Hr. apply andb_true_iff in Hr as [_ Hr].
    now apply well_formed_members.
Qed.

End BufferFacts.

Module CodecFacts.
Import Codec.

(** C1 (wire codec round trip).  For every JSON-representable envelope
    [v] whose kind is object, string or number, [decode (encode (v))]
    returns a value equal to [v], which is finer than deep equality.
    The numbers are the finite doubles, fractions and exponents
    included, as [JSON.stringify] writes them and [JSON.parse] reads
    them; the negative zero, NaN and the infinities are not
    JSON-representable ([negative_zero_decodes_to_zero],
    [not_finite_decodes_to_null]). *)
Theorem decode_encode_roundtrip (j : json) :
  Json.representable j = true ->
  serialized (VJson j) = true ->
  decode_encode (VJson j) = Ok (VJson j).
Proof.
  intros Hr Hk.
  assert (E : encode (VJson j) = Ok (VBuffer (Buffer.from (Json.stringify j)))).
  { unfold encode, serialized in *.
    destruct (typeof (VJson j)); try discriminate; reflexivity. }
  unfold decode_encode. rewrite E. unfold decode.
  cbn [typeof primitives_decode Buffer_from_object].
  rewrite BufferFacts.toString_from
    by (apply BufferFacts.well_formed_stringify; assumption).
  unfold JSON_parse. now rewrite JsonFacts.parse_stringify.
Qed.

(** An envelope with the numbers [1], [1.5], [-0.1], [1e21] and
    [5e-324], the least positive double. *)
Definition envelope_x : json :=
  JObj [(lit "eventName", JStr (lit "x")); (lit "a", JNum 1);
        (lit "ratio", JNum (Double.of_decimal 15 (-1)));
        (lit "delta", JNum (Double.opp (Double.of_decimal 1 (-1))));
        (lit "count", JNum (Double.of_decimal 1 21));
        (lit "least", JNum (Finite false 1 (-1074)))].

Lemma decode_encode_roundtrip_witness :
  decode_encode (VJson envelope_x) = Ok (VJson envelope_x).
Proof.
  apply (decode_encode_roundtrip envelope_x); vm_compute; reflexivity.
Defined.

(** The numbers of [envelope_x] as [JSON.stringify] writes them. *)
Lemma numbers_on_the_wire :
  map Json.stringify
    [JNum 1; JNum (Double.of_decimal 15 (-1));
     JNum (Double.opp (Double.of_decimal 1 (-1)));
     JNum (Double.of_decimal 1 21); JNum (Finite false 1 (-1074))]
  = [lit "1"; lit "1.5"; lit "-0.1"; lit "1e+21"; lit "5e-324"].
Proof. vm_compute. reflexivity. Qed.

(** The negative zero is written [0] and comes back as the positive
    zero. *)
Lemma negative_zero_decodes_to_zero :
  decode_encode (VJson (JNum (Finite true 0 0)))
  = Ok (VJson (JNum (Finite false 0 0))).
Proof. vm_compute. reflexivity. Qed.

(** NaN and the infinities are written [null]. *)
Lemma not_finite_decodes_to_null (x : double) :
  (x = NaN \/ exists s, x = Infinity s) ->
  decode_encode (VJson (JNum x)) = Ok (VJson JNull).
Proof. intros [-> | [s ->]]; vm_compute; reflexivity. Qed.

End CodecFacts.

(** ** The emitter and the socket handlers *)

Module EmitterFacts.
Import Client.

Definition is_detector (l : listener) : bool :=
  match l with
  | ErrorDetector => true
  | Subscriber _ => false
  end.

Definition detectors (ls : list listener) : nat :=
  List.length (filter is_detector ls).

(** The fields that calling listeners leaves alone. *)
Definition same_connection (c c' : client) : Prop :=
  ws c' = ws c /\ pong c' = pong c /\ timerId c' = timerId c
  /\ reconnecting c' = reconnecting c /\ sendQueue c' = sendQueue c
  /\ sendQueueLimit c' = sendQueueLimit c /\ options c' = options c
  /\ serviceList c' = serviceList c /\ listeners c' = listeners c
  /\ timers c' = timers c /\ nextTimer c' = nextTimer c
  /\ file c' = file c /\ env c' = env c.

Lemma same_connection_refl (c : client) : same_connection c c.
Proof. repeat split. Qed.

Lemma same_connection_trans (a b c : client) :
  same_connection a b -> same_connection b c -> same_connection a c.
Proof.
  unfold same_connection. intros H1 H2.
  repeat match goal with H : _ /\ _ |- _ => destruct H end.
  repeat split; congruence.
Qed.

Lemma invoke_all_spec (arg : value) (ls : list listener) : forall c,
  same_connection c (invoke_all ls arg c)
  /\ trace (invoke_all ls arg c) = trace c ++ map (fun l => Invoke l arg) ls
  /\ failures (invoke_all ls arg c) = (failures c + detectors ls)%nat.
Proof.
  induction ls as [|l ls IH]; intros c.
  - cbn. rewrite app_nil_r, Nat.add_0_r. auto using same_connection_refl.
  - unfold invoke_all in *. cbn [fold_left].
    destruct (IH (invoke_listener arg c l)) as (S & T & F).
    split; [|split].
    + eapply same_connection_trans; [|exact S].
      destruct l; repeat split.
    + rewrite T. destruct l; cbn; now rewrite <- app_assoc.
    + rewrite F. unfold detectors. destruct l; cbn; lia.
Qed.

(** [emit] of a name other than [error] returns, having called the
    listeners of that name, in registration order, and no other. *)
Lemma emit_spec (name : jsstring) (arg : value) (c : client) :
  jsstring_eqb name ERROR = false ->
  exists b c',
    emit name arg c = Return b c'
    /\ same_connection c c'
    /\ trace c' = trace c ++ map (fun l => Invoke l arg) (registered name c)
    /\ failures c' = (failures c + detectors (registered name c))%nat.
Proof.
  intros Hn. unfold emit. rewrite Hn.
  destruct (registered name c) as [|l ls] eqn:E.
  - exists false, c. cbn. rewrite app_nil_r, Nat.add_0_r.
    auto using same_connection_refl.
  - exists true, (invoke_all (l :: ls) arg c).
    destruct (invoke_all_spec arg (l :: ls) c) as (S & T & F). auto.
Qed.

Lemma since_suffix (c c' : client) (suffix : list effect) :
  trace c' = trace c ++ suffix -> Trace.since c c' = suffix.
Proof.
  unfold Trace.since. intros ->. generalize (trace c) as a.
  induction a as [|x a IH]; [reflexivity | exact IH].
Qed.

Lemma invoked_invocations (arg : value) (ls : list listener) :
  Trace.invoked (map (fun l => Invoke l arg) ls) = ls.
Proof.
  induction ls as [|l ls IH]; [reflexivity|].
  unfold Trace.invoked in *. cbn [map flat_map app]. now rewrite IH.
Qed.

Lemma invoked_app (a b : list effect) :
  Trace.invoked (a ++ b) = Trace.invoked a ++ Trace.invoked b.
Proof. unfold Trace.invoked. now rewrite flat_map_app. Qed.

Lemma consoles_nil (c : client) : consoles [] c = c.
Proof. destruct c. unfold consoles. cbn. now rewrite app_nil_r. Qed.

(** A message that decodes to anything but [undefined] has made
    [decode] write nothing. *)
Lemma decode_console_defined (message event : value) :
  Codec.decode message = Ok event -> event <> VUndefined ->
  Codec.decode_console message = [].
Proof.
  unfold Codec.decode, Codec.decode_console.
  destruct (typeof message) eqn:T; try reflexivity.
  cbn [Codec.primitives_decode]. intros H. inversion H. congruence.
Qed.

Lemma get_eventName_defined (event : value) (x : option json) :
  get_eventName event = Ok x -> event <> VUndefined.
Proof. intros H ->. discriminate. Qed.

Lemma registered_same (name : jsstring) (c c' : client) :
  same_connection c c' -> registered name c' = registered name c.
Proof.
  unfold same_connection, registered. intros H.
  repeat match goal with H : _ /\ _ |- _ => destruct H end. congruence.
Qed.

End EmitterFacts.

(** ** The send queue *)

Module SendFacts.
Import Client.

(** [send] takes the overflow path, that is, calls [manageSendQueue]. *)
Definition overflows (c : client) : bool :=
  negb (ready c) &&
  negb (Z.of_nat (List.length (sendQueue c)) <? sendQueueLimit c).

Lemma pop_push (q : list value) (x : value) : pop (q ++ [x]) = Some (x, q).
Proof. unfold pop. rewrite rev_unit. now rewrite rev_involutive. Qed.

Lemma send_ready (f : nat) (msg : value) (c : client) :
  ready c = true ->
  send (S f) msg c =
  Some (true, invoke transmit msg
                (detectErrors [TIMEOUTEVENT; CONNECTERROR; WSOCKETERROR] c)).
Proof. intros H. cbn [send]. now rewrite H. Qed.

Lemma send_queued (f : nat) (msg : value) (c : client) :
  ready c = false ->
  Z.of_nat (List.length (sendQueue c)) < sendQueueLimit c ->
  send (S f) msg c = Some (false, push msg c).
Proof.
  intros H L. cbn [send]. rewrite H.
  now replace (_ <? _) with true by (symmetry; apply Z.ltb_lt; lia).
Qed.

Lemma send_spills (f : nat) (msg : value) (c : client) :
  ready c = false ->
  sendQueueLimit c <= Z.of_nat (List.length (sendQueue c)) ->
  3 * sendQueueLimit c <= 2 * (Z.of_nat (List.length (sendQueue c)) + 1) ->
  send (S f) msg c = Some (false, perform Stat (push msg c)).
Proof.
  intros H L M. cbn [send]. rewrite H.
  replace (_ <? _) with false by (symmetry; apply Z.ltb_ge; lia).
  unfold manageSendQueue_with, saveSendQueue.
  cbn [push sendQueue sendQueueLimit set_sendQueue].
  rewrite length_app. cbn [List.length].
  now replace (_ <? _) with false by (symmetry; apply Z.ltb_ge; lia).
Qed.

(** With the socket not ready and the queue at its limit, but below one
    and a half times the limit after the push, [send] re-enters itself
    through [manageSendQueue], [saveSendQueue] and [sendQueuedMsgs] on a
    state equal to the one it started from: no amount of fuel lets it
    return. *)
Lemma send_full_never_returns (fuel : nat) : forall msg c,
  ready c = false ->
  sendQueueLimit c <= Z.of_nat (List.length (sendQueue c)) ->
  2 * (Z.of_nat (List.length (sendQueue c)) + 1) < 3 * sendQueueLimit c ->
  send fuel msg c = None.
Proof.
  induction fuel as [|f IH]; intros msg c Hr Hl Hh; [reflexivity|].
  cbn [send]. rewrite Hr.
  replace (_ <? _) with false by (symmetry; apply Z.ltb_ge; lia).
  unfold manageSendQueue_with, saveSendQueue.
  cbn [push sendQueue sendQueueLimit set_sendQueue].
  rewrite length_app. cbn [List.length].
  replace (_ <? _) with true by (symmetry; apply Z.ltb_lt; lia).
  destruct f as [|f']; [reflexivity|].
  cbn [sendQueuedMsgs_loop sendQueue set_sendQueue push]. rewrite pop_push.
  rewrite IH; [reflexivity | exact Hr | exact Hl | exact Hh].
Qed.

Definition node_env : environment :=
  {| hostname := lit "node-1"; pid := 4242;
     usage := [(lit "rss", JNum 1024); (lit "user", JNum 7)];
     config_heartbeat := None; threshold := 3%nat |}.

Definition envelope (n : Z) : value :=
  VJson (JObj [(EVENTNAME, JStr (lit "x")); (lit "a", JNum n)]).

Definition envelopes (n : nat) : list value :=
  map (fun i => envelope (Z.of_nat i)) (seq 1 n).

(** A client that never connected and holds twenty queued envelopes. *)
Definition full_client : client :=
  set_sendQueue (constructor node_env None) (envelopes 20).

(** C2 (send never throws and returns a boolean), at the failing input:
    with no socket and twenty queued envelopes, [send] of one more
    envelope does not return, whatever the fuel. *)
Theorem send_at_limit_does_not_return :
  forall fuel, send fuel (envelope 21) full_client = None.
Proof.
  intros fuel. apply send_full_never_returns.
  - reflexivity.
  - vm_compute. discriminate.
  - reflexivity.
Qed.

Lemma send_ready_keeps (f : nat) (msg : value) (c : client) :
  ready c = true ->
  exists c',
    send (S f) msg c = Some (true, c')
    /\ ready c' = true /\ sendQueue c' = sendQueue c.
Proof.
  intros H. rewrite send_ready by assumption. eexists. split; [reflexivity|].
  unfold invoke, transmit.
  destruct (breaker_closed _); [destruct (Codec.encode msg)|]; auto.
Qed.

(** With the socket ready, [sendQueuedMsgs] hands every queued entry to
    the breaker, last queued first, and leaves the queue empty. *)
Lemma flush_empties_queue (f : nat) : forall (q : list value) (n : nat) (c : client),
  ready c = true -> sendQueue c = q -> (List.length q < n)%nat ->
  exists c',
    sendQueuedMsgs_loop (send (S f)) n c = Some c'
    /\ sendQueue c' = [] /\ ready c' = true.
Proof.
  induction q as [|x q IH] using rev_ind; intros n c Hr Hq Hn.
  - destruct n as [|n]; [simpl in Hn; lia|].
    cbn [sendQueuedMsgs_loop]. rewrite Hq. cbn [pop rev]. now exists c.
  - rewrite length_app in Hn. cbn [List.length] in Hn.
    destruct n as [|n]; [lia|].
    cbn [sendQueuedMsgs_loop]. rewrite Hq, pop_push.
    destruct (send_ready_keeps f x (set_sendQueue c q) Hr) as (c1 & S1 & R1 & Q1).
    rewrite S1. apply IH; [exact R1 | exact Q1 | lia].
Qed.

(** Publishing a list of envelopes, each [publish] awaited before the
    next, with no socket event in between. *)
Fixpoint publish_all (fuel : nat) (url : jsstring) (msgs : list value)
  (c : client) : option client :=
  match msgs with
  | [] => Some c
  | msg :: rest =>
      match publish fuel url msg c with
      | Some (_, c') => publish_all fuel url rest c'
      | None => None
      end
  end.

(** No socket, or a socket that has not opened. *)
Definition disconnected (c : client) : Prop :=
  match ws c with
  | None => True
  | Some s => readyState s = CONNECTING
  end.

Lemma disconnected_not_ready (c : client) : disconnected c -> ready c = false.
Proof.
  unfold disconnected, ready. destruct (ws c) as [s|]; [|reflexivity].
  intros ->. reflexivity.
Qed.

Lemma connect_disconnected (o : option json) (url : jsstring) (c : client) :
  disconnected c ->
  disconnected (connect o url c)
  /\ sendQueue (connect o url c) = sendQueue c
  /\ sendQueueLimit (connect o url c) = sendQueueLimit c
  /\ file (connect o url c) = file c.
Proof.
  unfold disconnected, connect. destruct (ws c) as [s|] eqn:E; intros H.
  - cbn. rewrite E. auto.
  - cbn. auto.
Qed.

Lemma publish_all_queues (fuel : nat) (url : jsstring) : forall msgs c,
  disconnected c ->
  Z.of_nat (List.length (sendQueue c) + List.length msgs) <= sendQueueLimit c ->
  exists c',
    publish_all (S fuel) url msgs c = Some c'
    /\ sendQueue c' = sendQueue c ++ msgs
    /\ sendQueueLimit c' = sendQueueLimit c
    /\ file c' = file c
    /\ disconnected c'.
Proof.
  induction msgs as [|msg rest IH]; intros c Hd Hl.
  - exists c. rewrite app_nil_r. auto.
  - destruct (connect_disconnected None url c Hd) as (Hd' & Hq & Hlim & Hf).
    cbn [publish_all]. unfold publish.
    cbn [List.length] in Hl.
    rewrite send_queued
      by (try (apply disconnected_not_ready; assumption); rewrite Hq, Hlim; lia).
    destruct (IH (push msg (connect None url c))) as (c' & P & Q & L & F & D).
    + exact Hd'.
    + cbn [push sendQueue set_sendQueue sendQueueLimit]. rewrite Hq, Hlim.
      rewrite length_app. cbn [List.length]. lia.
    + exists c'. rewrite P. split; [reflexivity|].
      cbn [push sendQueue set_sendQueue sendQueueLimit file] in Q, L, F.
      rewrite Q, L, F, Hq, Hlim, Hf, <- app_assoc. auto.
Qed.

(** C3 amended.  Publishing at most twenty envelopes on a new client
    (limit twenty) whose socket does not open appends each of them to the
    queue in memory: the queue then holds exactly the published
    envelopes, in order, the queue file is untouched, and the next [send]
    takes the overflow path exactly when twenty envelopes are queued, so
    that the 21st envelope is the first to take it. *)
Theorem publish_fills_memory_queue (fuel : nat) (e : environment)
  (stored : option (list Z)) (url : jsstring) (msgs : list value) :
  (List.length msgs <= 20)%nat ->
  exists c,
    publish_all (S fuel) url msgs (constructor e stored) = Some c
    /\ sendQueue c = msgs
    /\ file c = stored
    /\ overflows c = Nat.eqb (List.length msgs) 20.
Proof.
  intros Hl.
  destruct (publish_all_queues fuel url msgs (constructor e stored))
    as (c & P & Q & L & F & D).
  - exact I.
  - cbn. lia.
  - exists c. cbn in Q, L, F. repeat split; try assumption.
    unfold overflows. rewrite (disconnected_not_ready c D), Q, L. cbn [negb andb].
    destruct (Nat.eqb_spec (List.length msgs) 20) as [E|E].
    + rewrite E. reflexivity.
    + apply negb_false_iff, Z.ltb_lt. lia.
Qed.

Lemma publish_fills_memory_queue_witness :
  exists c,
    publish_all 1 [] (envelopes 20) (constructor node_env None) = Some c
    /\ sendQueue c = envelopes 20
    /\ file c = None
    /\ overflows c = Nat.eqb (List.length (envelopes 20)) 20.
Proof.
  apply (publish_fills_memory_queue 0 node_env None [] (envelopes 20)).
  vm_compute. lia.
Defined.

(** The entries that can be recovered: those of the queue in memory and
    those of the array stored in the queue file. *)
Definition recoverable (c : client) : nat :=
  List.length (sendQueue c) +
  match file c with
  | Some bytes =>
      match read_stored bytes with
      | Ok (VJson (JArr l)) => List.length l
      | _ => O
      end
  | None => O
  end.

Definition new_client : client :=
  constructor node_env (Some (Buffer.from (lit "[]"))).

(** C3 as stated: publishing twenty-five envelopes on a disconnected
    client completes, the sixth envelope takes the overflow path, and
    twenty-five envelopes can be recovered. *)
Definition publishing_25_stated : Prop :=
  exists fuel c5 c25,
    publish_all fuel [] (envelopes 5) new_client = Some c5
    /\ overflows c5 = true
    /\ publish_all fuel [] (envelopes 25) new_client = Some c25
    /\ recoverable c25 = 25%nat.

(** Publishing twenty-five envelopes on a disconnected client does not
    complete: the 21st [send] does not return. *)
Lemma publishing_25_never_completes (fuel : nat) :
  publish_all fuel [] (envelopes 25) new_client = None.
Proof.
  destruct fuel as [|fuel]; [reflexivity|].
  destruct (publish_all_queues fuel [] (envelopes 20) new_client)
    as (c & P & Q & L & F & D); [exact I | vm_compute; discriminate |].
  change (envelopes 25) with (envelopes 20 ++ [envelope 21; envelope 22;
                                envelope 23; envelope 24; envelope 25]).
  assert (A : forall l c0 c1 t,
             publish_all (S fuel) [] l c0 = Some c1 ->
             publish_all (S fuel) [] (l ++ t) c0 = publish_all (S fuel) [] t c1).
  { induction l as [|x l IHl]; intros c0 c1 t H; cbn [publish_all app] in *.
    - now inversion H.
    - destruct (publish (S fuel) [] x c0) as [[b c0']|]; [|discriminate].
      now apply IHl. }
  rewrite (A _ _ _ _ P). cbn [publish_all]. unfold publish.
  destruct (connect_disconnected None [] c D) as (Hd' & Hq & Hlim & Hf).
  rewrite send_full_never_returns; [reflexivity | | | ].
  - now apply disconnected_not_ready.
  - rewrite Hq, Hlim, Q, L. vm_compute. discriminate.
  - rewrite Hq, Hlim, Q, L. reflexivity.
Qed.

(** C3 as stated fails: on a new client whose socket does not open, the
    sixth envelope finds five envelopes queued and is appended to the
    queue in memory; it does not take the overflow path. *)
Lemma sixth_envelope_does_not_overflow : ~ publishing_25_stated.
Proof.
  intros (fuel & c5 & c25 & P5 & O & _).
  destruct fuel as [|fuel]; [discriminate|].
  destruct (publish_all_queues fuel [] (envelopes 5) new_client)
    as (c & P & Q & L & F & D); [exact I | vm_compute; discriminate |].
  rewrite P in P5. inversion P5; subst c5. clear P5.
  unfold overflows in O. rewrite (disconnected_not_ready c D), Q, L in O.
  vm_compute in O. discriminate.
Qed.

End SendFacts.

(** ** Reconnection and heartbeat *)

Module ConnectionFacts.
Import Client Trace EmitterFacts.

Lemma scheduled_app (a b : list effect) :
  scheduled (a ++ b) = scheduled a ++ scheduled b.
Proof. unfold scheduled. now rewrite flat_map_app. Qed.


Lemma scheduled_invocations (arg : value) (ls : list listener) :
  scheduled (map (fun l => Invoke l arg) ls) = [].
Proof. induction ls as [|l ls IH]; [reflexivity | exact IH]. Qed.

Lemma CONNECTERROR_not_error : jsstring_eqb CONNECTERROR ERROR = false.
Proof. reflexivity. Qed.

(** [[1006, 4040].includes(code)]. *)
Definition abnormal (code : Z) : bool := (code =? 1006) || (code =? 4040).

(** A reconnecting client ignores a close event with code 1006 or 4040:
    the listeners of the connect-error event are called and nothing is
    scheduled. *)
Lemma on_close_while_reconnecting (code : Z) (reason : value) (c : client) :
  reconnecting c = true -> abnormal code = true ->
  exists c',
    on_close code reason c = Return tt c'
    /\ reconnecting c' = true
    /\ timers c' = timers c
    /\ exists suffix, trace c' = trace c ++ suffix /\ scheduled suffix = [].
Proof.
  intros Hr Hc. unfold on_close.
  destruct (emit_spec CONNECTERROR reason (console "received close frame" c)
              CONNECTERROR_not_error) as (b & c1 & E & S & T & _).
  rewrite E. cbn [bind]. fold (abnormal code). rewrite Hc.
  destruct S as (_ & _ & _ & Hrec & _ & _ & _ & _ & _ & Htim & _).
  fields. rewrite Hrec, Hr. exists c1.
  repeat split; try congruence.
  eexists. split.
  - rewrite T. fields. rewrite <- app_assoc. reflexivity.
  - unfold scheduled. cbn [app flat_map]. apply scheduled_invocations.
Qed.





(** A client whose socket is open, with its heartbeat timer pending. *)
Definition open_client : client :=
  match deliver 1 OnOpen
          (connect None (lit "ws://hub:80")
             (constructor SendFacts.node_env None)) with
  | Some (Return _ c) => c
  | _ => constructor SendFacts.node_env None
  end.


End ConnectionFacts.

Module OpenFacts.
Import Client EmitterFacts SendFacts.

Lemma encode_object (m : list (jsstring * json)) :
  Codec.encode (VJson (JObj m))
  = Ok (VBuffer (Buffer.from (Json.stringify (JObj m)))).
Proof. reflexivity. Qed.

Lemma TIMEOUTEVENT_not_error : jsstring_eqb TIMEOUTEVENT ERROR = false.
Proof. reflexivity. Qed.

Lemma set_serviceList_same (c : client) :
  set_serviceList c (serviceList c) = c.
Proof. destruct c; reflexivity. Qed.

Lemma telemetry_returns (c : client) (o : option json) :
  options c = Some o ->
  exists m x,
    telemetry c = Return (VJson (JObj m)) (set_serviceList c x)
    /\ get_eventName (VJson (JObj m)) = Ok (Some (JStr (lit "telemetry"))).
Proof.
  intros Ho. unfold telemetry, services. rewrite Ho.
  destruct o as [l|]; cbn [bind].
  - eexists _, l. split; reflexivity.
  - eexists _, (serviceList c). rewrite set_serviceList_same.
    split; reflexivity.
Qed.

Definition connected_client : client :=
  connect None (lit "ws://hub:80") (constructor node_env None).

End OpenFacts.

Module HeartbeatFacts.
Import Client Trace EmitterFacts SendFacts OpenFacts.

(** C6 (heartbeat), at the failing input.  A client connects and its
    socket opens ([c1]: a ping is sent and the pong flag lowered); no
    pong arrives and the heartbeat timer fires ([c2]: the socket is closed
    with 4877 and a reconnect set for 5000 ms); the reconnect timer fires
    and the new socket opens ([c4]).  On this second open no ping is
    sent: the pong flag is still lowered, so [heartbeat] closes the new
    socket with 4877 at once and sets another reconnect. *)
Theorem second_open_sends_no_ping :
  exists c1 c2 c3 c4,
    deliver 1 OnOpen connected_client = Some (Return tt c1)
    /\ existsb is_ping (since connected_client c1) = true
    /\ fire 1 1 [] c1 = Some (Return tt c2)
    /\ existsb (is_close 4877) (since c1 c2) = true
    /\ scheduled (since c1 c2) = [(CbConnect, 5000)]
    /\ fire 1 3 (lit "ws://hub:80") c2 = Some (Return tt c3)
    /\ pong c3 = false
    /\ deliver 1 OnOpen c3 = Some (Return tt c4)
    /\ existsb is_ping (since c3 c4) = false
    /\ existsb (is_close 4877) (since c3 c4) = true
    /\ ws c4 = None.
Proof.
  do 4 eexists.
  split; [vm_compute; reflexivity|].
  split; [vm_compute; reflexivity|].
  split; [vm_compute; reflexivity|].
  split; [vm_compute; reflexivity|].
  split; [vm_compute; reflexivity|].
  split; [vm_compute; reflexivity|].
  split; [vm_compute; reflexivity|].
  split; [vm_compute; reflexivity|].
  split; [vm_compute; reflexivity|].
  split; vm_compute; reflexivity.
Qed.

(** A frame that decodes to a record named telemetry. *)
Definition telemetry_frame (frame : value) : Prop :=
  exists t,
    Codec.decode frame = Ok t
    /\ get_eventName t = Ok (Some (JStr (lit "telemetry"))).

(** A client that has called [connect] and holds one queued envelope. *)
Definition one_queued : client := push (envelope 1) connected_client.

(** A stretch of the trace without the calls of listeners. *)
Definition own_effects (tr : list effect) : list effect :=
  filter (fun x => match x with Invoke _ _ => false | _ => true end) tr.

(** C7 (order of the open handler), at the failing input.  A client
    connects with one envelope queued and its socket opens ([c1]); the
    flush timer fires ([c2]); no pong arrives and the heartbeat timer
    fires ([c3]); the reconnect timer fires ([c4]) and the new socket
    opens ([c5]).  On the first open the handler clears the reconnecting
    flag, transmits the telemetry record as the first frame, starts the
    monitor (one ping, one heartbeat timer) and sets the flush timer,
    which transmits the queued envelope when it fires after 1000 ms.
    On the second open the telemetry record is again the first frame,
    but no monitor is started: with the pong flag still lowered
    [heartbeat] sends no ping and sets no heartbeat timer, it closes
    the socket that has just opened with 4877, raises the reconnecting
    flag that the handler had cleared and sets a reconnect; the flush
    timer is set all the same, on a client without socket. *)
Theorem second_open_starts_no_monitor :
  exists c1 c2 c3 c4 c5 frame1 frame2 data,
    deliver 1 OnOpen one_queued = Some (Return tt c1)
    /\ reconnecting c1 = false
    /\ since one_queued c1
       = [Console "connection open"; WsSend frame1; WsPing;
          SetTimeout 1 CbHeartbeat 10000; SetTimeout 2 CbSendQueuedMsgs 1000]
    /\ telemetry_frame frame1
    /\ fire 3 2 [] c1 = Some (Return tt c2)
    /\ Codec.encode (envelope 1) = Ok data
    /\ since c1 c2 = [WsSend data] /\ sendQueue c2 = []
    /\ fire 1 1 [] c2 = Some (Return tt c3)
    /\ fire 1 3 (lit "ws://hub:80") c3 = Some (Return tt c4)
    /\ ws c4 = Some {| readyState := CONNECTING; bufferedAmount := 0 |}
    /\ reconnecting c4 = true /\ pong c4 = false
    /\ deliver 1 OnOpen c4 = Some (Return tt c5)
    /\ own_effects (since c4 c5)
       = [Console "connection open"; WsSend frame2;
          Console "timeout"; Console "closing socket"; WsRemoveAllListeners;
          WsClose 4877 (VJson (JStr (lit "timeout"))); WsTerminate;
          SetTimeout 4 CbConnect 5000; SetTimeout 5 CbSendQueuedMsgs 1000]
    /\ telemetry_frame frame2
    /\ ws c5 = None /\ reconnecting c5 = true /\ pong c5 = false.
Proof.
  do 8 eexists.
  split; [vm_compute; reflexivity|].
  split; [vm_compute; reflexivity|].
  split; [vm_compute; reflexivity|].
  split; [eexists; split; vm_compute; reflexivity|].
  split; [vm_compute; reflexivity|].
  split; [vm_compute; reflexivity|].
  split; [vm_compute; reflexivity|].
  split; [vm_compute; reflexivity|].
  split; [vm_compute; reflexivity|].
  split; [vm_compute; reflexivity|].
  split; [vm_compute; reflexivity|].
  split; [vm_compute; reflexivity|].
  split; [vm_compute; reflexivity|].
  split; [vm_compute; reflexivity|].
  split; [vm_compute; reflexivity|].
  split; [eexists; split; vm_compute; reflexivity|].
  split; [vm_compute; reflexivity|].
  split; vm_compute; reflexivity.
Qed.

(** With the pong flag raised, [heartbeat] lowers it, sends one ping and
    sets the timer that calls it again after [heartbeatms]. *)
Lemma heartbeat_probe (c : client) (s : socket) :
  ws c = Some s -> pong c = true ->
  exists c',
    heartbeat c = Return tt c'
    /\ pong c' = false
    /\ timerId c' = nextTimer c
    /\ trace c' = trace c ++ [WsPing; SetTimeout (nextTimer c) CbHeartbeat
                                         (heartbeatms (env c))].
Proof.
  intros Hws Hp. unfold heartbeat. rewrite Hp. fields. rewrite Hws.
  unfold setTimeout. fields. eexists. split; [reflexivity|]. fields.
  repeat split. now rewrite <- app_assoc.
Qed.

Lemma heartbeatms_default (e : environment) :
  config_heartbeat e = None -> heartbeatms e = 10000.
Proof. unfold heartbeatms. now intros ->. Qed.

(** With the pong flag lowered and no reconnect under way, [heartbeat]
    closes the socket with 4877, sets one reconnect for 5000 ms and
    emits the timeout event. *)
Lemma heartbeat_timeout (c : client) (s : socket) (o : option json) :
  ws c = Some s -> options c = Some o ->
  pong c = false -> reconnecting c = false ->
  exists c',
    heartbeat c = Return tt c'
    /\ ws c' = None /\ reconnecting c' = true
    /\ exists t invoked,
         trace c' = trace c
                    ++ [Console "timeout"; Console "closing socket";
                        WsRemoveAllListeners;
                        WsClose 4877 (VJson (JStr (lit "timeout")));
                        WsTerminate; SetTimeout (nextTimer c) CbConnect 5000]
                    ++ map (fun l => Invoke l t) invoked
         /\ get_eventName t = Ok (Some (JStr (lit "telemetry")))
         /\ invoked = registered TIMEOUTEVENT c.
Proof.
  intros Hws Ho Hp Hr. unfold heartbeat. rewrite Hp, Hr.
  unfold close. fields. rewrite Hws. cbn [bind]. unfold setTimeout. fields.
  match goal with
  | |- context [telemetry ?x] =>
      destruct (telemetry_returns x o Ho) as (m & x' & T & N)
  end.
  rewrite T. cbn [bind].
  match goal with
  | |- context [emit TIMEOUTEVENT ?t ?x] =>
      destruct (emit_spec TIMEOUTEVENT t x TIMEOUTEVENT_not_error)
        as (b' & c' & E & S & Tr & _)
  end.
  rewrite E. cbn [bind]. exists c'. split; [reflexivity|].
  destruct S as (W & _ & _ & R & _). fields. split; [exact W|].
  split; [exact R|]. eexists _, _. split; [|split; [exact N | reflexivity]].
  rewrite Tr. fields. repeat rewrite <- app_assoc. reflexivity.
Qed.

(** The same on every open event that finds the pong flag lowered. *)
Lemma open_with_lowered_pong (fuel : nat) (c : client) (s : socket)
  (o : option json) :
  ws c = Some s -> options c = Some o -> pong c = false ->
  exists c', deliver (S fuel) OnOpen c = Some (Return tt c') /\ ws c' = None.
Proof.
  intros Hws Ho Hp. unfold deliver. rewrite Hws. unfold on_open.
  match goal with
  | |- context [telemetry ?x] =>
      destruct (telemetry_returns x o Ho) as (m & x' & T & N)
  end.
  rewrite T. rewrite send_ready by reflexivity.
  unfold invoke, transmit. rewrite encode_object.
  unfold heartbeat.
  destruct (breaker_closed _); unfold detectErrors, subscribe;
    cbn [fold_left]; fields; rewrite Hp; cbv iota;
    unfold close; fields; cbv iota; cbn [bind];
    unfold setTimeout, telemetry, services; fields; rewrite Ho;
    destruct o as [l|]; cbn [bind];
    match goal with
    | |- context [emit TIMEOUTEVENT ?t ?x] =>
        destruct (emit_spec TIMEOUTEVENT t x TIMEOUTEVENT_not_error)
          as (b' & c'' & E' & S' & _)
    end;
    rewrite E'; cbn [bind]; (eexists; split; [reflexivity|]); fields;
    destruct S' as (W & _); exact W.
Qed.

End HeartbeatFacts.

Module CloseFacts.
Import Client.

(** C9 (close without a socket).  On every client that holds no socket,
    [close] throws a [TypeError]; all it has done is write its console
    line. *)
Theorem close_without_socket_throws (code : Z) (reason : value) (c : client) :
  ws c = None ->
  close code reason c = Raise TypeError (console "closing socket" c).
Proof. intros H. unfold close. fields. now rewrite H. Qed.

Lemma close_without_socket_throws_witness :
  close 1000 (VJson (JStr (lit "bye"))) (constructor SendFacts.node_env None)
  = Raise TypeError (console "closing socket" (constructor SendFacts.node_env None)).
Proof.
  apply (close_without_socket_throws 1000 (VJson (JStr (lit "bye")))
           (constructor SendFacts.node_env None)).
  reflexivity.
Defined.

(** After [close] has run once the client holds no socket, so that a
    second [close] throws. *)
Lemma close_twice_throws (code : Z) (reason : value) (c c' : client) :
  close code reason c = Return tt c' ->
  close code reason c' = Raise TypeError (console "closing socket" c').
Proof.
  intros H. unfold close in *. fields.
  destruct (ws c); [|discriminate]. inversion H. reflexivity.
Qed.

End CloseFacts.

Module DispatchFacts.
Import Client Trace EmitterFacts SendFacts.

(** The value has no [eventName] field. *)
Definition lacks_eventName (event : value) : bool :=
  match event with
  | VJson (JObj m) => negb (existsb (fun p => jsstring_eqb (fst p) EVENTNAME) m)
  | _ => true
  end.

(** [null] or [undefined]. *)
Definition nullish (event : value) : bool :=
  match event with
  | VUndefined | VJson JNull => true
  | _ => false
  end.

Lemma get_eventName_lacking (event : value) :
  lacks_eventName event = true -> nullish event = false ->
  get_eventName event = Ok None.
Proof.
  destruct event as [| | | n | j | b]; try discriminate; try reflexivity.
  destruct j as [| b | n | s | l | m]; try discriminate; try reflexivity.
  cbn [lacks_eventName get_eventName]. intros H _.
  apply negb_true_iff in H.
  destruct (find _ m) as [p|] eqn:F; [|reflexivity].
  apply find_some in F as [Hin Hk].
  assert (E : existsb (fun p => jsstring_eqb (fst p) EVENTNAME) m = true)
    by (apply existsb_exists; eauto).
  congruence.
Qed.

(** C8 amended.  For every inbound frame whose decoded result is a value
    other than [null] and [undefined] that has no [eventName] field, the
    handler calls the listeners of the missing-event-name diagnostic with
    the decoded result, in registration order, and calls nothing else:
    no listener of any other name and no wildcard listener. *)
Theorem frame_without_event_name (message event : value) (c : client) :
  Codec.decode message = Ok event ->
  lacks_eventName event = true ->
  nullish event = false ->
  trace (on_message message c)
  = trace c ++ map (fun l => Invoke l event) (registered MISSINGEVENTNAME c)
  /\ same_connection c (on_message message c).
Proof.
  intros D L N. unfold on_message.
  rewrite (decode_console_defined message event D), consoles_nil
    by (intros ->; discriminate).
  rewrite D, (get_eventName_lacking event L N). cbn [falsy].
  destruct (emit_spec MISSINGEVENTNAME event c eq_refl) as (b & c' & E & S & T & _).
  rewrite E. auto.
Qed.

(** The frame that carries the JSON text of [j]. *)
Definition frame (j : json) : value :=
  VBuffer (Buffer.from (Json.stringify j)).

Definition a1 : json := JObj [(lit "a", JNum 1)].

(** A client with a subscriber to the diagnostic and a wildcard
    subscriber. *)
Definition subscribed_client : client :=
  subscribe WILDCARD (Subscriber 1)
    (subscribe MISSINGEVENTNAME (Subscriber 2) (constructor node_env None)).

Lemma frame_without_event_name_witness :
  trace (on_message (frame a1) subscribed_client)
  = trace subscribed_client
    ++ map (fun l => Invoke l (VJson a1))
         (registered MISSINGEVENTNAME subscribed_client)
  /\ same_connection subscribed_client (on_message (frame a1) subscribed_client).
Proof.
  apply (frame_without_event_name (frame a1) (VJson a1) subscribed_client).
  - vm_compute. reflexivity.
  - reflexivity.
  - reflexivity.
Defined.

(** C8 as stated: whenever the decoded result has no [eventName] field,
    the listeners of the diagnostic are called with it. *)
Definition missing_name_stated : Prop :=
  forall message event c,
    Codec.decode message = Ok event ->
    lacks_eventName event = true ->
    trace (on_message message c)
    = trace c ++ map (fun l => Invoke l event) (registered MISSINGEVENTNAME c).

(** C8 as stated fails on the frame [null]: it decodes to [null], which
    has no [eventName] field, and the handler only logs the [TypeError]
    of reading the field; the subscriber to the diagnostic is not
    called. *)
Lemma null_frame_raises_no_diagnostic : ~ missing_name_stated.
Proof.
  intros H.
  specialize (H (frame JNull) (VJson JNull) subscribed_client).
  assert (T : trace (on_message (frame JNull) subscribed_client)
              = [Console "connect error"]) by (vm_compute; reflexivity).
  rewrite T in H. specialize (H ltac:(vm_compute; reflexivity) eq_refl).
  vm_compute in H. discriminate.
Qed.

Definition failure_names : list jsstring :=
  [TIMEOUTEVENT; CONNECTERROR; WSOCKETERROR].

Definition is_failure_name (name : jsstring) : bool :=
  existsb (jsstring_eqb name) failure_names.

Lemma jsstring_eqb_eq (a b : jsstring) : jsstring_eqb a b = true -> a = b.
Proof.
  unfold jsstring_eqb. now destruct (list_eq_dec Z.eq_dec a b).
Qed.

Lemma is_failure_name_In (name : jsstring) :
  is_failure_name name = true -> In name failure_names.
Proof.
  unfold is_failure_name. intros H. apply existsb_exists in H as (x & Hx & E).
  apply jsstring_eqb_eq in E. now subst.
Qed.

Lemma failure_name_cases (name : jsstring) :
  In name failure_names ->
  jsstring_eqb name ERROR = false /\ falsy (Some (JStr name)) = false.
Proof.
  intros [<- | [<- | [<- | []]]]; split; reflexivity.
Qed.

Lemma registered_subscribe (name k : jsstring) (l : listener) (c : client) :
  registered name (subscribe k l c)
  = registered name c ++ (if jsstring_eqb k name then [l] else []).
Proof.
  unfold registered, subscribe. fields.
  rewrite filter_app, map_app. cbn [filter fst].
  destruct (jsstring_eqb k name); reflexivity.
Qed.

(** Every [send] that finds the socket ready registers the breaker's
    error detector under each failure name. *)
Lemma send_registers_detectors (f : nat) (msg : value) (c c' : client)
  (name : jsstring) :
  ready c = true -> send (S f) msg c = Some (true, c') ->
  In name failure_names ->
  In ErrorDetector (registered name c').
Proof.
  intros Hr Hs Hn. rewrite send_ready in Hs by assumption.
  inversion Hs as [E]. clear Hs E.
  assert (R : forall x, same_connection x (invoke transmit msg x)).
  { intros x. unfold invoke, transmit.
    destruct (breaker_closed x); [|apply same_connection_refl].
    destruct (Codec.encode msg); repeat split. }
  rewrite (registered_same name _ _ (R _)).
  unfold detectErrors. cbn [fold_left]. rewrite !registered_subscribe.
  rewrite !in_app_iff.
  destruct Hn as [<- | [<- | [<- | []]]]; cbn; tauto.
Qed.

(** What the handler does with a frame named after a failure event,
    next to what an internal [emit] of that name does. *)
Definition dispatched_like_failure (message : value)
  (m : list (jsstring * json)) (name : jsstring) (c : client) : Prop :=
  (forall arg, exists b ci,
      emit name arg c = Return b ci
      /\ trace ci = trace c ++ map (fun l => Invoke l arg) (registered name c)
      /\ failures ci = (failures c + detectors (registered name c))%nat)
  /\ trace (on_message message c)
     = trace c ++ map (fun l => Invoke l (VJson (JObj m))) (registered name c)
               ++ map (fun l => Invoke l (VJson (JObj m))) (registered WILDCARD c)
  /\ invoked (since c (on_message message c))
     = registered name c ++ registered WILDCARD c
  /\ failures (on_message message c)
     = (failures c + detectors (registered name c)
        + detectors (registered WILDCARD c))%nat
  /\ (forall f msg c0,
        ready c0 = true -> send (S f) msg c0 = Some (true, c) ->
        In ErrorDetector (registered name c)).

(** C10 amended.  For every inbound frame whose [eventName] is one of
    the three failure names: an internal [emit] of that name calls the
    listeners registered under it, in registration order; the handler of
    the frame calls the same listeners in the same order, with the frame
    as argument, and after them the wildcard listeners; among the first
    are the error detectors that [send] registers, and the failure count
    of the breaker rises by the number of detectors called. *)
Theorem failure_named_frame_reaches_detectors (message : value)
  (m : list (jsstring * json)) (name : jsstring) (c : client) :
  Codec.decode message = Ok (VJson (JObj m)) ->
  get_eventName (VJson (JObj m)) = Ok (Some (JStr name)) ->
  is_failure_name name = true ->
  dispatched_like_failure message m name c.
Proof.
  intros D N Hn. apply is_failure_name_In in Hn.
  destruct (failure_name_cases name Hn) as (Ne & Nf).
  assert (T0 : trace (on_message message c)
     = trace c ++ map (fun l => Invoke l (VJson (JObj m))) (registered name c)
               ++ map (fun l => Invoke l (VJson (JObj m))) (registered WILDCARD c)).
  { unfold on_message.
    rewrite (decode_console_defined message _ D), consoles_nil by discriminate.
    rewrite D, N, Nf. cbn [to_key].
    destruct (emit_spec name (VJson (JObj m)) c Ne) as (b & c' & E & S & T & F).
    rewrite E.
    destruct (invoke_all_spec (VJson (JObj m)) (registered WILDCARD c') c')
      as (_ & T' & _).
    rewrite T', T, (registered_same WILDCARD c c' S), <- app_assoc. reflexivity. }
  split; [|split; [exact T0|split; [|split]]].
  - intros arg. destruct (emit_spec name arg c Ne) as (b & ci & E & _ & T & F).
    eauto.
  - rewrite (since_suffix _ _ _ T0), invoked_app, !invoked_invocations.
    reflexivity.
  - unfold on_message.
    rewrite (decode_console_defined message _ D), consoles_nil by discriminate.
    rewrite D, N, Nf. cbn [to_key].
    destruct (emit_spec name (VJson (JObj m)) c Ne) as (b & c' & E & S & T & F).
    rewrite E.
    destruct (invoke_all_spec (VJson (JObj m)) (registered WILDCARD c') c')
      as (_ & _ & F').
    rewrite F', F, (registered_same WILDCARD c c' S). reflexivity.
  - intros f msg c0 Hr Hs. exact (send_registers_detectors f msg c0 c name Hr Hs Hn).
Qed.

Definition timeout_named : list (jsstring * json) :=
  [(EVENTNAME, JStr TIMEOUTEVENT)].

(** A client with a wildcard subscriber. *)
Definition listening_client : client :=
  subscribe WILDCARD (Subscriber 1) (constructor node_env None).

(** A client with a wildcard subscriber whose socket has opened: sending
    the telemetry record has registered the error detectors. *)
Definition listening_open_client : client :=
  subscribe WILDCARD (Subscriber 1) ConnectionFacts.open_client.

Lemma failure_named_frame_reaches_detectors_witness :
  dispatched_like_failure (frame (JObj timeout_named)) timeout_named
    TIMEOUTEVENT listening_open_client.
Proof.
  apply (failure_named_frame_reaches_detectors
           (frame (JObj timeout_named)) timeout_named TIMEOUTEVENT
           listening_open_client).
  - vm_compute. reflexivity.
  - reflexivity.
  - reflexivity.
Defined.

(** C10 as stated: the listeners called for a frame named after a
    failure event are exactly those registered under that name, the ones
    that an internal [emit] of the name calls. *)
Definition shared_namespace_stated : Prop :=
  forall message m name c,
    Codec.decode message = Ok (VJson (JObj m)) ->
    get_eventName (VJson (JObj m)) = Ok (Some (JStr name)) ->
    is_failure_name name = true ->
    invoked (since c (on_message message c)) = registered name c.

(** C10 as stated fails when a wildcard listener is subscribed: the
    frame named after the timeout event calls that listener, which an
    internal [emit] of the timeout event does not call. *)
Lemma failure_named_frame_calls_wildcard : ~ shared_namespace_stated.
Proof.
  intros H.
  specialize (H (frame (JObj timeout_named)) timeout_named TIMEOUTEVENT
                listening_client ltac:(vm_compute; reflexivity) eq_refl eq_refl).
  vm_compute in H. discriminate.
Qed.

End DispatchFacts.

Module SpillFacts.
Import Client Trace EmitterFacts SendFacts.

Lemma pop_last (q : list value) :
  q <> [] -> exists msg rest, pop q = Some (msg, rest) /\ q = rest ++ [msg].
Proof.
  intros H. destruct (exists_last H) as (rest & msg & ->).
  exists msg, rest. split; [apply pop_push | reflexivity].
Qed.

(** With the socket not ready and the queue at or above one and a half
    times the limit, every entry that [sendQueuedMsgs] pops is pushed
    back by [send], which starts one more [stat]: the loop has no end. *)
Lemma drain_never_ends (f n : nat) : forall c,
  ready c = false ->
  0 <= sendQueueLimit c < Z.of_nat (List.length (sendQueue c)) ->
  3 * sendQueueLimit c <= 2 * Z.of_nat (List.length (sendQueue c)) ->
  sendQueuedMsgs_loop (send (S f)) n c = None.
Proof.
  induction n as [|n IH]; intros c Hr Hl Hs; [reflexivity|].
  cbn [sendQueuedMsgs_loop].
  destruct (pop_last (sendQueue c)) as (msg & rest & P & Q).
  { intros E. rewrite E in Hl. cbn in Hl. lia. }
  rewrite P. rewrite Q, length_app in Hl, Hs. cbn [List.length] in Hl, Hs.
  cbn [send]. change (ready (set_sendQueue c rest)) with (ready c). rewrite Hr.
  fields.
  replace (Z.of_nat (List.length rest) <? sendQueueLimit c) with false
    by (symmetry; apply Z.ltb_ge; lia).
  unfold manageSendQueue_with, saveSendQueue. fields.
  rewrite length_app. cbn [List.length].
  replace (_ <? _) with false by (symmetry; apply Z.ltb_ge; lia).
  apply IH; fields.
  - exact Hr.
  - rewrite length_app. cbn [List.length]. lia.
  - rewrite length_app. cbn [List.length]. lia.
Qed.

Lemma spill_never_returns_while_down (fuel : nat) (c : client)
  (bytes : list Z) (stored : list json) :
  ready c = false ->
  0 <= sendQueueLimit c < Z.of_nat (List.length (sendQueue c)) ->
  3 * sendQueueLimit c <= 2 * Z.of_nat (List.length (sendQueue c)) ->
  file c = Some bytes ->
  Z.of_nat (List.length bytes) <= 99999999 ->
  read_stored bytes = Ok (VJson (JArr stored)) ->
  saveSendQueue_stat (resend_queue fuel) c = None.
Proof.
  intros Hr Hl Hs Hf Hb Hp. unfold saveSendQueue_stat. rewrite Hf.
  replace (_ >? _) with false by (symmetry; rewrite Z.gtb_ltb; apply Z.ltb_ge; lia).
  rewrite Hp. unfold resend_queue, sendQueuedMsgs.
  destruct fuel as [|f]; [reflexivity|]. now rewrite drain_never_ends.
Qed.

(** A client whose limit is set to two, next to a queue file that holds
    the empty array. *)
Definition small_client : client :=
  set_sendQueueLimit (constructor node_env (Some (Buffer.from (lit "[]")))) 2.

Definition three : list value := [envelope 1; envelope 2; envelope 3].

(** C4 (spill to disk), at the failing input.  With the limit at two,
    three envelopes are published before the socket opens: the third
    starts the spill ([c1]).  If the socket opens ([c2]) before the
    callback of [stat] runs ([c3]), the sender transmits the three
    queued envelopes and resolves to the whole combined queue, so that
    the three transmitted envelopes are written to the file.  If the
    socket is still down when the callback runs, the sender does not
    return and nothing is written. *)
Theorem spill_writes_back_what_was_sent :
  exists c1 c2 c3 written,
    publish_all 1 [] three small_client = Some c1
    /\ sendQueue c1 = three /\ stats (trace c1) = 1%nat
    /\ deliver 1 OnOpen c1 = Some (Return tt c2)
    /\ saveSendQueue_stat (resend_queue 4) c2 = Some (Return tt c3)
    /\ map Ok (sent (since c2 c3)) = map Codec.encode (rev three)
    /\ sendQueue c3 = []
    /\ queue_bytes three = Ok written
    /\ file c3 = Some written
    /\ forall fuel, saveSendQueue_stat (resend_queue fuel) c1 = None.
Proof.
  do 4 eexists.
  split; [vm_compute; reflexivity|].
  split; [vm_compute; reflexivity|].
  split; [vm_compute; reflexivity|].
  split; [vm_compute; reflexivity|].
  split; [vm_compute; reflexivity|].
  split; [vm_compute; reflexivity|].
  split; [vm_compute; reflexivity|].
  split; [vm_compute; reflexivity|].
  split; [vm_compute; reflexivity|].
  intros fuel.
  apply (spill_never_returns_while_down fuel _ (Buffer.from (lit "[]")) []).
  - reflexivity.
  - vm_compute. split; [discriminate | reflexivity].
  - vm_compute. discriminate.
  - reflexivity.
  - vm_compute. discriminate.
  - vm_compute. reflexivity.
Qed.

(** What [saveSendQueue] does with an arbitrary sender when the queue
    is at or above one and a half times the limit: [stat] is started
    and the sender is not called; on the callback of [stat] a file above
    the size cap is left as it is, with a console line; otherwise the
    stored entries followed by the queue in memory are given to the
    sender, and what the sender resolves to is written to the file. *)
Lemma saveSendQueue_spills (sender : resend) (c : client) :
  3 * sendQueueLimit c <= 2 * Z.of_nat (List.length (sendQueue c)) ->
  saveSendQueue sender c = Some (perform Stat c).
Proof.
  intros H. unfold saveSendQueue.
  now replace (_ <? _) with false by (symmetry; apply Z.ltb_ge; lia).
Qed.

Lemma saveSendQueue_stat_too_large (sender : resend) (c : client)
  (bytes : list Z) :
  file c = Some bytes -> 99999999 < Z.of_nat (List.length bytes) ->
  saveSendQueue_stat sender c
  = Some (Return tt (console "queue backing store too large" c)).
Proof.
  intros Hf Hb. unfold saveSendQueue_stat. rewrite Hf.
  now replace (_ >? _) with true by (symmetry; rewrite Z.gtb_ltb; apply Z.ltb_lt; lia).
Qed.

Lemma saveSendQueue_stat_writes (sender : resend) (c c' : client)
  (bytes written : list Z) (stored : list json) (unsent : list value) :
  file c = Some bytes -> Z.of_nat (List.length bytes) <= 99999999 ->
  read_stored bytes = Ok (VJson (JArr stored)) ->
  sender (map VJson stored ++ sendQueue c) c = Some (Return unsent c') ->
  queue_bytes unsent = Ok written ->
  saveSendQueue_stat sender c = Some (Return tt (writeFileSync written c')).
Proof.
  intros Hf Hb Hp Hs Hw. unfold saveSendQueue_stat. rewrite Hf.
  replace (_ >? _) with false by (symmetry; rewrite Z.gtb_ltb; apply Z.ltb_ge; lia).
  now rewrite Hp, Hs, Hw.
Qed.

(** The sender of [manageSendQueue] resolves to the queue it was given,
    whatever it has transmitted. *)
Lemma resend_queue_resolves_to_its_argument (fuel : nat) (queue : list value)
  (c : client) (r : completion (list value)) :
  resend_queue fuel queue c = Some r -> exists c', r = Return queue c'.
Proof.
  unfold resend_queue. destruct (sendQueuedMsgs fuel c) as [c'|]; [|discriminate].
  intros H. inversion H. now exists c'.
Qed.

End SpillFacts.

(** ** More on the send queue: flush and publish *)

Module QueueFacts.
Import Client Trace EmitterFacts SendFacts.

Lemma pop_none (q : list value) : pop q = None -> q = [].
Proof.
  destruct q as [|x q]; [reflexivity|]. intros H. exfalso.
  destruct (exists_last (l := x :: q)) as (r & y & E); [discriminate|].
  rewrite E, pop_push in H. discriminate.
Qed.

Lemma loop_returns_empty (snd : sending) (n : nat) : forall c c',
  sendQueuedMsgs_loop snd n c = Some c' -> sendQueue c' = [].
Proof.
  induction n as [|n IH]; intros c c' H; [discriminate|].
  cbn [sendQueuedMsgs_loop] in H.
  destruct (pop (sendQueue c)) as [[msg rest]|] eqn:P.
  - destruct (snd msg (set_sendQueue c rest)) as [[b c1]|]; [|discriminate].
    exact (IH c1 c' H).
  - inversion H; subst. now apply pop_none.
Qed.

(** With the socket not ready, [send] puts back the entry that
    [sendQueuedMsgs] has taken off the queue, on each of its paths: the
    loop finds the queue as long as before. *)
Lemma flush_never_ends (f : nat) : forall n c,
  ready c = false -> sendQueue c <> [] ->
  sendQueuedMsgs_loop (send f) n c = None.
Proof.
  induction f as [|f IHf]; intros n c Hr Hq.
  - destruct n as [|n]; [reflexivity|]. cbn [sendQueuedMsgs_loop].
    destruct (SpillFacts.pop_last (sendQueue c) Hq) as (msg & rest & P & _).
    now rewrite P.
  - induction n as [|n IHn] in c, Hr, Hq |- *; [reflexivity|].
    cbn [sendQueuedMsgs_loop].
    destruct (SpillFacts.pop_last (sendQueue c) Hq) as (msg & rest & P & Q).
    rewrite P. cbn [send].
    change (ready (set_sendQueue c rest)) with (ready c). rewrite Hr. fields.
    assert (Hne : rest ++ [msg] <> []) by now destruct rest.
    destruct (_ <? _).
    + apply IHn; fields; [exact Hr | exact Hne].
    + unfold manageSendQueue_with, saveSendQueue. fields.
      destruct (_ <? _).
      * rewrite IHf; fields; [reflexivity | exact Hr | exact Hne].
      * apply IHn; fields; [exact Hr | exact Hne].
Qed.

(** X2.  With the socket not ready and the queue not empty and within
    the limit, [sendQueuedMsgs] spins: [send] pushes the entry that the
    loop has popped, which gives back the state the loop started from,
    and no amount of fuel lets the call return.  No call is nested: the
    depth of the stack plays no part. *)
Theorem flush_without_socket_spins (c : client) :
  ready c = false -> sendQueue c <> [] ->
  Z.of_nat (List.length (sendQueue c)) <= sendQueueLimit c ->
  (exists msg rest,
      pop (sendQueue c) = Some (msg, rest)
      /\ forall f, send (S f) msg (set_sendQueue c rest) = Some (false, c))
  /\ forall fuel, sendQueuedMsgs fuel c = None.
Proof.
  intros Hr Hq Hl.
  destruct (SpillFacts.pop_last (sendQueue c) Hq) as (msg & rest & P & Q).
  assert (B : forall f, send (S f) msg (set_sendQueue c rest) = Some (false, c)).
  { intros f. rewrite send_queued.
    - unfold push. fields. rewrite <- Q. destruct c; reflexivity.
    - exact Hr.
    - fields. rewrite Q, length_app in Hl. cbn [List.length] in Hl. lia. }
  split; [now exists msg, rest|].
  intros [|f]; [reflexivity|]. unfold sendQueuedMsgs.
  generalize (S f) at 2. intros n.
  induction n as [|n IH]; [reflexivity|].
  cbn [sendQueuedMsgs_loop]. now rewrite P, B.
Qed.

(** The entry is of a kind that [encode] accepts. *)
Definition encodable (v : value) : bool :=
  match Codec.encode v with
  | Ok _ => true
  | Throw _ => false
  end.

Lemma sent_app (a b : list effect) : sent (a ++ b) = sent a ++ sent b.
Proof. unfold sent. now rewrite flat_map_app. Qed.

Lemma sent_consoles (lines : list string) : sent (map Console lines) = [].
Proof. induction lines as [|x l IH]; [reflexivity | exact IH]. Qed.

Lemma send_ready_transmits (f : nat) (msg data : value) (c : client) :
  ready c = true -> breaker_closed c = true -> Codec.encode msg = Ok data ->
  exists c',
    send (S f) msg c = Some (true, c')
    /\ ready c' = true /\ breaker_closed c' = true
    /\ sendQueue c' = sendQueue c /\ ws c' = ws c
    /\ trace c' = trace c ++ map Console (Codec.encode_console msg)
                           ++ [WsSend data].
Proof.
  intros Hr Hb He. rewrite send_ready by exact Hr.
  eexists. split; [reflexivity|].
  unfold invoke, transmit, detectErrors, subscribe. cbn [fold_left].
  unfold breaker_closed in *. unfold ready in *. fields. rewrite Hb, He. fields.
  rewrite <- app_assoc. auto.
Qed.

Lemma flush_trace (f : nat) : forall (q : list value) (n : nat) (c : client),
  ready c = true -> breaker_closed c = true -> sendQueue c = q ->
  forallb encodable q = true -> (List.length q < n)%nat ->
  exists c' suffix,
    sendQueuedMsgs_loop (send (S f)) n c = Some c'
    /\ trace c' = trace c ++ suffix
    /\ map Ok (sent suffix) = map Codec.encode (rev q).
Proof.
  induction q as [|x q IH] using rev_ind; intros n c Hr Hb Hq He Hn.
  - destruct n as [|n]; [simpl in Hn; lia|].
    cbn [sendQueuedMsgs_loop]. rewrite Hq. cbn [pop rev].
    exists c, []. cbn [map]. now rewrite app_nil_r.
  - rewrite length_app in Hn. cbn [List.length] in Hn.
    destruct n as [|n]; [lia|].
    rewrite forallb_app in He. apply andb_true_iff in He as [Heq Hex].
    cbn [forallb] in Hex. rewrite andb_true_r in Hex. unfold encodable in Hex.
    destruct (Codec.encode x) as [data|] eqn:Ex; [|discriminate].
    cbn [sendQueuedMsgs_loop]. rewrite Hq, pop_push.
    destruct (send_ready_transmits f x data (set_sendQueue c q) Hr Hb Ex)
      as (c1 & S1 & R1 & B1 & Q1 & _ & T1).
    rewrite S1.
    destruct (IH n c1 R1 B1 Q1 Heq ltac:(lia)) as (c' & suffix & L & T & M).
    exists c', (map Console (Codec.encode_console x) ++ [WsSend data] ++ suffix).
    split; [exact L|]. split.
    + rewrite T, T1. fields. now rewrite <- !app_assoc.
    + rewrite rev_unit, !sent_app, sent_consoles. cbn [map app].
      change (sent [WsSend data]) with [data]. cbn [map app].
      now rewrite M, Ex.
Qed.

(** X3.  With the socket ready, the breaker closed and every queued
    entry of a kind that [encode] accepts, [sendQueuedMsgs] transmits the
    encoding of every queued entry, the entry queued last first, and
    leaves the queue empty. *)
Theorem flush_sends_newest_first (fuel : nat) (c : client) :
  ready c = true -> breaker_closed c = true ->
  forallb encodable (sendQueue c) = true ->
  (List.length (sendQueue c) < fuel)%nat ->
  exists c',
    sendQueuedMsgs fuel c = Some c'
    /\ map Ok (sent (since c c')) = map Codec.encode (rev (sendQueue c))
    /\ sendQueue c' = [].
Proof.
  intros Hr Hb He Hn. destruct fuel as [|f]; [lia|].
  destruct (flush_trace f (sendQueue c) (S f) c Hr Hb eq_refl He Hn)
    as (c' & suffix & L & T & M).
  exists c'. split; [exact L|]. split.
  - now rewrite (since_suffix _ _ _ T).
  - exact (loop_returns_empty _ _ _ _ L).
Qed.

(** X5.  On a client whose socket is ready and whose breaker is closed,
    [publish] of a message that [encode] accepts writes the console line
    of [connect], then what [encode] writes for a symbol or for
    [undefined], transmits the encoding of the message, once, and
    returns [true]; the queue and the socket are as before. *)
Theorem publish_on_ready_socket (f : nat) (url : jsstring) (msg data : value)
  (c : client) :
  ready c = true -> breaker_closed c = true -> Codec.encode msg = Ok data ->
  exists c',
    publish (S f) url msg c = Some (true, c')
    /\ since c c' = Console "conn already open"
                    :: map Console (Codec.encode_console msg) ++ [WsSend data]
    /\ sendQueue c' = sendQueue c /\ ws c' = ws c.
Proof.
  intros Hr Hb He. unfold publish, connect.
  assert (Hw : exists s, ws c = Some s).
  { unfold ready in Hr. destruct (ws c) as [s|]; [eauto | discriminate]. }
  destruct Hw as (s & Hw). rewrite Hw.
  destruct (send_ready_transmits f msg data (console "conn already open" c))
    as (c' & S1 & _ & _ & Q1 & W1 & T1); try assumption.
  exists c'. split; [exact S1|]. split; [|split; [exact Q1 | rewrite W1; exact Hw]].
  apply since_suffix. rewrite T1. fields. now rewrite <- app_assoc.
Qed.

(** The sockets that a stretch of the trace creates. *)
Definition sockets (tr : list effect) : list jsstring :=
  flat_map (fun x => match x with NewWebSocket url => [url] | _ => [] end) tr.

Lemma publish_all_connecting (fuel : nat) (url : jsstring) :
  forall msgs c s,
    ws c = Some s -> readyState s = CONNECTING ->
    Z.of_nat (List.length (sendQueue c) + List.length msgs) <= sendQueueLimit c ->
    exists c' suffix,
      publish_all (S fuel) url msgs c = Some c'
      /\ trace c' = trace c ++ suffix /\ sockets suffix = []
      /\ sendQueue c' = sendQueue c ++ msgs.
Proof.
  induction msgs as [|msg rest IH]; intros c s Hw Hs Hl.
  - exists c, []. now rewrite !app_nil_r.
  - cbn [publish_all]. unfold publish, connect. rewrite Hw.
    cbn [List.length] in Hl.
    rewrite send_queued; fields.
    + destruct (IH (push msg (console "conn already open" c)) s)
        as (c' & suffix & P & T & N & Q); fields.
      * exact Hw.
      * exact Hs.
      * rewrite length_app. cbn [List.length]. lia.
      * exists c', (Console "conn already open" :: suffix).
        split; [exact P|]. split; [|split].
        -- rewrite T. now rewrite <- app_assoc.
        -- exact N.
        -- rewrite Q. now rewrite <- app_assoc.
    + unfold ready. fields. rewrite Hw, Hs. reflexivity.
    + lia.
Qed.

(** X6.  Publishing one message after the other on a client without
    socket, within the room left in the queue, creates one socket, at the
    first [publish]: every later [publish] finds it and creates none. *)
Theorem publish_all_opens_one_socket (fuel : nat) (url : jsstring)
  (msgs : list value) (c : client) :
  ws c = None -> msgs <> [] ->
  Z.of_nat (List.length (sendQueue c) + List.length msgs) <= sendQueueLimit c ->
  exists c',
    publish_all (S fuel) url msgs c = Some c'
    /\ sockets (since c c') = [url]
    /\ sendQueue c' = sendQueue c ++ msgs.
Proof.
  intros Hw Hm Hl. destruct msgs as [|msg rest]; [contradiction|].
  cbn [publish_all]. unfold publish, connect. rewrite Hw.
  cbn [List.length] in Hl.
  rewrite send_queued; fields; [|reflexivity|lia].
  match goal with
  | |- context [publish_all _ _ _ ?x] =>
      destruct (publish_all_connecting fuel url rest x
                  {| readyState := CONNECTING; bufferedAmount := 0 |})
        as (c' & suffix & P & T & N & Q)
  end; fields; try reflexivity.
  - rewrite length_app. cbn [List.length]. lia.
  - exists c'. split; [exact P|]. split.
    + rewrite (since_suffix c c' (NewWebSocket url :: suffix)).
      * unfold sockets in *. cbn [flat_map app]. now rewrite N.
      * rewrite T. now rewrite <- app_assoc.
    + rewrite Q. now rewrite <- app_assoc.
Qed.

(** A client with two envelopes queued whose socket has opened. *)
Definition backlog_client : client :=
  match deliver 1 OnOpen
          (push (envelope 2)
             (push (envelope 1)
                (connect None (lit "ws://hub:80") (constructor node_env None))))
  with
  | Some (Return _ c) => c
  | _ => constructor node_env None
  end.

(** A client that has published two envelopes and whose socket has not
    opened yet. *)
Definition queued_client : client :=
  match publish_all 1 (lit "ws://hub:80") [envelope 1; envelope 2]
          (constructor node_env None) with
  | Some c => c
  | None => constructor node_env None
  end.

(** A symbol on a ready socket: the console line of the table entry,
    then [ws.send] of what [console.log] returned. *)
Lemma publish_symbol_on_ready_socket :
  exists c',
    publish 1 (lit "ws://hub:80") VSymbol backlog_client = Some (true, c')
    /\ since backlog_client c'
       = [Console "conn already open"; Console "unsupported";
          WsSend VUndefined].
Proof. eexists. split; vm_compute; reflexivity. Qed.

Lemma flush_without_socket_spins_witness :
  (exists msg rest,
      pop (sendQueue queued_client) = Some (msg, rest)
      /\ forall f,
           send (S f) msg (set_sendQueue queued_client rest)
           = Some (false, queued_client))
  /\ forall fuel, sendQueuedMsgs fuel queued_client = None.
Proof.
  apply (flush_without_socket_spins queued_client).
  - vm_compute. reflexivity.
  - intros H. vm_compute in H. discriminate H.
  - vm_compute. discriminate.
Defined.

Lemma flush_sends_newest_first_witness :
  exists c',
    sendQueuedMsgs 3 backlog_client = Some c'
    /\ map Ok (sent (since backlog_client c'))
       = map Codec.encode (rev (sendQueue backlog_client))
    /\ sendQueue c' = [].
Proof.
  apply (flush_sends_newest_first 3 backlog_client).
  - vm_compute. reflexivity.
  - vm_compute. reflexivity.
  - vm_compute. reflexivity.
  - vm_compute. lia.
Defined.

Lemma publish_on_ready_socket_witness :
  exists c',
    publish 1 (lit "ws://hub:80") (envelope 3) backlog_client = Some (true, c')
    /\ since backlog_client c'
       = Console "conn already open"
         :: map Console (Codec.encode_console (envelope 3))
            ++ [WsSend (DispatchFacts.frame
                          (JObj [(EVENTNAME, JStr (lit "x")); (lit "a", JNum 3)]))]
    /\ sendQueue c' = sendQueue backlog_client /\ ws c' = ws backlog_client.
Proof.
  apply (publish_on_ready_socket 0 (lit "ws://hub:80") (envelope 3)).
  - vm_compute. reflexivity.
  - vm_compute. reflexivity.
  - reflexivity.
Defined.

Lemma publish_all_opens_one_socket_witness :
  exists c',
    publish_all 1 (lit "ws://hub:80") [envelope 1; envelope 2]
      (constructor node_env None) = Some c'
    /\ sockets (since (constructor node_env None) c') = [lit "ws://hub:80"]
    /\ sendQueue c'
       = sendQueue (constructor node_env None) ++ [envelope 1; envelope 2].
Proof.
  apply (publish_all_opens_one_socket 0 (lit "ws://hub:80")
           [envelope 1; envelope 2] (constructor node_env None)).
  - reflexivity.
  - discriminate.
  - vm_compute. discriminate.
Defined.

End QueueFacts.

(** ** More on the message handler *)

Module HandlerFacts.
Import Client Trace EmitterFacts SendFacts DispatchFacts.

(** What [emit] does in each of its outcomes: it throws only for the
    name [error] without listener, having done nothing. *)
Lemma emit_cases (name : jsstring) (arg : value) (c : client) :
  match emit name arg c with
  | Return _ c' =>
      same_connection c c'
      /\ trace c' = trace c ++ map (fun l => Invoke l arg) (registered name c)
  | Raise _ c' =>
      c' = c /\ registered name c = [] /\ jsstring_eqb name ERROR = true
  end.
Proof.
  unfold emit. destruct (registered name c) as [|l ls] eqn:E.
  - destruct (jsstring_eqb name ERROR); [auto|].
    cbn [map]. rewrite app_nil_r. auto using same_connection_refl.
  - destruct (invoke_all_spec arg (l :: ls) c) as (S & T & _). auto.
Qed.

Lemma emit_listened (name : jsstring) (arg : value) (c : client) :
  jsstring_eqb name ERROR = false \/ registered name c <> [] ->
  exists b c',
    emit name arg c = Return b c'
    /\ same_connection c c'
    /\ trace c' = trace c ++ map (fun l => Invoke l arg) (registered name c).
Proof.
  intros H. pose proof (emit_cases name arg c) as C.
  destruct (emit name arg c) as [b c'|e c'].
  - exists b, c'. tauto.
  - destruct C as (_ & R & N). destruct H as [H|H]; congruence.
Qed.

Lemma nonempty_truthy (name : jsstring) :
  name <> [] -> falsy (Some (JStr name)) = false.
Proof. destruct name; [contradiction | reflexivity]. Qed.

(** The calls made for a frame with a string as event name. *)
Lemma dispatch_trace (message event : value) (name : jsstring) (c : client) :
  Codec.decode message = Ok event ->
  get_eventName event = Ok (Some (JStr name)) ->
  name <> [] ->
  jsstring_eqb name ERROR = false \/ registered name c <> [] ->
  trace (on_message message c)
  = trace c ++ map (fun l => Invoke l event) (registered name c)
            ++ map (fun l => Invoke l event) (registered WILDCARD c)
  /\ same_connection c (on_message message c).
Proof.
  intros D N Hn He. unfold on_message.
  rewrite (decode_console_defined message event D), consoles_nil
    by exact (get_eventName_defined event _ N).
  rewrite D, N, (nonempty_truthy name Hn). cbn [to_key].
  destruct (emit_listened name event c He) as (b & c' & E & S & T).
  rewrite E.
  destruct (invoke_all_spec event (registered WILDCARD c') c') as (S' & T' & _).
  split.
  - rewrite T', T, (registered_same WILDCARD c c' S), <- app_assoc. reflexivity.
  - eapply same_connection_trans; eassumption.
Qed.

(** X7.  A frame that decodes to a value whose [eventName] is a
    non-empty string, other than [error] unless [error] has a listener,
    calls the listeners registered under that name, in registration
    order, and then the wildcard listeners, each with the decoded value;
    nothing else is called and the connection is left as it is. *)
Theorem named_frame_dispatch (message event : value) (name : jsstring)
  (c : client) :
  Codec.decode message = Ok event ->
  get_eventName event = Ok (Some (JStr name)) ->
  name <> [] ->
  jsstring_eqb name ERROR = false \/ registered name c <> [] ->
  since c (on_message message c)
  = map (fun l => Invoke l event) (registered name c ++ registered WILDCARD c)
  /\ same_connection c (on_message message c).
Proof.
  intros D N Hn He.
  destruct (dispatch_trace message event name c D N Hn He) as (T & S).
  split; [|exact S]. apply since_suffix. now rewrite map_app.
Qed.

(** X8.  A frame whose [eventName] is the wildcard name calls every
    wildcard listener twice: once for the name, once as wildcard. *)
Theorem wildcard_named_frame_calls_twice (message event : value) (c : client) :
  Codec.decode message = Ok event ->
  get_eventName event = Ok (Some (JStr WILDCARD)) ->
  invoked (since c (on_message message c))
  = registered WILDCARD c ++ registered WILDCARD c.
Proof.
  intros D N.
  destruct (dispatch_trace message event WILDCARD c D N) as (T & _);
    [discriminate | now left |].
  rewrite (since_suffix _ _ _ T), invoked_app, !invoked_invocations.
  reflexivity.
Qed.

(** X9.  A frame whose [eventName] is [error], on a client without
    listener of [error]: the [emit] throws, the handler logs the
    exception, and no listener is called, the wildcard listeners
    included. *)
Theorem error_named_frame_without_listener (message event : value)
  (c : client) :
  Codec.decode message = Ok event ->
  get_eventName event = Ok (Some (JStr ERROR)) ->
  registered ERROR c = [] ->
  on_message message c = console "connect error" c.
Proof.
  intros D N R. unfold on_message.
  rewrite (decode_console_defined message event D), consoles_nil
    by exact (get_eventName_defined event _ N).
  rewrite D, N. cbn [falsy ERROR to_key].
  unfold emit. fold ERROR. now rewrite R.
Qed.

(** X10.  A frame whose [eventName] is present but falsy (the empty
    string, zero, [false] or [null]) is handled as a frame without name:
    the listeners of the missing-event-name diagnostic are called with
    the decoded value, and no other. *)
Theorem falsy_event_name_is_missing (message event : value) (x : json)
  (c : client) :
  Codec.decode message = Ok event ->
  get_eventName event = Ok (Some x) ->
  falsy (Some x) = true ->
  since c (on_message message c)
  = map (fun l => Invoke l event) (registered MISSINGEVENTNAME c)
  /\ same_connection c (on_message message c).
Proof.
  intros D N F. unfold on_message.
  rewrite (decode_console_defined message event D), consoles_nil
    by exact (get_eventName_defined event _ N).
  rewrite D, N, F.
  destruct (emit_spec MISSINGEVENTNAME event c eq_refl) as (b & c' & E & S & T & _).
  rewrite E. split; [now apply since_suffix | exact S].
Qed.

(** X11.  A frame delivered as a string is not parsed: whatever its
    text, an envelope with an event name included, the handler calls the
    listeners of the missing-event-name diagnostic with the string
    itself, and no other. *)
Theorem text_frame_is_not_dispatched (s : jsstring) (c : client) :
  since c (on_message (VJson (JStr s)) c)
  = map (fun l => Invoke l (VJson (JStr s))) (registered MISSINGEVENTNAME c).
Proof.
  unfold on_message.
  cbn [Codec.decode Codec.decode_console typeof Codec.primitives_decode
       get_eventName falsy].
  rewrite consoles_nil.
  destruct (emit_spec MISSINGEVENTNAME (VJson (JStr s)) c eq_refl)
    as (b & c' & E & S & T & _).
  rewrite E. now apply since_suffix.
Qed.

(** A call of a listener or a console line. *)
Definition notification (x : effect) : bool :=
  match x with
  | Invoke _ _ | Console _ => true
  | _ => false
  end.

Lemma notification_invocations (arg : value) (ls : list listener) :
  forallb notification (map (fun l => Invoke l arg) ls) = true.
Proof. induction ls as [|l ls IH]; [reflexivity | exact IH]. Qed.

(** X12.  Whatever the frame, the message handler returns, and all it
    does itself is call listeners and write console lines: it transmits
    nothing, sets no timer, and leaves the socket, the queue, the flags,
    the timers, the listeners and the queue file as they are. *)
Theorem message_handler_only_notifies (message : value) (c : client) :
  same_connection c (on_message message c)
  /\ exists suffix,
       trace (on_message message c) = trace c ++ suffix
       /\ forallb notification suffix = true.
Proof.
  unfold on_message.
  set (lines := Codec.decode_console message).
  set (c0 := consoles lines c). cbv zeta.
  assert (H0 : same_connection c c0
               /\ trace c0 = trace c ++ map Console lines
               /\ forallb notification (map Console lines) = true).
  { split; [repeat split|]. split; [reflexivity|].
    generalize lines. clear.
    intros l. induction l as [|x l IH]; [reflexivity | exact IH]. }
  destruct H0 as (S0 & T0 & N0).
  assert (G : forall x : client,
             (same_connection c0 x
              /\ exists suffix,
                   trace x = trace c0 ++ suffix
                   /\ forallb notification suffix = true) ->
             same_connection c x
             /\ exists suffix,
                  trace x = trace c ++ suffix
                  /\ forallb notification suffix = true).
  { intros x (Sx & suffix & Tx & Nx). split.
    - exact (same_connection_trans _ _ _ S0 Sx).
    - exists (map Console lines ++ suffix). split.
      + now rewrite Tx, T0, <- app_assoc.
      + now rewrite forallb_app, N0, Nx. }
  apply G. clearbody c0. clear G S0 T0 N0 lines c.
  rename c0 into c.
  assert (L : same_connection c (console "connect error" c)
              /\ exists suffix,
                   trace (console "connect error" c) = trace c ++ suffix
                   /\ forallb notification suffix = true).
  { split; [repeat split|]. eexists. split; reflexivity. }
  destruct (Codec.decode message) as [event|e]; [|exact L].
  destruct (get_eventName event) as [name|e]; [|exact L].
  destruct (falsy name).
  - pose proof (emit_cases MISSINGEVENTNAME event c) as C.
    destruct (emit MISSINGEVENTNAME event c) as [b c'|e c'].
    + destruct C as (S & T). split; [exact S|].
      eexists. split; [exact T | apply notification_invocations].
    + destruct C as (-> & _). exact L.
  - match goal with
    | |- context [emit ?n event c] =>
        pose proof (emit_cases n event c) as C;
        destruct (emit n event c) as [b c'|e c']
    end.
    + destruct C as (S & T).
      destruct (invoke_all_spec event (registered WILDCARD c') c') as (S' & T' & _).
      split; [eapply same_connection_trans; eassumption|].
      eexists. split.
      * rewrite T', T, <- app_assoc. reflexivity.
      * rewrite forallb_app, !notification_invocations. reflexivity.
    + destruct C as (-> & _). exact L.
Qed.

(** X13.  After [subscribe (name, cb)] with a non-empty name other than
    the wildcard, a frame with that event name calls the listeners that
    were registered under the name before, then [cb], then the wildcard
    listeners; this holds for the name [error] too, which now has a
    listener. *)
Theorem subscribed_listener_receives_frame (message event : value)
  (name : jsstring) (cb : listener) (c : client) :
  Codec.decode message = Ok event ->
  get_eventName event = Ok (Some (JStr name)) ->
  name <> [] ->
  jsstring_eqb name WILDCARD = false ->
  invoked (since (subscribe name cb c) (on_message message (subscribe name cb c)))
  = registered name c ++ [cb] ++ registered WILDCARD c.
Proof.
  intros D N Hn Hw.
  assert (R : registered name (subscribe name cb c) = registered name c ++ [cb]).
  { rewrite registered_subscribe. unfold jsstring_eqb.
    now destruct (list_eq_dec Z.eq_dec name name). }
  destruct (dispatch_trace message event name (subscribe name cb c) D N Hn)
    as (T & _).
  { right. rewrite R. now destruct (registered name c). }
  rewrite (since_suffix _ _ _ T), invoked_app, !invoked_invocations.
  rewrite R, registered_subscribe, Hw, app_nil_r, <- app_assoc. reflexivity.
Qed.

(** An envelope named [orderPlaced], and a client with a subscriber to
    that name and a wildcard subscriber. *)
Definition order : json :=
  JObj [(EVENTNAME, JStr (lit "orderPlaced")); (lit "id", JNum 7)].

Definition order_client : client :=
  subscribe WILDCARD (Subscriber 2)
    (subscribe (lit "orderPlaced") (Subscriber 1) (constructor node_env None)).

Lemma named_frame_dispatch_witness :
  since order_client (on_message (frame order) order_client)
  = map (fun l => Invoke l (VJson order))
      (registered (lit "orderPlaced") order_client
       ++ registered WILDCARD order_client)
  /\ same_connection order_client (on_message (frame order) order_client).
Proof.
  apply (named_frame_dispatch (frame order) (VJson order) (lit "orderPlaced")
           order_client).
  - vm_compute. reflexivity.
  - reflexivity.
  - intros H. vm_compute in H. discriminate H.
  - left. reflexivity.
Defined.

Definition starred : json := JObj [(EVENTNAME, JStr WILDCARD)].

Lemma wildcard_named_frame_calls_twice_witness :
  invoked (since order_client (on_message (frame starred) order_client))
  = registered WILDCARD order_client ++ registered WILDCARD order_client.
Proof.
  apply (wildcard_named_frame_calls_twice (frame starred) (VJson starred)
           order_client).
  - vm_compute. reflexivity.
  - reflexivity.
Defined.

Definition failed : json := JObj [(EVENTNAME, JStr ERROR)].

Lemma error_named_frame_without_listener_witness :
  on_message (frame failed) order_client = console "connect error" order_client.
Proof.
  apply (error_named_frame_without_listener (frame failed) (VJson failed)
           order_client).
  - vm_compute. reflexivity.
  - reflexivity.
  - reflexivity.
Defined.

Definition unnamed : json := JObj [(EVENTNAME, JStr []); (lit "id", JNum 7)].

Lemma falsy_event_name_is_missing_witness :
  since subscribed_client (on_message (frame unnamed) subscribed_client)
  = map (fun l => Invoke l (VJson unnamed))
      (registered MISSINGEVENTNAME subscribed_client)
  /\ same_connection subscribed_client
       (on_message (frame unnamed) subscribed_client).
Proof.
  apply (falsy_event_name_is_missing (frame unnamed) (VJson unnamed) (JStr [])
           subscribed_client).
  - vm_compute. reflexivity.
  - reflexivity.
  - reflexivity.
Defined.

Lemma subscribed_listener_receives_frame_witness :
  invoked (since (subscribe (lit "orderPlaced") (Subscriber 3) order_client)
             (on_message (frame order)
                (subscribe (lit "orderPlaced") (Subscriber 3) order_client)))
  = registered (lit "orderPlaced") order_client ++ [Subscriber 3]
    ++ registered WILDCARD order_client.
Proof.
  apply (subscribed_listener_receives_frame (frame order) (VJson order)
           (lit "orderPlaced") (Subscriber 3) order_client).
  - vm_compute. reflexivity.
  - reflexivity.
  - intros H. vm_compute in H. discriminate H.
  - reflexivity.
Defined.

End HandlerFacts.

(** ** More on the life cycle: timers, manual close and reconnection *)

Module LifecycleFacts.
Import Client Trace EmitterFacts SendFacts ConnectionFacts OpenFacts.

(** The timer has the handle [id]. *)
Definition has_id (id : nat) (t : timer) : bool := Nat.eqb (timer_id t) id.

Definition is_heartbeat (t : timer) : bool :=
  match timer_cb t with
  | CbHeartbeat => true
  | _ => false
  end.

(** Every pending timer has a handle below the next one to be given. *)
Definition fresh (c : client) : Prop :=
  Forall (fun t => (timer_id t < nextTimer c)%nat) (timers c).

(** X14.  [close] does not cancel the heartbeat timer.  After a [close]
    that returned, on a client that was not reconnecting, the pending
    heartbeat timer still fires, and its call of [heartbeat] throws a
    [TypeError]: with the pong flag raised at the ping on the missing
    socket, with the flag lowered at the [close] of the missing
    socket. *)
Theorem heartbeat_after_close_throws (fuel id : nat) (url : jsstring)
  (code : Z) (reason : value) (c c1 : client) (t : timer) :
  close code reason c = Return tt c1 ->
  find (has_id id) (timers c) = Some t ->
  timer_cb t = CbHeartbeat ->
  reconnecting c = false ->
  exists c2, fire fuel id url c1 = Some (Raise TypeError c2) /\ ws c2 = None.
Proof.
  intros Hc Hf Hcb Hr. unfold close in Hc. fields.
  destruct (ws c) as [s|]; [|discriminate]. inversion Hc as [E]. clear Hc.
  unfold fire. fields. fold (has_id id). rewrite Hf, Hcb.
  unfold heartbeat. fields. destruct (pong c).
  - eexists. split; reflexivity.
  - rewrite Hr. unfold close. fields. cbn [bind].
    eexists. split; reflexivity.
Qed.

(** Without a reason the handler throws before it has done anything. *)
Lemma close_handler_without_reason (code : Z) (reason : value) (c : client) :
  DispatchFacts.nullish reason = true ->
  close_handler code reason c = Raise TypeError c.
Proof.
  destruct reason as [| | | n | j | b]; try discriminate; try reflexivity.
  destruct j; try discriminate; reflexivity.
Qed.

Lemma close_handler_defined (code : Z) (reason : value) (c : client) :
  DispatchFacts.nullish reason = false ->
  close_handler code reason c = on_close code reason c.
Proof.
  destruct reason as [| | | n | j | b]; try discriminate; try reflexivity.
  destruct j; try discriminate; reflexivity.
Qed.

(** The close handler on a client that holds a socket and is not
    reconnecting, for code 1006 or 4040. *)
Lemma on_close_abnormal (code : Z) (reason : value) (c : client) (s : socket) :
  ws c = Some s -> reconnecting c = false -> abnormal code = true ->
  exists c1,
    on_close code reason c = Return tt c1
    /\ ws c1 = None /\ reconnecting c1 = true
    /\ timers c1 =
         filter (fun t => negb (has_id (timerId c) t)) (timers c)
         ++ [{| timer_id := nextTimer c; timer_cb := CbConnect;
                timer_delay := 8000 |}]
    /\ nextTimer c1 = S (nextTimer c)
    /\ sendQueue c1 = sendQueue c
    /\ pong c1 = pong c.
Proof.
  intros Hws Hr Hc. unfold on_close.
  destruct (emit_spec CONNECTERROR reason (console "received close frame" c)
              CONNECTERROR_not_error) as (b & c1 & E & S & T & _).
  rewrite E. cbn [bind]. fold (abnormal code). rewrite Hc.
  destruct S as (Hws1 & Hp & Htid & Hrec & Hq & _ & _ & _ & _ & Htim & Hnext & _).
  fields. rewrite Hrec, Hr.
  unfold close, clearTimeout, setTimeout. fields. rewrite Hws1, Hws.
  cbn [bind]. fields.
  eexists. split; [reflexivity|]. fields.
  rewrite Htim, Htid, Hnext, Hq, Hp. repeat split.
Qed.

Lemma find_last (f : timer -> bool) (l : list timer) (x : timer) :
  Forall (fun t => f t = false) l -> f x = true -> find f (l ++ [x]) = Some x.
Proof.
  induction 1 as [|y l Hy _ IH]; intros Hx; cbn [app find].
  - now rewrite Hx.
  - rewrite Hy. now apply IH.
Qed.

Lemma filter_all (f : timer -> bool) (l : list timer) :
  Forall (fun t => f t = true) l -> filter f l = l.
Proof.
  induction 1 as [|y l Hy _ IH]; [reflexivity|].
  cbn [filter]. now rewrite Hy, IH.
Qed.

Lemma filter_but_last (f : timer -> bool) (l : list timer) (x : timer) :
  Forall (fun t => f t = false) l -> f x = true ->
  filter (fun t => negb (f t)) (l ++ [x]) = l.
Proof.
  intros Hl Hx. rewrite filter_app. cbn [filter]. rewrite Hx. cbn [negb].
  rewrite app_nil_r. apply filter_all.
  eapply Forall_impl; [|exact Hl]. intros t Ht. cbv beta in Ht. now rewrite Ht.
Qed.

Lemma fresh_not_next (c : client) (g : timer -> bool) :
  fresh c ->
  Forall (fun t => has_id (nextTimer c) t = false) (filter g (timers c)).
Proof.
  unfold fresh. intros H. apply Forall_forall. intros t Hin.
  apply filter_In in Hin as [Hin _].
  rewrite Forall_forall in H. specialize (H t Hin).
  unfold has_id. apply Nat.eqb_neq. lia.
Qed.

(** X15.  A reconnect that fails is not tried again.  After a close
    with code 1006 or 4040 the reconnect timer fires and [connect]
    creates a socket; when that socket closes with code 1006 or 4040
    before it has opened, the handler sets no timer: the reconnecting
    flag is still raised.  The client is left with the closed socket
    and without any timer but those pending before the first close, the
    heartbeat timer apart.  The reasons are what a socket passes, a
    Buffer or any value with a [toString]: not [undefined], not [null]. *)
Theorem failed_reconnect_is_not_retried (fuel : nat) (url : jsstring)
  (code code' : Z) (reason reason' : value) (c : client) (s : socket) :
  ws c = Some s -> reconnecting c = false -> fresh c ->
  abnormal code = true -> abnormal code' = true ->
  DispatchFacts.nullish reason = false ->
  DispatchFacts.nullish reason' = false ->
  exists c1 c2 c3,
    close_handler code reason c = Return tt c1
    /\ fire fuel (nextTimer c) url c1 = Some (Return tt c2)
    /\ QueueFacts.sockets (since c1 c2) = [url]
    /\ deliver fuel (OnClose code' reason') c2 = Some (Return tt c3)
    /\ scheduled (since c2 c3) = []
    /\ timers c3 = filter (fun t => negb (has_id (timerId c) t)) (timers c)
    /\ reconnecting c3 = true
    /\ ws c3 = Some {| readyState := CLOSED; bufferedAmount := 0 |}.
Proof.
  intros Hws Hr Hf Hc Hc' Hn1 Hn2.
  rewrite (close_handler_defined code reason c Hn1).
  destruct (on_close_abnormal code reason c s Hws Hr Hc)
    as (c1 & E1 & W1 & R1 & T1 & N1 & _).
  pose proof (fresh_not_next c (fun t => negb (has_id (timerId c) t)) Hf) as Hn.
  set (c2 := connect None url
               (set_timers c1
                  (filter (fun t => negb (has_id (nextTimer c) t)) (timers c1)))).
  assert (F : fire fuel (nextTimer c) url c1 = Some (Return tt c2)).
  { unfold fire. fold (has_id (nextTimer c)). rewrite T1.
    rewrite (find_last _ _ _ Hn) by (unfold has_id; cbn; apply Nat.eqb_refl).
    cbn [timer_cb]. subst c2. rewrite T1. reflexivity. }
  assert (W2 : ws c2 = Some {| readyState := CONNECTING; bufferedAmount := 0 |}
               /\ trace c2 = trace c1 ++ [NewWebSocket url]
               /\ reconnecting c2 = true
               /\ timers c2 = filter (fun t => negb (has_id (timerId c) t)) (timers c)).
  { subst c2. unfold connect. fields. rewrite W1. fields.
    repeat split; [exact R1|].
    rewrite T1. apply filter_but_last; [exact Hn|].
    unfold has_id. cbn [timer_id]. apply Nat.eqb_refl. }
  destruct W2 as (W2 & Tr2 & R2 & T2).
  destruct (on_close_while_reconnecting code' reason' (set_readyState c2 CLOSED))
    as (c3 & E3 & R3 & T3 & suffix & Tr3 & Sc3).
  { unfold set_readyState. rewrite W2. exact R2. }
  { exact Hc'. }
  assert (W3 : ws c3 = ws (set_readyState c2 CLOSED)).
  { unfold on_close in E3.
    match type of E3 with
    | context [emit CONNECTERROR reason' ?y] =>
        destruct (emit_spec CONNECTERROR reason' y CONNECTERROR_not_error)
          as (b & c' & E & S & _)
    end.
    rewrite E in E3. cbn [bind] in E3. fold (abnormal code') in E3.
    rewrite Hc' in E3. destruct S as (Hw & _ & _ & Hrec & _).
    assert (Hrec' : reconnecting c' = true).
    { rewrite Hrec. unfold set_readyState. rewrite W2. exact R2. }
    rewrite Hrec' in E3. inversion E3; subst. exact Hw. }
  exists c1, c2, c3. split; [exact E1|]. split; [exact F|].
  split; [now rewrite (since_suffix _ _ _ Tr2)|].
  split; [unfold deliver; rewrite W2, close_handler_defined by exact Hn2;
          now rewrite E3|].
  split.
  { unfold set_readyState in Tr3. rewrite W2 in Tr3.
    now rewrite (since_suffix c2 c3 suffix Tr3). }
  unfold set_readyState in T3, W3. rewrite W2 in T3, W3.
  split; [rewrite T3; exact T2|]. split; [exact R3 | exact W3].
Qed.

(** X16.  A close with any other code, and a reason that is neither
    [undefined] nor [null], sets no timer and keeps the closed socket in
    the client: the listeners of the connect-error event are called and
    nothing else changes, so that a later [connect] finds a socket and
    creates none. *)
Theorem close_with_other_code_keeps_socket (code : Z) (reason : value)
  (o : option json) (url : jsstring) (c : client) (s : socket) :
  ws c = Some s -> abnormal code = false ->
  DispatchFacts.nullish reason = false ->
  exists c',
    close_handler code reason c = Return tt c'
    /\ same_connection c c'
    /\ since c c' = Console "received close frame"
                    :: map (fun l => Invoke l reason) (registered CONNECTERROR c)
    /\ connect o url c' = console "conn already open" c'.
Proof.
  intros Hws Hc Hn. rewrite (close_handler_defined code reason c Hn).
  unfold on_close.
  destruct (emit_spec CONNECTERROR reason (console "received close frame" c)
              CONNECTERROR_not_error) as (b & c1 & E & S & T & _).
  rewrite E. cbn [bind]. fold (abnormal code). rewrite Hc.
  exists c1. split; [reflexivity|].
  assert (S' : same_connection c c1).
  { eapply same_connection_trans; [|exact S]. repeat split. }
  split; [exact S'|]. split.
  - apply since_suffix. rewrite T. fields. now rewrite <- app_assoc.
  - unfold connect. destruct S' as (W & _). now rewrite W, Hws.
Qed.

(** The pending timers that call [heartbeat]. *)
Definition heartbeats (c : client) : list timer := filter is_heartbeat (timers c).

(** The probe is running: the client holds a socket, and the timer that
    [timerId] names is pending, calls [heartbeat] and is the only pending
    timer that does. *)
Definition probing (c : client) : Prop :=
  ws c <> None /\ fresh c
  /\ exists t, find (has_id (timerId c)) (timers c) = Some t /\ heartbeats c = [t].

Lemma filter_filter_comm (f g : timer -> bool) (l : list timer) :
  filter f (filter g l) = filter g (filter f l).
Proof.
  induction l as [|x l IH]; [reflexivity|]. cbn [filter].
  destruct (g x) eqn:G, (f x) eqn:F; cbn [filter]; rewrite ?G, ?F, IH; reflexivity.
Qed.

Lemma find_app_l (f : timer -> bool) (l r : list timer) (x : timer) :
  find f l = Some x -> find f (l ++ r) = Some x.
Proof.
  induction l as [|y l IH]; [discriminate|]. cbn [app find].
  destruct (f y); [trivial | exact IH].
Qed.

Lemma fresh_not_next_all (c : client) :
  fresh c -> Forall (fun t => has_id (nextTimer c) t = false) (timers c).
Proof.
  unfold fresh. intros H. eapply Forall_impl; [|exact H].
  intros t Ht. cbv beta in Ht. unfold has_id. apply Nat.eqb_neq. lia.
Qed.

(** X17.  The probe keeps itself running.  On a client whose probe is
    running, a pong followed by the heartbeat timer sends one ping and
    sets one timer, after [heartbeatms]; the probe is running again: the
    fired timer is gone and the new one is the only pending timer that
    calls [heartbeat]. *)
Theorem probe_cycle_keeps_one_timer (fuel : nat) (url : jsstring) (c : client) :
  probing c ->
  exists c',
    fire fuel (timerId c) url (on_pong c) = Some (Return tt c')
    /\ since c c' = [WsPing; SetTimeout (nextTimer c) CbHeartbeat
                                (heartbeatms (env c))]
    /\ probing c'.
Proof.
  intros (W & F & t & Hfind & Hh).
  assert (Ht : is_heartbeat t = true /\ has_id (timerId c) t = true).
  { split.
    - assert (I : In t (heartbeats c)) by (rewrite Hh; now left).
      unfold heartbeats in I. now apply filter_In in I.
    - now apply find_some in Hfind. }
  destruct Ht as (Hb & Hid).
  unfold fire, on_pong. fields. fold (has_id (timerId c)). rewrite Hfind.
  unfold is_heartbeat in Hb. destruct (timer_cb t); try discriminate.
  unfold heartbeat. fields. destruct (ws c) as [s|] eqn:Hws; [|contradiction].
  unfold setTimeout. fields. eexists. split; [reflexivity|].
  split; [apply since_suffix; fields; now rewrite <- app_assoc|].
  unfold probing, fresh, heartbeats. fields.
  split; [rewrite Hws; discriminate|]. split.
  - apply Forall_app. split.
    + apply Forall_forall. intros x Hx. apply filter_In in Hx as [Hx _].
      unfold fresh in F. rewrite Forall_forall in F. specialize (F x Hx). lia.
    + constructor; [cbn; lia | constructor].
  - eexists. split.
    + apply find_last; [apply (fresh_not_next c); exact F|].
      unfold has_id. cbn [timer_id]. apply Nat.eqb_refl.
    + rewrite filter_app, filter_filter_comm.
      fold (heartbeats c). rewrite Hh. cbn [filter].
      fold (has_id (timerId c) t). rewrite Hid. reflexivity.
Qed.

(** What the open handler leaves when it finds the pong flag raised and
    no heartbeat timer pending. *)
Lemma open_probe (fuel : nat) (c : client) (s : socket) (o : option json) :
  ws c = Some s -> options c = Some o -> pong c = true ->
  heartbeats c = [] -> fresh c ->
  exists c',
    deliver (S fuel) OnOpen c = Some (Return tt c')
    /\ probing c' /\ pong c' = false
    /\ reconnecting c' = false /\ sendQueue c' = sendQueue c.
Proof.
  intros Hws Ho Hp Hh Hf. unfold deliver. rewrite Hws. unfold on_open.
  match goal with
  | |- context [telemetry ?x] =>
      destruct (telemetry_returns x o Ho) as (m & x' & T & N)
  end.
  rewrite T. rewrite send_ready by reflexivity.
  unfold invoke, transmit. rewrite encode_object.
  unfold heartbeat.
  assert (P : forall x : client,
             ws x <> None -> timers x = (timers c ++
               [{| timer_id := nextTimer c; timer_cb := CbHeartbeat;
                   timer_delay := heartbeatms (env c) |}]) ++
               [{| timer_id := S (nextTimer c); timer_cb := CbSendQueuedMsgs;
                   timer_delay := 1000 |}] ->
             nextTimer x = S (S (nextTimer c)) -> timerId x = nextTimer c ->
             probing x).
  { intros x Wx Tx Nx Ix. unfold probing, fresh, heartbeats.
    rewrite Tx, Nx, Ix. split; [exact Wx|]. split.
    - repeat (apply Forall_app; split).
      + eapply Forall_impl; [|exact Hf]. intros t Ht. cbv beta in Ht. lia.
      + constructor; [cbn; lia | constructor].
      + constructor; [cbn; lia | constructor].
    - eexists. split.
      + apply find_app_l. apply find_last; [apply fresh_not_next_all; exact Hf|].
        unfold has_id. cbn [timer_id]. apply Nat.eqb_refl.
      + rewrite !filter_app. fold (heartbeats c). rewrite Hh. reflexivity. }
  destruct (breaker_closed _); unfold detectErrors, subscribe;
    cbn [fold_left]; fields; rewrite Hp; cbv iota;
    unfold setTimeout; fields; cbn [bind];
    (eexists; split; [reflexivity|]);
    (split; [|fields; repeat split]);
    (apply P; fields; try reflexivity; discriminate).
Qed.

(** X18.  The open handler starts the probe.  When the socket opens on
    a client whose pong flag is raised and which has no pending
    heartbeat timer, the handler returns and the probe is running. *)
Theorem open_starts_probe (fuel : nat) (c : client) (s : socket)
  (o : option json) :
  ws c = Some s -> options c = Some o -> pong c = true ->
  heartbeats c = [] -> fresh c ->
  exists c',
    deliver (S fuel) OnOpen c = Some (Return tt c')
    /\ probing c' /\ pong c' = false.
Proof.
  intros Hws Ho Hp Hh Hf.
  destruct (open_probe fuel c s o Hws Ho Hp Hh Hf) as (c' & D & P & Pg & _).
  exists c'. split; [exact D|]. split; [exact P | exact Pg].
Qed.

(** X19.  A reconnect that succeeds restores the probe.  On a client
    whose probe is running, with the pong flag raised, a close with
    code 1006 or 4040 and a reason that is neither [undefined] nor
    [null] is followed by the reconnect timer, which creates a socket;
    when that socket opens, the probe is running again, the reconnecting
    flag is cleared and the queue is as it was. *)
Theorem reconnect_restores_probe (fuel : nat) (url : jsstring) (code : Z)
  (reason : value) (c : client) :
  probing c -> reconnecting c = false -> pong c = true ->
  abnormal code = true -> DispatchFacts.nullish reason = false ->
  exists c1 c2 c3,
    close_handler code reason c = Return tt c1
    /\ fire fuel (nextTimer c) url c1 = Some (Return tt c2)
    /\ deliver (S fuel) OnOpen c2 = Some (Return tt c3)
    /\ probing c3 /\ reconnecting c3 = false
    /\ sendQueue c3 = sendQueue c.
Proof.
  intros (W & F & t & Hfind & Hh) Hr Hp Hc Hreason.
  rewrite (close_handler_defined code reason c Hreason).
  destruct (ws c) as [s|] eqn:Hws; [|contradiction].
  assert (Hid : has_id (timerId c) t = true) by now apply find_some in Hfind.
  destruct (on_close_abnormal code reason c s Hws Hr Hc)
    as (c1 & E1 & W1 & R1 & T1 & N1 & Q1 & P1).
  pose proof (fresh_not_next c (fun t => negb (has_id (timerId c) t)) F) as Hn.
  set (c2 := connect None url
               (set_timers c1
                  (filter (fun t => negb (has_id (nextTimer c) t)) (timers c1)))).
  assert (F2 : fire fuel (nextTimer c) url c1 = Some (Return tt c2)).
  { unfold fire. fold (has_id (nextTimer c)). rewrite T1.
    rewrite (find_last _ _ _ Hn) by (unfold has_id; cbn; apply Nat.eqb_refl).
    cbn [timer_cb]. subst c2. rewrite T1. reflexivity. }
  assert (H2 : ws c2 = Some {| readyState := CONNECTING; bufferedAmount := 0 |}
               /\ options c2 = Some None /\ pong c2 = true
               /\ sendQueue c2 = sendQueue c
               /\ nextTimer c2 = S (nextTimer c)
               /\ timers c2 = filter (fun t => negb (has_id (timerId c) t)) (timers c)).
  { subst c2. unfold connect. fields. rewrite W1. fields.
    rewrite P1, Hp, Q1, N1. repeat split.
    rewrite T1. apply filter_but_last; [exact Hn|].
    unfold has_id. cbn [timer_id]. apply Nat.eqb_refl. }
  destruct H2 as (W2 & O2 & P2 & Q2 & N2 & T2).
  assert (Hh2 : heartbeats c2 = []).
  { unfold heartbeats. rewrite T2, filter_filter_comm. fold (heartbeats c).
    rewrite Hh. cbn [filter]. now rewrite Hid. }
  assert (Hf2 : fresh c2).
  { unfold fresh. rewrite T2, N2. apply Forall_forall. intros x Hx.
    apply filter_In in Hx as [Hx _]. unfold fresh in F.
    rewrite Forall_forall in F. specialize (F x Hx). lia. }
  destruct (open_probe fuel c2 _ None W2 O2 P2 Hh2 Hf2)
    as (c3 & D & Pr & _ & R3 & Q3).
  exists c1, c2, c3. rewrite Q3, Q2.
  split; [exact E1|]. split; [exact F2|]. split; [exact D|].
  split; [exact Pr|]. split; [exact R3 | reflexivity].
Qed.

Lemma telemetry_state (c : client) (o : option json) :
  options c = Some o ->
  exists m x,
    telemetry c = Return (VJson (JObj m)) (set_serviceList c x)
    /\ find (fun p => jsstring_eqb (fst p) (lit "state")) m
       = Some (lit "state", state_field c).
Proof.
  intros Ho. unfold telemetry, services. rewrite Ho.
  destruct o as [l|]; cbn [bind].
  - eexists _, l. split; reflexivity.
  - eexists _, (serviceList c). rewrite set_serviceList_same.
    split; reflexivity.
Qed.

(** X20.  The record that the timeout event carries never holds the
    state of the socket: [heartbeat] builds it after [close] has
    released the socket, so that its [state] field is the string
    [undefined]. *)
Theorem timeout_event_reports_no_state (c : client) (s : socket)
  (o : option json) :
  ws c = Some s -> options c = Some o ->
  pong c = false -> reconnecting c = false ->
  exists c' m,
    heartbeat c = Return tt c'
    /\ invoked (since c c') = registered TIMEOUTEVENT c
    /\ Forall (fun x => match x with
                        | Invoke _ arg => arg = VJson (JObj m)
                        | _ => True
                        end) (since c c')
    /\ find (fun p => jsstring_eqb (fst p) (lit "state")) m
       = Some (lit "state", JStr (lit "undefined")).
Proof.
  intros Hws Ho Hp Hr. unfold heartbeat. rewrite Hp, Hr.
  unfold close. fields. rewrite Hws. cbn [bind]. unfold setTimeout. fields.
  match goal with
  | |- context [telemetry ?x] =>
      destruct (telemetry_state x o Ho) as (m & x' & T & N)
  end.
  rewrite T. cbn [bind].
  match goal with
  | |- context [emit TIMEOUTEVENT ?t ?x] =>
      destruct (emit_spec TIMEOUTEVENT t x TIMEOUTEVENT_not_error)
        as (b' & c' & E & S & Tr & _)
  end.
  rewrite E. cbn [bind]. exists c', m. split; [reflexivity|].
  fields.
  assert (Ts : since c c'
               = [Console "timeout"; Console "closing socket";
                  WsRemoveAllListeners;
                  WsClose 4877 (VJson (JStr (lit "timeout")));
                  WsTerminate; SetTimeout (nextTimer c) CbConnect 5000]
                 ++ map (fun l => Invoke l (VJson (JObj m)))
                      (registered TIMEOUTEVENT c)).
  { apply since_suffix. rewrite Tr. repeat rewrite <- app_assoc. reflexivity. }
  rewrite Ts. split; [|split].
  - rewrite invoked_app, invoked_invocations. reflexivity.
  - apply Forall_app. split.
    + repeat constructor.
    + apply Forall_forall. intros x Hx. apply in_map_iff in Hx as (l & <- & _).
      reflexivity.
  - exact N.
Qed.

(** X21.  A close with code 1006 or 4040 stops the probe: on a client
    whose probe is running and which is not reconnecting, the close
    handler, given a reason that is neither [undefined] nor [null],
    returns having released the socket and set the reconnect, and no
    pending timer calls [heartbeat]. *)
Theorem abnormal_close_stops_probe (code : Z) (reason : value) (c : client) :
  probing c -> reconnecting c = false -> abnormal code = true ->
  DispatchFacts.nullish reason = false ->
  exists c',
    close_handler code reason c = Return tt c'
    /\ ws c' = None /\ heartbeats c' = []
    /\ scheduled (since c c') = [(CbConnect, 8000)].
Proof.
  intros (W & F & t & Hfind & Hh) Hr Hc Hn.
  rewrite (close_handler_defined code reason c Hn).
  destruct (ws c) as [s|] eqn:Hws; [|contradiction].
  assert (Hid : has_id (timerId c) t = true) by now apply find_some in Hfind.
  unfold on_close.
  destruct (emit_spec CONNECTERROR reason (console "received close frame" c)
              CONNECTERROR_not_error) as (b & c1 & E & S & T & _).
  rewrite E. cbn [bind]. fold (abnormal code). rewrite Hc.
  destruct S as (Hws1 & _ & Htid & Hrec & _ & _ & _ & _ & _ & Htim & Hnext & _).
  fields. rewrite Hrec, Hr.
  unfold close, clearTimeout, setTimeout. fields. rewrite Hws1, Hws.
  cbn [bind]. fields.
  eexists. split; [reflexivity|]. split; [reflexivity|]. split.
  - unfold heartbeats. fields. rewrite Htim, Htid.
    fold (has_id (timerId c)).
    rewrite filter_app, filter_filter_comm. fold (heartbeats c). rewrite Hh.
    cbn [filter]. unfold has_id in Hid. rewrite Hid. reflexivity.
  - rewrite (since_suffix _ _
               ([Console "received close frame"]
                ++ map (fun l => Invoke l reason) (registered CONNECTERROR c)
                ++ [ClearTimeout (timerId c); Console "closing socket";
                    WsRemoveAllListeners; WsClose code reason; WsTerminate;
                    SetTimeout (nextTimer c) CbConnect 8000])).
    + rewrite !scheduled_app, scheduled_invocations. reflexivity.
    + fields. rewrite T, Htid, Hnext. fields.
      repeat rewrite <- app_assoc. reflexivity.
Qed.

(** X22.  The error handler only notifies: it calls the listeners of
    the socket-error event with the error, writes one console line and
    returns; the connection is left as it is. *)
Theorem error_handler_only_notifies (err : value) (c : client) :
  exists c',
    on_error err c = Return tt c'
    /\ same_connection c c'
    /\ since c c' = map (fun l => Invoke l err) (registered WSOCKETERROR c)
                    ++ [Console "connect error"].
Proof.
  unfold on_error.
  destruct (emit_spec WSOCKETERROR err c eq_refl) as (b & c1 & E & S & T & _).
  rewrite E. cbn [bind]. eexists. split; [reflexivity|]. split.
  - eapply same_connection_trans; [exact S|]. repeat split.
  - apply since_suffix. fields. now rewrite T, <- app_assoc.
Qed.

(** What the open handler leaves when it finds the pong flag raised and
    the breaker closed. *)
Lemma open_ready (fuel : nat) (c : client) (s : socket) (o : option json) :
  ws c = Some s -> options c = Some o -> pong c = true ->
  breaker_closed c = true ->
  exists c1 t frame,
    deliver (S fuel) OnOpen c = Some (Return tt c1)
    /\ get_eventName t = Ok (Some (JStr (lit "telemetry")))
    /\ Codec.encode t = Ok frame
    /\ ready c1 = true /\ breaker_closed c1 = true
    /\ sendQueue c1 = sendQueue c
    /\ timers c1 = (timers c ++
          [{| timer_id := nextTimer c; timer_cb := CbHeartbeat;
              timer_delay := heartbeatms (env c) |}]) ++
          [{| timer_id := S (nextTimer c); timer_cb := CbSendQueuedMsgs;
              timer_delay := 1000 |}]
    /\ sent (since c c1) = [frame].
Proof.
  intros Hws Ho Hp Hb. unfold deliver. rewrite Hws. unfold on_open.
  match goal with
  | |- context [telemetry ?x] =>
      destruct (telemetry_returns x o Ho) as (m & x' & T & N)
  end.
  rewrite T. rewrite send_ready by reflexivity.
  unfold invoke, transmit. rewrite encode_object.
  unfold heartbeat, detectErrors, subscribe. cbn [fold_left].
  unfold breaker_closed in *. fields. rewrite Hb. cbv iota. fields.
  rewrite Hp. cbv iota.
  unfold setTimeout. fields. cbn [bind].
  eexists. exists (VJson (JObj m)). eexists.
  split; [reflexivity|]. split; [exact N|]. split; [apply encode_object|].
  fields. split; [reflexivity|]. split; [exact Hb|]. split; [reflexivity|].
  split; [reflexivity|].
  erewrite since_suffix; [|fields; repeat rewrite <- app_assoc; reflexivity].
  reflexivity.
Qed.

(** X23.  What was queued before the socket opened is sent once it has
    opened.  With the pong flag raised, the breaker closed and queued
    entries that [encode] accepts, the open handler transmits the
    telemetry record, and the timer it sets for the flush then transmits
    the encoding of every queued entry, the entry queued last first, and
    leaves the queue empty. *)
Theorem queued_messages_are_sent_after_open (fuel : nat) (url : jsstring)
  (c : client) (s : socket) (o : option json) :
  ws c = Some s -> options c = Some o -> pong c = true ->
  breaker_closed c = true -> fresh c ->
  forallb QueueFacts.encodable (sendQueue c) = true ->
  (List.length (sendQueue c) < fuel)%nat ->
  exists c1 c2 t,
    deliver fuel OnOpen c = Some (Return tt c1)
    /\ fire fuel (S (nextTimer c)) url c1 = Some (Return tt c2)
    /\ get_eventName t = Ok (Some (JStr (lit "telemetry")))
    /\ map Ok (sent (since c c1) ++ sent (since c1 c2))
       = Codec.encode t :: map Codec.encode (rev (sendQueue c))
    /\ sendQueue c2 = [].
Proof.
  intros Hws Ho Hp Hb Hf He Hn. destruct fuel as [|f]; [lia|].
  destruct (open_ready f c s o Hws Ho Hp Hb)
    as (c1 & t & frame & D & N & Et & R1 & B1 & Q1 & T1 & S1).
  exists c1.
  assert (Hfind : find (has_id (S (nextTimer c))) (timers c1)
                  = Some {| timer_id := S (nextTimer c);
                            timer_cb := CbSendQueuedMsgs; timer_delay := 1000 |}).
  { rewrite T1. apply find_last; [|unfold has_id; cbn; apply Nat.eqb_refl].
    apply Forall_app. split.
    - eapply Forall_impl; [|exact Hf]. intros x Hx. cbv beta in Hx.
      unfold has_id. apply Nat.eqb_neq. lia.
    - constructor; [|constructor]. unfold has_id. cbn [timer_id].
      apply Nat.eqb_neq. lia. }
  unfold fire. fold (has_id (S (nextTimer c))). rewrite Hfind. cbn [timer_cb].
  match goal with
  | |- context [sendQueuedMsgs (S f) ?x] =>
      destruct (QueueFacts.flush_trace f (sendQueue c) (S f) x)
        as (c2 & suffix & L & T & M);
        [exact R1 | exact B1 | exact Q1 | exact He | exact Hn |]
  end.
  unfold sendQueuedMsgs. rewrite L. exists c2, t.
  split; [exact D|]. split; [reflexivity|]. split; [exact N|]. split.
  - rewrite S1. fields. rewrite (since_suffix c1 c2 _ T).
    cbn [app map]. now rewrite Et, M.
  - exact (QueueFacts.loop_returns_empty _ _ _ _ L).
Qed.

(** X24.  When the socket opens on a client whose pong flag is lowered
    and whose queue is not empty, the open handler closes the socket at
    once and still sets the timer for the flush; when that timer fires,
    the flush finds no socket and never returns. *)
Theorem flush_after_open_with_lowered_pong_never_returns (fuel : nat)
  (url : jsstring) (c : client) (s : socket) (o : option json) :
  ws c = Some s -> options c = Some o -> pong c = false -> fresh c ->
  sendQueue c <> [] ->
  exists c1,
    deliver (S fuel) OnOpen c = Some (Return tt c1)
    /\ ws c1 = None
    /\ forall fuel', fire fuel' (S (nextTimer c)) url c1 = None.
Proof.
  intros Hws Ho Hp Hf Hq. unfold deliver. rewrite Hws. unfold on_open.
  match goal with
  | |- context [telemetry ?x] =>
      destruct (telemetry_returns x o Ho) as (m & x' & T & N)
  end.
  rewrite T. rewrite send_ready by reflexivity.
  unfold invoke, transmit. rewrite encode_object.
  unfold heartbeat.
  assert (P : forall x : client,
             ws x = None -> sendQueue x = sendQueue c ->
             timers x = (timers c ++
               [{| timer_id := nextTimer c; timer_cb := CbConnect;
                   timer_delay := 5000 |}]) ++
               [{| timer_id := S (nextTimer c); timer_cb := CbSendQueuedMsgs;
                   timer_delay := 1000 |}] ->
             forall fuel', fire fuel' (S (nextTimer c)) url x = None).
  { intros x Wx Qx Tx fuel'. unfold fire. fold (has_id (S (nextTimer c))).
    rewrite Tx.
    rewrite find_last; [|apply Forall_app; split|unfold has_id; cbn; apply Nat.eqb_refl].
    - cbn [timer_cb]. unfold sendQueuedMsgs.
      rewrite QueueFacts.flush_never_ends; [reflexivity| |].
      + unfold ready. fields. now rewrite Wx.
      + fields. now rewrite Qx.
    - eapply Forall_impl; [|exact Hf]. intros y Hy. cbv beta in Hy.
      unfold has_id. apply Nat.eqb_neq. lia.
    - constructor; [|constructor]. unfold has_id. cbn [timer_id].
      apply Nat.eqb_neq. lia. }
  destruct (breaker_closed _); unfold detectErrors, subscribe;
    cbn [fold_left]; fields; rewrite Hp; cbv iota;
    unfold close; fields; cbv iota; cbn [bind];
    unfold setTimeout, telemetry, services; fields; rewrite Ho;
    destruct o as [l|]; cbn [bind];
    match goal with
    | |- context [emit TIMEOUTEVENT ?t ?x] =>
        destruct (emit_spec TIMEOUTEVENT t x TIMEOUTEVENT_not_error)
          as (b' & c'' & E' & S' & _)
    end;
    rewrite E'; cbn [bind]; (eexists; split; [reflexivity|]); fields;
    destruct S' as (W & _ & _ & _ & Q & _ & _ & _ & _ & Tm & Nx & _);
    (split; [exact W|]);
    (apply P; fields; [exact W | exact Q | rewrite Tm, Nx; reflexivity]).
Qed.

(** What the socket passes as reason of a close without reason, the
    empty Buffer, and a reason given by the peer. *)
Definition no_reason : value := VBuffer [].

Definition going_away : value := VBuffer (Buffer.from (lit "going away")).

(** The client of [open_client] when its socket has closed, which is
    when the socket emits the close event; the same after a pong. *)
Definition dropped_client : client := set_readyState open_client CLOSED.

Definition dropped_after_pong : client :=
  set_readyState (on_pong open_client) CLOSED.

(** The client of [open_client] after a manual [close]. *)
Definition closed_client : client :=
  match close 1000 (VJson (JStr (lit "bye"))) open_client with
  | Return _ c => c
  | Raise _ c => c
  end.

Lemma heartbeat_after_close_throws_witness :
  exists c2,
    fire 1 1 [] closed_client = Some (Raise TypeError c2) /\ ws c2 = None.
Proof.
  apply (heartbeat_after_close_throws 1 1 [] 1000 (VJson (JStr (lit "bye")))
           open_client closed_client
           {| timer_id := 1; timer_cb := CbHeartbeat; timer_delay := 10000 |}).
  - vm_compute. reflexivity.
  - vm_compute. reflexivity.
  - reflexivity.
  - vm_compute. reflexivity.
Defined.

Lemma failed_reconnect_is_not_retried_witness :
  exists c1 c2 c3,
    close_handler 1006 no_reason dropped_client = Return tt c1
    /\ fire 1 (nextTimer dropped_client) (lit "ws://hub:80") c1
       = Some (Return tt c2)
    /\ QueueFacts.sockets (since c1 c2) = [lit "ws://hub:80"]
    /\ deliver 1 (OnClose 1006 no_reason) c2 = Some (Return tt c3)
    /\ scheduled (since c2 c3) = []
    /\ timers c3
       = filter (fun t => negb (has_id (timerId dropped_client) t))
           (timers dropped_client)
    /\ reconnecting c3 = true
    /\ ws c3 = Some {| readyState := CLOSED; bufferedAmount := 0 |}.
Proof.
  apply (failed_reconnect_is_not_retried 1 (lit "ws://hub:80") 1006 1006
           no_reason no_reason dropped_client
           {| readyState := CLOSED; bufferedAmount := 0 |}).
  - vm_compute. reflexivity.
  - vm_compute. reflexivity.
  - unfold fresh. vm_compute. repeat constructor.
  - reflexivity.
  - reflexivity.
  - reflexivity.
  - reflexivity.
Defined.

Lemma close_with_other_code_keeps_socket_witness :
  exists c',
    close_handler 1000 going_away dropped_client = Return tt c'
    /\ same_connection dropped_client c'
    /\ since dropped_client c'
       = Console "received close frame"
         :: map (fun l => Invoke l going_away)
              (registered CONNECTERROR dropped_client)
    /\ connect None (lit "ws://hub:80") c' = console "conn already open" c'.
Proof.
  apply (close_with_other_code_keeps_socket 1000 going_away None
           (lit "ws://hub:80") dropped_client
           {| readyState := CLOSED; bufferedAmount := 0 |}).
  - vm_compute. reflexivity.
  - reflexivity.
  - reflexivity.
Defined.

Lemma open_client_probing : probing open_client.
Proof.
  unfold probing. split; [|split].
  - intros H. vm_compute in H. discriminate H.
  - unfold fresh. vm_compute. repeat constructor.
  - eexists. split; vm_compute; reflexivity.
Defined.

Lemma probe_cycle_keeps_one_timer_witness :
  exists c',
    fire 1 (timerId open_client) [] (on_pong open_client) = Some (Return tt c')
    /\ since open_client c'
       = [WsPing; SetTimeout (nextTimer open_client) CbHeartbeat
                    (heartbeatms (env open_client))]
    /\ probing c'.
Proof.
  apply (probe_cycle_keeps_one_timer 1 [] open_client).
  exact open_client_probing.
Defined.

Lemma open_starts_probe_witness :
  exists c',
    deliver 1 OnOpen
      (connect None (lit "ws://hub:80") (constructor node_env None))
    = Some (Return tt c')
    /\ probing c' /\ pong c' = false.
Proof.
  apply (open_starts_probe 0
           (connect None (lit "ws://hub:80") (constructor node_env None))
           {| readyState := CONNECTING; bufferedAmount := 0 |} None).
  - reflexivity.
  - reflexivity.
  - reflexivity.
  - reflexivity.
  - unfold fresh. vm_compute. constructor.
Defined.

Lemma timeout_event_reports_no_state_witness :
  exists c' m,
    heartbeat open_client = Return tt c'
    /\ invoked (since open_client c') = registered TIMEOUTEVENT open_client
    /\ Forall (fun x => match x with
                        | Invoke _ arg => arg = VJson (JObj m)
                        | _ => True
                        end) (since open_client c')
    /\ find (fun p => jsstring_eqb (fst p) (lit "state")) m
       = Some (lit "state", JStr (lit "undefined")).
Proof.
  apply (timeout_event_reports_no_state open_client
           {| readyState := OPEN; bufferedAmount := 0 |} None).
  - vm_compute. reflexivity.
  - vm_compute. reflexivity.
  - vm_compute. reflexivity.
  - vm_compute. reflexivity.
Defined.

Lemma dropped_client_probing : probing dropped_client.
Proof.
  unfold probing. split; [|split].
  - intros H. vm_compute in H. discriminate H.
  - unfold fresh. vm_compute. repeat constructor.
  - eexists. split; vm_compute; reflexivity.
Defined.

Lemma abnormal_close_stops_probe_witness :
  exists c',
    close_handler 1006 no_reason dropped_client = Return tt c'
    /\ ws c' = None /\ heartbeats c' = []
    /\ scheduled (since dropped_client c') = [(CbConnect, 8000)].
Proof.
  apply (abnormal_close_stops_probe 1006 no_reason dropped_client).
  - exact dropped_client_probing.
  - vm_compute. reflexivity.
  - reflexivity.
  - reflexivity.
Defined.

(** A client with two envelopes queued whose socket has not opened yet,
    and the same client with the pong flag lowered. *)
Definition waiting_client : client :=
  push (envelope 2)
    (push (envelope 1)
       (connect None (lit "ws://hub:80") (constructor node_env None))).

Definition stale_client : client := set_pong waiting_client false.

Lemma queued_messages_are_sent_after_open_witness :
  exists c1 c2 t,
    deliver 3 OnOpen waiting_client = Some (Return tt c1)
    /\ fire 3 (S (nextTimer waiting_client)) [] c1 = Some (Return tt c2)
    /\ get_eventName t = Ok (Some (JStr (lit "telemetry")))
    /\ map Ok (sent (since waiting_client c1) ++ sent (since c1 c2))
       = Codec.encode t :: map Codec.encode (rev (sendQueue waiting_client))
    /\ sendQueue c2 = [].
Proof.
  apply (queued_messages_are_sent_after_open 3 [] waiting_client
           {| readyState := CONNECTING; bufferedAmount := 0 |} None).
  - reflexivity.
  - reflexivity.
  - reflexivity.
  - reflexivity.
  - unfold fresh. vm_compute. constructor.
  - vm_compute. reflexivity.
  - vm_compute. lia.
Defined.

Lemma flush_after_open_with_lowered_pong_never_returns_witness :
  exists c1,
    deliver 1 OnOpen stale_client = Some (Return tt c1)
    /\ ws c1 = None
    /\ forall fuel', fire fuel' (S (nextTimer stale_client)) [] c1 = None.
Proof.
  apply (flush_after_open_with_lowered_pong_never_returns 0 [] stale_client
           {| readyState := CONNECTING; bufferedAmount := 0 |} None).
  - reflexivity.
  - reflexivity.
  - reflexivity.
  - unfold fresh. vm_compute. constructor.
  - intros H. vm_compute in H. discriminate H.
Defined.

Lemma dropped_after_pong_probing : probing dropped_after_pong.
Proof.
  unfold probing. split; [|split].
  - intros H. vm_compute in H. discriminate H.
  - unfold fresh. vm_compute. repeat constructor.
  - eexists. split; vm_compute; reflexivity.
Defined.

Lemma reconnect_restores_probe_witness :
  exists c1 c2 c3,
    close_handler 1006 no_reason dropped_after_pong = Return tt c1
    /\ fire 0 (nextTimer dropped_after_pong) (lit "ws://hub:80") c1
       = Some (Return tt c2)
    /\ deliver 1 OnOpen c2 = Some (Return tt c3)
    /\ probing c3 /\ reconnecting c3 = false
    /\ sendQueue c3 = sendQueue dropped_after_pong.
Proof.
  apply (reconnect_restores_probe 0 (lit "ws://hub:80") 1006 no_reason
           dropped_after_pong).
  - exact dropped_after_pong_probing.
  - vm_compute. reflexivity.
  - reflexivity.
  - reflexivity.
  - reflexivity.
Defined.

End LifecycleFacts.

(** ** More on the queue file and on the wire codec *)

Module StoreFacts.
Import Client Trace EmitterFacts SendFacts.

(** The state in which a call ends. *)
Definition final {A : Type} (m : completion A) : client :=
  match m with
  | Return _ c => c
  | Raise _ c => c
  end.

(** There is nothing for the spill to append to: the queue file is
    missing, or above the size cap, or its text is not JSON, or its JSON
    value is [null], a boolean, a number or a plain object, none of which
    has a [concat]. *)
Definition unusable (c : client) : bool :=
  match file c with
  | Some bytes =>
      (Z.of_nat (List.length bytes) >? 99999999) ||
      match read_stored bytes with
      | Throw _ => true
      | Ok (VJson (JNull | JBool _ | JNum _ | JObj _)) => true
      | Ok _ => false
      end
  | None => true
  end.

(** A queue file with fractions and exponents in it is JSON text. *)
Lemma stored_fractions_are_read :
  read_stored (lit "[1.5,1e2,-0.25,0.1E-1]")
  = Ok (VJson (JArr [JNum (Double.of_decimal 15 (-1)); JNum 100;
                     JNum (Double.opp (Double.of_decimal 25 (-2)));
                     JNum (Double.of_decimal 1 (-2))])).
Proof. vm_compute. reflexivity. Qed.

(** X25.  Without a usable queue file the spill calls no sender and
    writes nothing: when the file is missing, above the size cap or
    holds anything but the JSON text of an array or of a string, the
    outcome of [saveSendQueue] after [stat] is the same for every
    sender, one that never returns included, and it leaves the file and
    the queue in memory as they are and transmits nothing. *)
Theorem spill_without_usable_file (c : client) :
  unusable c = true ->
  exists r,
    (forall sender, saveSendQueue_stat sender c = Some r)
    /\ file (final r) = file c
    /\ sendQueue (final r) = sendQueue c
    /\ sent (since c (final r)) = [].
Proof.
  unfold unusable, saveSendQueue_stat. intros H.
  assert (L : forall line, sent (since c (console line c)) = []).
  { intros line. now rewrite (since_suffix c _ [Console line]). }
  assert (N : sent (since c c) = []).
  { rewrite (since_suffix c c []); [reflexivity | now rewrite app_nil_r]. }
  destruct (file c) as [bytes|] eqn:Hf.
  - destruct (Z.of_nat (List.length bytes) >? 99999999).
    + eexists. split; [reflexivity|]. cbn [final]. fields. auto.
    + cbn [orb] in H.
      destruct (read_stored bytes) as [[| | | n | [| b | n | s | l | m] | b]|e];
        try discriminate; (eexists; split; [reflexivity|]); cbn [final];
        fields; auto.
  - eexists. split; [reflexivity|]. cbn [final]. auto.
Qed.

Lemma from_ascii (s : jsstring) :
  forallb (fun u => (0 <=? u) && (u <? 128)) s = true -> Buffer.from s = s.
Proof.
  induction s as [|u r IH]; [reflexivity|]. cbn [forallb]. intros H.
  apply andb_true_iff in H as [Hu Hr]. apply andb_true_iff in Hu as [H0 H1].
  apply Z.leb_le in H0. apply Z.ltb_lt in H1.
  cbn [Buffer.from]. unfold is_high, is_low, Buffer.enc_cp.
  replace (55296 <=? u) with false by (symmetry; apply Z.leb_gt; lia).
  replace (56320 <=? u) with false by (symmetry; apply Z.leb_gt; lia).
  replace (u <? 128) with true by (symmetry; apply Z.ltb_lt; lia).
  cbn [andb app]. now rewrite IH.
Qed.

Lemma toString_ascii (s : jsstring) :
  forallb (fun u => (0 <=? u) && (u <? 128)) s = true -> Buffer.toString s = s.
Proof.
  induction s as [|u r IH]; [reflexivity|]. cbn [forallb]. intros H.
  apply andb_true_iff in H as [Hu Hr]. apply andb_true_iff in Hu as [H0 H1].
  cbn [Buffer.toString]. now rewrite H1, IH.
Qed.

(** X26.  What the spill writes it reads back.  When the JSON text of
    the entries is plain ASCII, the bytes that [saveSendQueue] writes for
    a queue are read by the next [saveSendQueue] as the array of the
    same entries. *)
Theorem stored_queue_round_trip (q : list value) (l : list json) :
  entries_json q = Ok l ->
  Json.representable (JArr l) = true ->
  forallb (fun u => (0 <=? u) && (u <? 128)) (Json.stringify (JArr l)) = true ->
  exists bytes,
    queue_bytes q = Ok bytes /\ read_stored bytes = Ok (VJson (JArr l)).
Proof.
  intros He Hr Ha. unfold queue_bytes. rewrite He.
  eexists. split; [reflexivity|].
  unfold read_stored, Buffer.latin1. rewrite !(from_ascii (Json.stringify (JArr l)) Ha).
  rewrite toString_ascii by exact Ha.
  unfold Codec.JSON_parse. now rewrite JsonFacts.parse_stringify.
Qed.

Lemma enc_cp_plain (c : Z) :
  0 <= c < 1114112 -> Forall BufferFacts.plain (Buffer.enc_cp c).
Proof.
  intros H. unfold Buffer.enc_cp, BufferFacts.plain.
  destruct (c <? 128) eqn:E1; [apply Z.ltb_lt in E1|apply Z.ltb_ge in E1].
  { repeat constructor; lia. }
  assert (0 <= c mod 64 < 64) by (apply Z.mod_pos_bound; lia).
  assert (0 <= (c / 64) mod 64 < 64) by (apply Z.mod_pos_bound; lia).
  assert (0 <= (c / 4096) mod 64 < 64) by (apply Z.mod_pos_bound; lia).
  assert (0 <= c / 64 < 17408) by (Z.div_mod_to_equations; lia).
  assert (0 <= c / 4096 < 272) by (Z.div_mod_to_equations; lia).
  assert (0 <= c / 262144 < 5) by (Z.div_mod_to_equations; lia).
  destruct (c <? 2048); [|destruct (c <? 65536)]; repeat constructor; lia.
Qed.

Lemma from_plain_len (n : nat) : forall s,
  (List.length s <= n)%nat -> forallb is_unit s = true ->
  Forall BufferFacts.plain (Buffer.from s).
Proof.
  assert (R : Forall BufferFacts.plain Buffer.replacement)
    by (unfold BufferFacts.plain; repeat constructor; lia).
  induction n as [|n IH]; intros s Hl Hu.
  - destruct s; [constructor | simpl in Hl; lia].
  - destruct s as [|u r]; [constructor|]. simpl in Hl.
    cbn [forallb] in Hu. apply andb_true_iff in Hu as [Hu Hr].
    cbn [Buffer.from]. destruct (is_high u) eqn:Hh.
    + destruct r as [|l r']; [exact R|].
      destruct (is_low l) eqn:Hlow.
      * apply Forall_app. split.
        -- apply enc_cp_plain. unfold is_high, is_low in *.
           apply andb_true_iff in Hh as [A B]. apply andb_true_iff in Hlow as [C D].
           apply Z.leb_le in A, C. apply Z.ltb_lt in B, D. lia.
        -- cbn [forallb] in Hr. apply andb_true_iff in Hr as [_ Hr].
           apply IH; [simpl in Hl; lia | exact Hr].
      * apply Forall_app. split; [exact R|]. apply IH; [lia | exact Hr].
    + destruct (is_low u).
      * apply Forall_app. split; [exact R|]. apply IH; [lia | exact Hr].
      * apply Forall_app. split; [|apply IH; [lia | exact Hr]].
        apply enc_cp_plain. unfold is_unit in Hu.
        apply andb_true_iff in Hu as [A B]. apply Z.leb_le in A.
        apply Z.ltb_lt in B. lia.
Qed.

(** X27.  The queue file is read back byte for character.  Whatever
    text was written through [Buffer.from], what is given to
    [JSON.parse] when the file is read is the sequence of its UTF-8
    bytes, each taken as one character. *)
Theorem stored_text_is_read_as_bytes (s : jsstring) :
  forallb is_unit s = true ->
  read_stored (Buffer.from s) = Codec.JSON_parse (Buffer.from s).
Proof.
  intros Hu. unfold read_stored, Buffer.latin1.
  rewrite BufferFacts.toString_from; [reflexivity|].
  apply BufferFacts.well_formed_all_plain.
  now apply (from_plain_len (List.length s)).
Qed.

Lemma representable_bytes (b : list Z) :
  forallb (fun x => (0 <=? x) && (x <? 256)) b = true ->
  forallb Json.representable (map (fun n : Z => JNum n) b) = true.
Proof.
  induction b as [|x b IH]; [reflexivity|]. cbn [forallb map]. intros H.
  apply andb_true_iff in H as [Hx Hb]. apply andb_true_iff in Hx as [H0 H1].
  apply Z.leb_le in H0. apply Z.ltb_lt in H1.
  rewrite IH by exact Hb. rewrite andb_true_r.
  cbn [Json.representable]. apply DoubleFacts.is_json_of_Z. lia.
Qed.

(** X28.  A Buffer does not come back as a Buffer: [decode (encode (b))]
    of a Buffer message is the plain object that [toJSON] gives for it,
    with the type tag and the array of its bytes. *)
Theorem buffer_message_decodes_to_its_json (b : list Z) :
  forallb (fun x => (0 <=? x) && (x <? 256)) b = true ->
  Codec.decode_encode (VBuffer b) = Ok (VJson (Codec.buffer_json b)).
Proof.
  intros Hb.
  assert (R : Json.representable (Codec.buffer_json b) = true).
  { unfold Codec.buffer_json.
    cbn [Json.representable map fst forallb].
    rewrite (representable_bytes b Hb). reflexivity. }
  unfold Codec.decode_encode, Codec.encode.
  cbn [typeof Codec.primitives_encode Codec.stringify_to_buffer Codec.JSON_stringify].
  unfold Codec.decode.
  cbn [typeof Codec.primitives_decode Codec.Buffer_from_object].
  rewrite BufferFacts.toString_from
    by (apply BufferFacts.well_formed_stringify; exact R).
  unfold Codec.JSON_parse. now rewrite JsonFacts.parse_stringify.
Qed.

(** X29.  The telemetry record survives the wire.  When the host name,
    the process id, the usage figures and the service list are
    JSON-representable, and the ready state of the socket is a number
    that a double holds, [decode (encode (t))] of the record [t] that
    [telemetry] returns is [t]. *)
Theorem telemetry_round_trip (c c' : client) (t : value) :
  telemetry c = Return t c' ->
  Json.representable (JStr (hostname (env c))) = true ->
  Json.representable (JNum (pid (env c))) = true ->
  Json.representable (JObj (usage (env c))) = true ->
  Json.representable (serviceList c') = true ->
  Json.representable (state_field c) = true ->
  Codec.decode_encode t = Ok t.
Proof.
  intros T Hh Hp Hu Hs Hst.
  assert (E : exists l, t = VJson (JObj
                [(EVENTNAME, JStr (lit "telemetry"));
                 (lit "proto", JStr SERVICENAME);
                 (lit "hostname", JStr (hostname (env c)));
                 (lit "role", JStr (lit "node"));
                 (lit "pid", JNum (pid (env c)));
                 (lit "telemetry", JObj (usage (env c)));
                 (lit "services", l);
                 (lit "state", state_field c)])
              /\ Json.representable l = true).
  { unfold telemetry, services in T.
    destruct (options c) as [[l|]|]; cbn [bind] in T; [| |discriminate];
      inversion T; subst; fields; eexists; (split; [reflexivity|]);
      fields; exact Hs. }
  destruct E as (l & -> & Hl).
  match goal with
  | |- Codec.decode_encode (VJson ?j) = _ =>
      assert (R : Json.representable j = true)
  end.
  { cbn [Json.representable map fst forallb] in *.
    rewrite Hh, Hp, Hu, Hl, Hst. reflexivity. }
  unfold Codec.decode_encode, Codec.encode.
  cbn [typeof Codec.primitives_encode Codec.stringify_to_buffer Codec.JSON_stringify].
  unfold Codec.decode.
  cbn [typeof Codec.primitives_decode Codec.Buffer_from_object].
  rewrite BufferFacts.toString_from
    by (apply BufferFacts.well_formed_stringify; exact R).
  unfold Codec.JSON_parse. now rewrite JsonFacts.parse_stringify.
Qed.

Lemma spill_without_usable_file_witness :
  exists r,
    (forall sender, saveSendQueue_stat sender full_client = Some r)
    /\ file (final r) = file full_client
    /\ sendQueue (final r) = sendQueue full_client
    /\ sent (since full_client (final r)) = [].
Proof. apply (spill_without_usable_file full_client). reflexivity. Defined.

Lemma stored_queue_round_trip_witness :
  exists bytes,
    queue_bytes [envelope 1; VUndefined] = Ok bytes
    /\ read_stored bytes
       = Ok (VJson (JArr [JObj [(EVENTNAME, JStr (lit "x")); (lit "a", JNum 1)];
                          JNull])).
Proof.
  apply (stored_queue_round_trip [envelope 1; VUndefined]).
  - reflexivity.
  - vm_compute. reflexivity.
  - vm_compute. reflexivity.
Defined.

(** The JSON text of a one-letter string, the letter e with an acute
    accent, which is outside ASCII: it is read back as a string of two
    characters. *)
Definition accented : jsstring := Json.stringify (JStr [233]).

Lemma stored_text_is_read_as_bytes_witness :
  read_stored (Buffer.from accented) = Codec.JSON_parse (Buffer.from accented).
Proof. apply (stored_text_is_read_as_bytes accented). vm_compute. reflexivity. Defined.

Lemma accented_text_is_not_read_back :
  read_stored (Buffer.from accented) = Ok (VJson (JStr [195; 169])).
Proof. vm_compute. reflexivity. Qed.

Lemma buffer_message_decodes_to_its_json_witness :
  Codec.decode_encode (VBuffer [104; 105])
  = Ok (VJson (Codec.buffer_json [104; 105])).
Proof. apply (buffer_message_decodes_to_its_json [104; 105]). reflexivity. Defined.

(** The record of a client that has connected. *)
Definition connecting_client : client :=
  connect None (lit "ws://hub:80") (constructor node_env None).

Definition first_record : value :=
  match telemetry connecting_client with
  | Return t _ => t
  | Raise _ _ => VUndefined
  end.

Lemma telemetry_round_trip_witness :
  Codec.decode_encode first_record = Ok first_record.
Proof.
  apply (telemetry_round_trip connecting_client connecting_client first_record);
    vm_compute; reflexivity.
Defined.

End StoreFacts.

(** ** The switch address *)

Module ConfigFacts.
Import Config.

Lemma port_truthy (p : option jsstring) (x : double) :
  Double.to_boolean x = true ->
  Client.falsy (or_else (option_map JStr p) (Some (JNum x))) = false.
Proof.
  intros Hx. unfold or_else.
  destruct p as [[|u r]|]; cbn [option_map Client.falsy];
    try reflexivity; now rewrite Hx.
Qed.

Lemma activePort_truthy (s : settings) : Client.falsy (activePort s) = false.
Proof.
  unfold activePort, cipherPort, clearPort.
  destruct (sslEnabled s); apply port_truthy; reflexivity.
Qed.

Lemma activeProto_truthy (s : settings) : Client.falsy (activeProto s) = false.
Proof. unfold activeProto. now destruct (sslEnabled s). Qed.

(** X30.  A primary node has no address exactly when it has no host
    name: [constructUrl] gives [null] when none of [DOMAIN], the domain
    of the certificate and the fully qualified name of the host is set
    to a truthy value, and an address otherwise, since the scheme and
    the port always have a value. *)
Theorem primary_url_missing_iff_no_host (s : settings) :
  isPrimary s = true ->
  (constructUrl s = None <-> Client.falsy (activeHost s) = true).
Proof.
  intros Hp. unfold constructUrl, protocol, host, port. rewrite Hp.
  rewrite activeProto_truthy, activePort_truthy. cbn [negb andb].
  rewrite andb_true_r.
  destruct (Client.falsy (activeHost s)); cbn [negb]; split;
    intros H; try reflexivity; discriminate.
Qed.

Definition switch_node : settings :=
  {| SWITCH := Some (lit "TRUE"); SSL_ENABLED := Some (lit "true");
     PORT := None; SSL_PORT := None; DOMAIN := Some (lit "hub.example");
     config_isSwitch := None; config_protocol := None; config_port := None;
     config_host := None; cert_domain := None; general_fqdn := None |}.

Lemma primary_url_missing_iff_no_host_witness :
  constructUrl switch_node = None
  <-> Client.falsy (activeHost switch_node) = true.
Proof. apply (primary_url_missing_iff_no_host switch_node). reflexivity. Defined.

End ConfigFacts.
